(** * atlas_landmarks: ingest/export_subsample.py

    A shallow embedding of the subsample exporter and the properties of
    its per-cell-type subsampling, normalisation, assembly and export.

    Conventions of the embedding:
    - Python dicts whose iteration order matters ([Counter], [filters],
      the discovered datasets) are association lists with unique keys,
      in insertion order; dicts used as plain maps (file attributes, the
      parsed metadata file, the directories) are [gmap]s.
    - numpy arrays are lists; a two-dimensional array is held by columns.
    - Matrix values are float32: a finite value is the rational it
      stands for, every operation rounds its exact result to the nearest
      float32 (a tie to the even one, an overflow to an infinity), and
      infinities and NaN follow IEEE 754.  The sign of a zero is not
      kept.  The stored layer holds finite numbers; [sum(axis=0)] adds
      the rows of a column in order.
    - [np.random.shuffle] belongs to numpy; it is a parameter of the
      development, constrained only to return a permutation.
    - [loompy] and [yaml] are libraries.  [loompy.connect] raises when
      the file is missing.  [loompy.create] raises [ValueError] for a
      matrix without rows or columns, before it touches the file, and
      for a matrix with an infinity or a NaN, after which the file is
      gone; otherwise it creates or replaces the file.  The metadata
      file is opened and parsed at every lookup: it can be missing, fail
      to parse, hold something that is not a mapping, or hold under a
      name a record that is not a mapping; its records are flat maps.
    - [discover_datasets] walks the disk: the listing of [../data_full/]
      is its argument, each name with the listing of its directory when
      it is one; its result is an argument of [main].
    - [print] calls are omitted. *)

From Stdlib Require Import QArith Qround Qabs Qpower Lqa.
From Stdlib Require Import DecimalString DecimalNat Ascii.
From stdpp Require Import gmap strings list fin_maps sorting.

Open Scope string_scope.

(** ** Python and numpy primitives *)

(** [str(k)] for a non-negative integer. *)
Definition str (k : nat) : string := NilZero.string_of_uint (Nat.to_uint k).

(** [sub in s] on strings. *)
Fixpoint str_contains (sub s : string) : bool :=
  String.prefix sub s ||
  match s with
  | EmptyString => false
  | String _ s' => str_contains sub s'
  end.

(** Assignment into a fixed-width numpy unicode array keeps the first
    [w] characters. *)
Fixpoint truncate (w : nat) (s : string) : string :=
  match w, s with
  | S w', String c s' => String c (truncate w' s')
  | _, _ => EmptyString
  end.

(** [d[k]] lookup in an insertion-ordered dict. *)
Fixpoint dict_get {V} (k : string) (d : list (string * V)) : option V :=
  match d with
  | [] => None
  | (k', v) :: d' => if String.eqb k' k then Some v else dict_get k d'
  end.

(** [d[k] = v]: an existing key keeps its position, a new key goes last. *)
Fixpoint dict_set {V} (k : string) (v : V) (d : list (string * V))
  : list (string * V) :=
  match d with
  | [] => [(k, v)]
  | (k', v') :: d' =>
      if String.eqb k' k then (k', v) :: d' else (k', v') :: dict_set k v d'
  end.

(** [collections.Counter(xs)]. *)
Definition Counter (xs : list string) : list (string * nat) :=
  fold_left (fun d x => dict_set x (S (default 0 (dict_get x d))) d) xs [].

(** [sum(d.values(), 0)]. *)
Definition sum_values (d : list (string * nat)) : nat :=
  fold_left Nat.add (map snd d) 0.

(** [max(xs)] raises on an empty sequence. *)
Definition py_max (xs : list nat) : option nat :=
  match xs with
  | [] => None
  | x :: xs' => Some (fold_left Nat.max xs' x)
  end.

(** [(arr == x).nonzero()[0]]: the positions holding [x], ascending. *)
Definition nonzero_eq (x : string) (arr : list string) : list nat :=
  filter (fun i => arr !! i = Some x) (seq 0 (length arr)).

(** [arr[mask]] for a boolean mask. *)
Fixpoint mask_select {A} (mask : list bool) (arr : list A) : list A :=
  match mask, arr with
  | b :: mask', a :: arr' =>
      if b then a :: mask_select mask' arr' else mask_select mask' arr'
  | _, _ => []
  end.

(** [arr[i:j] = blk], for a block that fills the slice. *)
Definition slice_assign {A} (i j : nat) (blk arr : list A) : list A :=
  take i arr ++ blk ++ drop j arr.

(** [np.sort] on an index array. *)
Definition np_sort (ind : list nat) : list nat := merge_sort le ind.

(** ** float32 values *)

(** A float32: a finite number, an infinity or a NaN. *)
Inductive value :=
  | Finite (q : Q)
  | Inf (negative : bool)
  | NaN.

Definition is_finite (v : value) : bool :=
  match v with Finite _ => true | _ => false end.

Definition pow2 (e : Z) : Q := (2 ^ e)%Q.

(** [floor(log2 |q|)], for [q] other than zero. *)
Definition ilog2 (q : Q) : Z :=
  let e0 := (Z.log2 (Z.abs (Qnum q)) - Z.log2 (Zpos (Qden q)))%Z in
  if Qle_bool (pow2 e0) (Qabs q) then e0 else (e0 - 1)%Z.

(** The nearest integer, a tie going to the even one. *)
Definition round_half_even (x : Q) : Z :=
  let n := Qfloor x in
  match (x - inject_Z n ?= 1 # 2)%Q with
  | Lt => n
  | Gt => (n + 1)%Z
  | Eq => if Z.even n then n else (n + 1)%Z
  end.

(** [np.float32(q)]: the nearest number with 24 significant bits whose
    last place is worth at least [2^-149], or an infinity when that
    number reaches [2^128]. *)
Definition round32 (q : Q) : value :=
  let e := Z.max (ilog2 q - 23) (-149) in
  let r := (inject_Z (round_half_even (q / pow2 e)) * pow2 e)%Q in
  if Qle_bool (pow2 128) (Qabs r) then Inf (negb (Qle_bool 0 q))
  else Finite (Qred r).

Definition add32 (x y : value) : value :=
  match x, y with
  | Finite a, Finite b => round32 (a + b)
  | Finite _, Inf s | Inf s, Finite _ => Inf s
  | Inf s, Inf t => if Bool.eqb s t then Inf s else NaN
  | _, _ => NaN
  end.

Definition mul32 (x y : value) : value :=
  match x, y with
  | Finite a, Finite b => round32 (a * b)
  | Finite a, Inf s | Inf s, Finite a =>
      if Qeq_bool a 0 then NaN else Inf (xorb s (negb (Qle_bool 0 a)))
  | Inf s, Inf t => Inf (xorb s t)
  | _, _ => NaN
  end.

Definition div32 (x y : value) : value :=
  match x, y with
  | Finite a, Finite b =>
      if Qeq_bool b 0
      then if Qeq_bool a 0 then NaN else Inf (negb (Qle_bool 0 a))
      else round32 (a / b)
  | Finite _, Inf _ => Finite 0
  | Inf s, Finite b => Inf (xorb s (negb (Qle_bool 0 b)))
  | _, _ => NaN
  end.

Definition million : Q := 1000000 # 1.

(** [col.sum()] over the rows of one float32 column. *)
Definition sum32 (col : list value) : value := fold_left add32 col (Finite 0).

(** One column of [submat *= 1e6 / submat.sum(axis=0)]: the factor is
    computed from the column's own sum and multiplies every entry.  A
    zero sum gives an infinite factor, and then infinite or NaN
    entries. *)
Definition normalize_column (col : list value) : list value :=
  let factor := div32 (Finite million) (sum32 col) in
  map (fun x => mul32 x factor) col.

(** The exact sum of rationals, and of a column of the assembled matrix
    when every entry is finite. *)
Definition column_sum (col : list Q) : Q := fold_right Qplus 0%Q col.

Fixpoint value_sum (col : list value) : option Q :=
  match col with
  | [] => Some 0%Q
  | Finite q :: col' => (fun s => (q + s)%Q) <$> value_sum col'
  | _ :: _ => None
  end.

(** ** Files *)

(** A full matrix as [loompy.connect] exposes it: the row attribute
    [GeneName], the column attribute [cellType], and reads of the main
    layer by row and column, whose shape is that of the two attributes. *)
Record loom_full := {
  ra_GeneName : list string;
  ca_cellType : list string;
  layer_at : nat -> nat -> Q;
}.

(** [dsl[:, k]]. *)
Definition full_column (dsl : loom_full) (k : nat) : list Q :=
  map (fun r => layer_at dsl r k) (seq 0 (length (ra_GeneName dsl))).

Inductive attr_value :=
  | AInt (z : Z)
  | AStr (s : string).

(** The arguments of one [loompy.create] call. *)
Record loom_out := {
  layer : list (list value);
  GeneName : list string;
  CellName : list string;
  CellType : list string;
  file_attrs : gmap string attr_value;
}.

(** What [../atlas_metadata.yml] is to [open] and [yaml.safe_load]: no
    file; a file that does not parse; a document that is not a mapping
    (an empty file is [None]); or a mapping from names to records, a
    record that is not itself a mapping (say [null]) being [None]. *)
Inductive metadata_file :=
  | NoMetadataFile
  | Unparsable
  | NotAMapping
  | Records (records : gmap string (option (gmap string attr_value))).

Inductive event :=
  | Connect (fn : string)
  | LoadMetadata
  | Create (fn : string)
  | Remove (fn : string).

Inductive error :=
  | FileNotFoundError (fn : string)
  | ValueError
  | KeyError (k : string)
  | YAMLError
  | AttributeError
  | TypeError.

(** ** The feature mask *)

Definition exclude_list : list string :=
  [ "too_low_aQual"; "alignment_not_unique"; "ambiguous"; "no_feature";
    "not_aligned" ].

Definition fea_bool (fea : string) : bool :=
  negb (bool_decide (fea ∈ exclude_list))
  && negb (String.prefix "ERCC-" fea)
  && negb (String.prefix "_" fea).

(** ** Discovery of the atlases *)

(** [s.endswith(suffix)]. *)
Fixpoint endswith (suffix s : string) : bool :=
  String.eqb s suffix ||
  match s with
  | EmptyString => false
  | String _ s' => endswith suffix s'
  end.

(** [s.split(c)] for a separator of one character: the pieces between
    the occurrences of [c], of which there is always at least one. *)
Fixpoint split (c : Ascii.ascii) (s : string) : list string :=
  match s with
  | EmptyString => [EmptyString]
  | String a s' =>
      if Ascii.eqb a c then EmptyString :: split c s'
      else match split c s' with
           | piece :: pieces => String a piece :: pieces
           | [] => [String a EmptyString]
           end
  end.

(** [sep.join(pieces)]. *)
Fixpoint join (sep : string) (pieces : list string) : string :=
  match pieces with
  | [] => EmptyString
  | [piece] => piece
  | piece :: pieces' => piece +:+ sep +:+ join sep pieces'
  end.

(** What [os.listdir] and [os.path.isdir] show of [../data_full/]: the
    names it holds, in the order of the listing, and for each name that
    is a directory the names listed in it. *)
Inductive dir_entry :=
  | NotADirectory
  | Directory (fns : list string).

(** ['_'.join(fn.split('.')[0].split('_')[1:])]. *)
Definition tissue_of (fn : string) : string :=
  join "_" (tl (split "_"%char (hd EmptyString (split "."%char fn)))).

(** The inner loop of [discover_datasets]: the list [dataset]. *)
Definition dataset_of (fns : list string) : list (option string) :=
  fold_left
    (fun dataset fn =>
       if String.eqb fn "dataset.loom" then (dataset ++ [None])%list
       else if String.prefix "dataset" fn && endswith ".loom" fn
            then (dataset ++ [Some (tissue_of fn)])%list
            else dataset)
    fns [].

Definition discover_datasets (data_full : list (string * dir_entry))
  : list (string * list (option string)) :=
  fold_left
    (fun datasets '(sfdn, entry) =>
       match entry with
       | NotADirectory => datasets
       | Directory fns =>
           if (length fns =? 0)%nat then datasets
           else
             let dataset := dataset_of fns in
             match dataset with
             | [] => datasets
             | _ :: _ => dict_set sfdn dataset datasets
             end
       end)
    data_full [].

(** ** The exporter *)

Module AtlasSubsampler.

Definition n : nat := 20.

Record self := {
  name : string;
  tissue : option string;
  overwrite : bool;
  full_filename : string;
  filters : list (string * option (string -> bool));
}.

Definition get_full_filename (name : string) (tissue : option string) : string :=
  let fdn := "../data_full/" +:+ name in
  match tissue with
  | None => fdn +:+ "/dataset.loom"
  | Some t => fdn +:+ "/dataset_" +:+ t +:+ ".loom"
  end.

Definition get_output_filename (s : self) (metaname : string) : string :=
  let fdn := "../data/subsamples/" in
  match tissue s with
  | None => fdn +:+ metaname +:+ ".loom"
  | Some t => fdn +:+ metaname +:+ "_" +:+ t +:+ ".loom"
  end.

(** The predicate of the ['nofetal'] export. *)
Definition nofetal (x : string) : bool := negb (str_contains "fetal" x).

Definition get_custom_filters (name : string)
  : list (string * option (string -> bool)) :=
  let filters := [ ("Darmanis_2015", [ ("nofetal", Some nofetal) ]) ] in
  let filters := default [] (dict_get name filters) in
  dict_set "" None filters.

(** [__init__]. *)
Definition init (name : string) (tissue : option string) (overwrite : bool)
  : self :=
  {| name := name; tissue := tissue; overwrite := overwrite;
     full_filename := get_full_filename name tissue;
     filters := get_custom_filters name |}.

(** The name under which an export is filed: [if filtname: ... else: ...]
    tests for a non-empty string. *)
Definition metaname (s : self) (filtname : string) : string :=
  match filtname with
  | EmptyString => name s
  | _ => name s +:+ "_" +:+ filtname
  end.

(** The first loop of [process_atlas]: the dict [fns_out]. *)
Definition fns_out (s : self) : list (string * string) :=
  fold_left
    (fun fns '(filtname, _) =>
       dict_set filtname (get_output_filename s (metaname s filtname)) fns)
    (filters s) [].

(** The per-cell-type quota: the loop capping [n_cells] at [n]. *)
Definition cap_counts (n_cells : list (string * nat)) : list (string * nat) :=
  fold_left
    (fun (d : list (string * nat)) '(ct, ni) =>
       if (n <? ni)%nat then dict_set ct n d else d)
    n_cells n_cells.

(** [ind_fea]. *)
Definition feature_mask (features : list string) : list bool :=
  map fea_bool features.

(** What the [with] block leaves behind for the export loop. *)
Record assembled := {
  n_cells_tot : nat;
  features : list string;
  matrix : list (list value);
  meta : list string;
  cnames : list string;
}.

Section Exporter.
Context {rng : Type}.

(** [np.random.shuffle], threading numpy's global random state. *)
Variable shuffle : rng -> list nat -> list nat * rng.

(** The directory of full matrices, the output directory,
    [../atlas_metadata.yml], numpy's random state, and the file
    operations performed so far, oldest first. *)
Record world := {
  data_full : gmap string loom_full;
  subsamples : gmap string loom_out;
  atlas_metadata : metadata_file;
  random_state : rng;
  trace : list event;
}.

(** Computations that read and change the world and may raise; the
    world returned with an exception is the one reached when it was
    raised, and nothing that follows is run. *)
Definition M (A : Type) : Type := world -> (error + A) * world.

Definition ret {A} (a : A) : M A := fun w => (inr a, w).

Definition raise {A} (e : error) : M A := fun w => (inl e, w).

Definition bind {A B} (m : M A) (k : A -> M B) : M B :=
  fun w =>
    match m w with
    | (inl e, w') => (inl e, w')
    | (inr a, w') => k a w'
    end.

Notation "'let*' x ':=' m 'in' k" := (bind m (fun x => k))
  (at level 10, x pattern, m at level 100, k at level 200).

(** [for x in xs: body(x)]. *)
Fixpoint for_each {A} (xs : list A) (body : A -> M unit) : M unit :=
  match xs with
  | [] => ret tt
  | x :: xs' => let* _ := body x in for_each xs' body
  end.

Definition log (ev : event) (w : world) : world :=
  {| data_full := data_full w; subsamples := subsamples w;
     atlas_metadata := atlas_metadata w; random_state := random_state w;
     trace := trace w ++ [ev] |}.

(** [os.path.isfile] on an output path. *)
Definition isfile (fn : string) : M bool :=
  fun w => (inr (bool_decide (is_Some (subsamples w !! fn))), w).

(** [all(os.path.isfile(x) for x in fns)]: stops at the first miss. *)
Fixpoint all_isfile (fns : list string) : M bool :=
  match fns with
  | [] => ret true
  | fn :: fns' =>
      let* b := isfile fn in
      if b then all_isfile fns' else ret false
  end.

(** [loompy.connect]. *)
Definition loompy_connect (fn : string) : M loom_full :=
  fun w =>
    match data_full w !! fn with
    | None => (inl (FileNotFoundError fn), w)
    | Some dsl => (inr dsl, log (Connect fn) w)
    end.

Definition with_subsamples (m : gmap string loom_out) (w : world) : world :=
  {| data_full := data_full w; subsamples := m;
     atlas_metadata := atlas_metadata w; random_state := random_state w;
     trace := trace w |}.

Definition with_random_state (g : rng) (w : world) : world :=
  {| data_full := data_full w; subsamples := subsamples w;
     atlas_metadata := atlas_metadata w; random_state := g;
     trace := trace w |}.

(** [loompy.create].  A matrix without rows or without columns is
    refused before the file is touched; the matrix has one row per name
    of [GeneName].  Otherwise the file is created or replaced, and when
    the matrix holds an infinity or a NaN it is removed again and the
    call raises. *)
Definition loompy_create (fn : string) (out : loom_out) : M unit :=
  fun w =>
    if (length (GeneName out) =? 0)%nat || (length (layer out) =? 0)%nat
    then (inl ValueError, w)
    else if forallb (forallb is_finite) (layer out)
    then (inr tt,
          log (Create fn) (with_subsamples (<[fn := out]> (subsamples w)) w))
    else (inl ValueError,
          log (Remove fn)
            (log (Create fn)
               (with_subsamples (delete fn (subsamples w)) w))).

Definition np_random_shuffle (ind : list nat) : M (list nat) :=
  fun w =>
    let '(ind', g) := shuffle (random_state w) ind in
    (inr ind', with_random_state g w).

(** [get_atlas_metadata]: the file is opened and parsed at every call;
    [meta.get(name, dict())] needs a mapping and gives the record of
    [name], or an empty one when there is none. *)
Definition get_atlas_metadata (name : string)
  : M (option (gmap string attr_value)) :=
  fun w =>
    match atlas_metadata w with
    | NoMetadataFile => (inl (FileNotFoundError "../atlas_metadata.yml"), w)
    | Unparsable => (inl YAMLError, log LoadMetadata w)
    | NotAMapping => (inl AttributeError, log LoadMetadata w)
    | Records records =>
        (inr (default (Some ∅) (records !! name)), log LoadMetadata w)
    end.

(** [for x in xs: st = body(st, x)], for a loop that updates locals. *)
Fixpoint fold_each {A S} (xs : list A) (body : S -> A -> M S) (st : S)
  : M S :=
  match xs with
  | [] => ret st
  | x :: xs' => let* st' := body st x in fold_each xs' body st'
  end.

(** The locals updated by the loop over [n_cells.items()]: the offset
    [i] and the arrays [matrix], [meta] and [cnames]. *)
Definition loop_state : Type :=
  nat * list (list value) * list string * list string.

(** One iteration of the loop over [n_cells.items()]. *)
Definition subsample_cell_type (dsl : loom_full) (ind_fea : list bool)
    (lstring : nat) (st : loop_state) (ct : string) (ni : nat)
  : M loop_state :=
  let '(i, matrix, meta, cnames) := st in
  let ind := nonzero_eq ct (ca_cellType dsl) in
  let* ind := np_random_shuffle ind in
  let ind := np_sort (take ni ind) in
  let submat := map (full_column dsl) ind in
  let submat := map (mask_select ind_fea) submat in
  let submat := map (map round32) submat in
  let submat := map normalize_column submat in
  ret (i + ni,
       slice_assign i (i + ni) submat matrix,
       slice_assign i (i + ni) (repeat (truncate lstring ct) ni) meta,
       slice_assign i (i + ni)
         (map (fun j => truncate (lstring + 12) (ct +:+ "_" +:+ str (j + 1)))
              (seq 0 ni))
         cnames).

(** The body of the [with loompy.connect(...) as dsl] block. *)
Definition read_data (dsl : loom_full) : M assembled :=
  let cts := ca_cellType dsl in
  let n_cells := Counter cts in
  let n_cells_tot := sum_values n_cells in
  let n_cells := cap_counts n_cells in
  let N := sum_values n_cells in
  let features := ra_GeneName dsl in
  let ind_fea := feature_mask features in
  let features := mask_select ind_fea features in
  let L := length features in
  let matrix := repeat (repeat (Finite 0) L) N in
  match py_max (map (fun '(ct, _) => String.length ct) n_cells) with
  | None => raise ValueError
  | Some lstring =>
      let meta := repeat "" N in
      let cnames := repeat "" N in
      let* (_, matrix, meta, cnames) :=
        fold_each n_cells
          (fun st '(ct, ni) => subsample_cell_type dsl ind_fea lstring st ct ni)
          (0, matrix, meta, cnames) in
      ret {| n_cells_tot := n_cells_tot; features := features;
             matrix := matrix; meta := meta; cnames := cnames |}
  end.

(** One iteration of the loop over [self.filters.items()]; the item
    assignment [file_attrs['Number of cells'] = ...] needs a mapping. *)
Definition export_variant (s : self) (a : assembled) (filtname : string)
    (fun_ : option (string -> bool)) : M unit :=
  let metaname := metaname s filtname in
  match dict_get filtname (fns_out s) with
  | None => raise (KeyError filtname)
  | Some fn_out =>
      let* file_attrs := get_atlas_metadata metaname in
      match file_attrs with
      | None => raise TypeError
      | Some file_attrs =>
          let file_attrs :=
            <["Number of cells" := AInt (Z.of_nat (n_cells_tot a))]>
              file_attrs in
          let file_attrs :=
            match tissue s with
            | Some t => <["Tissue" := AStr t]> file_attrs
            | None => file_attrs
            end in
          let '(cnames_filt, meta_filt, matrix_filt) :=
            match fun_ with
            | None => (cnames a, meta a, matrix a)
            | Some f =>
                let ind := map f (meta a) in
                (mask_select ind (cnames a), mask_select ind (meta a),
                 mask_select ind (matrix a))
            end in
          loompy_create fn_out
            {| layer := matrix_filt; GeneName := features a;
               CellName := cnames_filt; CellType := meta_filt;
               file_attrs := file_attrs |}
      end
  end.

Definition process_atlas (s : self) : M unit :=
  let fns := fns_out s in
  let* skip :=
    if negb (overwrite s) then all_isfile (map snd fns) else ret false in
  if skip then ret tt
  else
    let* dsl := loompy_connect (full_filename s) in
    let* a := read_data dsl in
    for_each (filters s) (fun '(filtname, fun_) =>
      export_variant s a filtname fun_).

(** The script's main block, after [discover_datasets()] has returned
    [datasets] and the arguments have been parsed; [dataset_arg] is
    [args.dataset], [None] when the option is not given. *)
Definition main (datasets : list (string * list (option string)))
    (dataset_arg : option (list string)) (overwrite : bool) : M unit :=
  let datasets :=
    match dataset_arg with
    | Some (x :: xs) =>
        filter (fun '(x', _) => x' ∈ x :: xs) datasets
    | _ => datasets
    end in
  for_each datasets (fun '(dsname, tissues) =>
    for_each tissues (fun tissue =>
      process_atlas (init dsname tissue overwrite))).

End Exporter.

Arguments world : clear implicits.
Arguments M : clear implicits.

End AtlasSubsampler.

(** ** Vocabulary of the statements *)

(** The distinct elements of [xs], in the order in which they first
    appear. *)
Fixpoint distinct (xs : list string) : list string :=
  match xs with
  | [] => []
  | x :: xs' => x :: filter (fun y => y ≠ x) (distinct xs')
  end.

(** The number of entries of [cts] equal to [ct]. *)
Definition count_label (ct : string) (cts : list string) : nat :=
  length (filter (fun x => x = ct) cts).

(** The quota mapping held in [n_cells] after the capping loop. *)
Definition quotas (cts : list string) : list (string * nat) :=
  AtlasSubsampler.cap_counts (Counter cts).

(** The retained rows of column [k] of the full matrix as float32, and
    normalised: what one column of [submat] holds before the
    normalisation and when it is written to [matrix]. *)
Definition retained_column (dsl : loom_full) (k : nat) : list value :=
  map round32
    (mask_select (AtlasSubsampler.feature_mask (ra_GeneName dsl))
       (full_column dsl k)).

Definition subsampled_column (dsl : loom_full) (k : nat) : list value :=
  normalize_column (retained_column dsl k).

(** [sel] is a selection of [ni] columns of type [ct]: the first [ni]
    entries of a rearrangement of the type's column indices, put back in
    ascending order; it is then a subsequence of those indices. *)
Definition selection_of (cts : list string) (ct : string) (ni : nat)
    (sel : list nat) : Prop :=
  length sel = ni
  /\ StronglySorted lt sel
  /\ sel `sublist_of` nonzero_eq ct cts
  /\ exists p, p ≡ₚ nonzero_eq ct cts /\ sel = np_sort (take ni p).

(** The synthesized names of a block of [ni] cells of type [ct]. *)
Definition block_names (ct : string) (ni : nat) : list string :=
  map (fun j => ct +:+ "_" +:+ str (j + 1)) (seq 0 ni).

Section Selections.
Context {rng : Type}.
Variable shuffle : rng -> list nat -> list nat * rng.

(** The outcome of the shuffles is always a rearrangement. *)
Definition shuffle_permutes : Prop :=
  forall g l, (shuffle g l).1 ≡ₚ l.

(** The sorted column selection of each cell type of [q], in order,
    starting from random state [g], and the random state left. *)
Fixpoint selections (cts : list string) (q : list (string * nat)) (g : rng)
  : list (list nat) * rng :=
  match q with
  | [] => ([], g)
  | (ct, ni) :: q' =>
      let '(p, g') := shuffle g (nonzero_eq ct cts) in
      let '(sels, g'') := selections cts q' g' in
      (np_sort (take ni p) :: sels, g'')
  end.

(** The arrays the [with] block is expected to leave. *)
Definition assemble (dsl : loom_full) (g : rng) : AtlasSubsampler.assembled :=
  let cts := ca_cellType dsl in
  let q := quotas cts in
  {| AtlasSubsampler.n_cells_tot := length cts;
     AtlasSubsampler.features :=
       filter (fun fea => fea_bool fea = true) (ra_GeneName dsl);
     AtlasSubsampler.matrix :=
       concat (map (map (subsampled_column dsl)) (selections cts q g).1);
     AtlasSubsampler.meta := flat_map (fun '(ct, ni) => repeat ct ni) q;
     AtlasSubsampler.cnames :=
       flat_map (fun '(ct, ni) => block_names ct ni) q |}.
End Selections.

(** The record of [name] in the metadata file, empty when there is
    none. *)
Definition record_of (md : metadata_file) (name : string)
  : gmap string attr_value :=
  match md with
  | Records records =>
      match records !! name with
      | Some (Some record) => record
      | _ => ∅
      end
  | _ => ∅
  end.

(** The path of the file of the export named [filtname]. *)
Definition output_path (s : AtlasSubsampler.self) (filtname : string) : string :=
  AtlasSubsampler.get_output_filename s (AtlasSubsampler.metaname s filtname).

(** The file that the export loop writes for one entry of [self.filters],
    given the parsed metadata file [md] and the assembled arrays [a]. *)
Definition variant_file (s : AtlasSubsampler.self) (md : metadata_file)
    (a : AtlasSubsampler.assembled) (filtname : string)
    (fun_ : option (string -> bool)) : loom_out :=
  let attrs := record_of md (AtlasSubsampler.metaname s filtname) in
  let attrs :=
    <["Number of cells" := AInt (Z.of_nat (AtlasSubsampler.n_cells_tot a))]>
      attrs in
  let attrs :=
    match AtlasSubsampler.tissue s with
    | Some t => <["Tissue" := AStr t]> attrs
    | None => attrs
    end in
  match fun_ with
  | None =>
      {| layer := AtlasSubsampler.matrix a;
         GeneName := AtlasSubsampler.features a;
         CellName := AtlasSubsampler.cnames a;
         CellType := AtlasSubsampler.meta a;
         file_attrs := attrs |}
  | Some f =>
      let ind := map f (AtlasSubsampler.meta a) in
      {| layer := mask_select ind (AtlasSubsampler.matrix a);
         GeneName := AtlasSubsampler.features a;
         CellName := mask_select ind (AtlasSubsampler.cnames a);
         CellType := mask_select ind (AtlasSubsampler.meta a);
         file_attrs := attrs |}
  end.

(** What the export of one entry of [self.filters] needs to go through:
    a record that can be written to, and a matrix with a row, a column
    and finite entries only. *)
Definition writable (s : AtlasSubsampler.self) (md : metadata_file)
    (a : AtlasSubsampler.assembled)
    (e : string * option (string -> bool)) : Prop :=
  (exists records,
     md = Records records
     /\ records !! AtlasSubsampler.metaname s e.1 ≠ Some None)
  /\ AtlasSubsampler.features a ≠ []
  /\ layer (variant_file s md a e.1 e.2) ≠ []
  /\ Forall (Forall (fun v => is_finite v = true))
       (layer (variant_file s md a e.1 e.2)).

(** The world after one iteration of the export loop, and after the
    iterations for the entries [fl]. *)
Definition write_variant {rng} (s : AtlasSubsampler.self)
    (a : AtlasSubsampler.assembled) (w : AtlasSubsampler.world rng)
    (entry : string * option (string -> bool)) : AtlasSubsampler.world rng :=
  let fn := output_path s entry.1 in
  AtlasSubsampler.log (Create fn)
    (AtlasSubsampler.with_subsamples
       (<[fn := variant_file s (AtlasSubsampler.atlas_metadata w) a
                  entry.1 entry.2]> (AtlasSubsampler.subsamples w))
       (AtlasSubsampler.log LoadMetadata w)).

Definition write_variants {rng} (s : AtlasSubsampler.self)
    (a : AtlasSubsampler.assembled)
    (fl : list (string * option (string -> bool)))
    (w : AtlasSubsampler.world rng) : AtlasSubsampler.world rng :=
  fold_left (write_variant s a) fl w.

(** Every export of [s] has its file in the output directory. *)
Definition all_outputs_exist {rng} (s : AtlasSubsampler.self)
    (w : AtlasSubsampler.world rng) : Prop :=
  Forall (fun entry : string * option (string -> bool) =>
            is_Some (AtlasSubsampler.subsamples w !! output_path s entry.1))
    (AtlasSubsampler.filters s).

(** Whether a column label passes the predicate of an export. *)
Definition passes (fun_ : option (string -> bool)) (label : string) : bool :=
  match fun_ with
  | None => true
  | Some f => f label
  end.

(** What [loompy.create] and the metadata lookup ask of a run: a feature
    is retained; every export keeps a cell type; no cell of the full
    matrix normalises to a column with an infinity or a NaN; and the
    metadata file is a mapping in which the name of no export has a
    record that is not a mapping. *)
Definition exportable {rng} (s : AtlasSubsampler.self) (dsl : loom_full)
    (w : AtlasSubsampler.world rng) : Prop :=
  (exists fea, fea ∈ ra_GeneName dsl /\ fea_bool fea = true)
  /\ Forall (fun e : string * option (string -> bool) =>
               exists ct, ct ∈ ca_cellType dsl /\ passes e.2 ct = true)
       (AtlasSubsampler.filters s)
  /\ (forall k, k < length (ca_cellType dsl) ->
       Forall (fun v => is_finite v = true) (subsampled_column dsl k))
  /\ exists records,
       AtlasSubsampler.atlas_metadata w = Records records
       /\ Forall (fun e : string * option (string -> bool) =>
                    records !! AtlasSubsampler.metaname s e.1 ≠ Some None)
            (AtlasSubsampler.filters s).

(** [process_atlas] is not skipped, the full matrix it opens is there
    and has at least one cell, and the run is exportable. *)
Definition processes {rng} (nm : string) (ts : option string) (ov : bool)
    (dsl : loom_full) (w : AtlasSubsampler.world rng) : Prop :=
  (ov = true \/ ~ all_outputs_exist (AtlasSubsampler.init nm ts ov) w)
  /\ AtlasSubsampler.data_full w !! AtlasSubsampler.get_full_filename nm ts
     = Some dsl
  /\ ca_cellType dsl ≠ []
  /\ exportable (AtlasSubsampler.init nm ts ov) dsl w.

(** The columns of an output file: label, name and values of each. *)
Definition columns (out : loom_out) : list (string * (string * list value)) :=
  zip (CellType out) (zip (CellName out) (layer out)).

(** The datasets left by the [--dataset] restriction. *)
Definition selected (datasets : list (string * list (option string)))
    (dataset_arg : option (list string))
  : list (string * list (option string)) :=
  match dataset_arg with
  | Some (x :: xs) => filter (fun '(x', _) => x' ∈ x :: xs) datasets
  | _ => datasets
  end.

(** The (dataset, tissue) pairs in the order in which the main loops
    visit them. *)
Definition pairs (datasets : list (string * list (option string)))
  : list (string * option string) :=
  flat_map (fun '(dsname, tissues) => map (fun t => (dsname, t)) tissues)
    datasets.

(** ** A shuffle and a small atlas for concrete instances *)

(** Exchange of the entries at [i] and [j]. *)
Definition swap (i j : nat) (x : list nat) : list nat :=
  match x !! i, x !! j with
  | Some a, Some b => <[i := b]> (<[j := a]> x)
  | _, _ => x
  end.

(** A shuffle in the manner of numpy's: for [i] from the last position
    down to 1, the entry at [i] is exchanged with the entry at a drawn
    position [j <= i].  The draws are read off a tape, which is the random
    state. *)
Fixpoint fisher_yates (i : nat) (tape x : list nat) : list nat * list nat :=
  match i with
  | 0 => (x, tape)
  | S i' => fisher_yates i' (tl tape) (swap i (Nat.modulo (hd 0 tape) (S i)) x)
  end.

Definition tape_shuffle (tape x : list nat) : list nat * list nat :=
  fisher_yates (length x - 1) tape x.

Module Example.

Definition dsl : loom_full :=
  {| ra_GeneName := ["G1"; "ERCC-1"; "G2"; "_x"; "no_feature"; "G3"];
     ca_cellType :=
       (["A"; "B"; "fetal_q"; "A"] ++ repeat "B" 24 ++ ["fetal_q"; "A"])%list;
     layer_at := fun r k => inject_Z (Z.of_nat (r + 2 * k + 1)) |}.

(** One atlas with a full matrix, one without. *)
Definition w : AtlasSubsampler.world (list nat) :=
  {| AtlasSubsampler.data_full :=
       {[ "../data_full/Darmanis_2015/dataset.loom" := dsl ]};
     AtlasSubsampler.subsamples := ∅;
     AtlasSubsampler.atlas_metadata :=
       Records {[ "Darmanis_2015" := Some {[ "Species" := AStr "human" ]} ]};
     AtlasSubsampler.random_state := [3; 7; 1; 5; 0; 2; 9; 4];
     AtlasSubsampler.trace := [] |}.

Definition datasets : list (string * list (option string)) :=
  [ ("Broken_2000", [None]); ("Darmanis_2015", [None]) ].

(** A lung matrix with 5 cells of type A and 30 of type B. *)
Definition lung : loom_full :=
  {| ra_GeneName := ["Actb"; "ERCC-00002"; "Gapdh"];
     ca_cellType := (repeat "A" 5 ++ repeat "B" 30)%list;
     layer_at := fun r k => inject_Z (Z.of_nat (r * k + 1)) |}.

Definition w_lung : AtlasSubsampler.world (list nat) :=
  {| AtlasSubsampler.data_full :=
       {[ "../data_full/Atlas_2019/dataset_lung.loom" := lung ]};
     AtlasSubsampler.subsamples := ∅;
     AtlasSubsampler.atlas_metadata := Records ∅;
     AtlasSubsampler.random_state := [11; 4; 8];
     AtlasSubsampler.trace := [] |}.

End Example.

(** ** Vocabulary of the statements on discovery *)

(** Whether the character [c] occurs in [s]. *)
Definition has_char (c : ascii) (s : string) : bool :=
  str_contains (String c EmptyString) s.

(** What the inner loop of [discover_datasets] appends for a file name,
    if anything. *)
Definition classify (fn : string) : option (option string) :=
  if String.eqb fn "dataset.loom" then Some None
  else if String.prefix "dataset" fn && endswith ".loom" fn
       then Some (Some (tissue_of fn))
       else None.

(** The entry of the discovered mapping that a listed name gives rise
    to, if any. *)
Definition entry_datasets (e : string * dir_entry)
  : option (string * list (option string)) :=
  match e.2 with
  | NotADirectory => None
  | Directory fns =>
      match omap classify fns with
      | [] => None
      | dataset => Some (e.1, dataset)
      end
  end.

(** The name of the full matrix of a tissue inside the directory of its
    dataset, as [get_full_filename] forms it. *)
Definition dataset_file (t : option string) : string :=
  match t with
  | None => "dataset.loom"
  | Some T => "dataset_" +:+ T +:+ ".loom"
  end.

(** The exponent of the last place of the float32 nearest to [q]. *)
Definition ulp_exp (q : Q) : Z := Z.max (ilog2 q - 23) (-149).

(** The largest relative error of rounding to float32 in the range of
    the normal numbers, and half the smallest subnormal number: the most
    that rounding can lose below that range. *)
Definition u32 : Q := pow2 (-24).

Definition tiny : Q := pow2 (-150).

(** A float32 is a multiple of the smallest subnormal number. *)
Definition representable (q : Q) : Prop :=
  exists k : Z, (q == inject_Z k * pow2 (-149))%Q.

(** The relative tolerance of the normalisation of a column of [L]
    rows. *)
Definition tolerance (L : nat) : Q :=
  (inject_Z (Z.of_nat L + 4) * pow2 (-23))%Q.

Module ExampleDisk.

(** A listing of [../data_full/]. *)
Definition root : list (string * dir_entry) :=
  [ ("README.md", NotADirectory);
    ("Darmanis_2015", Directory ["dataset.loom"; "notes.txt"]);
    ("Empty_2001", Directory []);
    ("Atlas_2019",
     Directory ["dataset_lung.loom"; "dataset_bone_marrow.loom";
                "dataset_gut.v2.loom"; "dataset2.loom"]) ].

End ExampleDisk.

Module ExampleSmall.

(** A matrix in which no cell type has more than 20 cells. *)
Definition dsl : loom_full :=
  {| ra_GeneName := ["Actb"; "_qc"; "Gapdh"];
     ca_cellType := ["T"; "B"; "T"; "NK"; "B"; "T"];
     layer_at := fun r k => inject_Z (Z.of_nat (2 * r * k + 1)) |}.

Definition w : AtlasSubsampler.world (list nat) :=
  {| AtlasSubsampler.data_full :=
       {[ "../data_full/Small_2020/dataset_blood.loom" := dsl ]};
     AtlasSubsampler.subsamples := ∅;
     AtlasSubsampler.atlas_metadata := Records ∅;
     AtlasSubsampler.random_state := [5; 2; 6; 1];
     AtlasSubsampler.trace := [] |}.

(** The same disk with another random state. *)
Definition w_reseeded : AtlasSubsampler.world (list nat) :=
  {| AtlasSubsampler.data_full :=
       {[ "../data_full/Small_2020/dataset_blood.loom" := dsl ]};
     AtlasSubsampler.subsamples := ∅;
     AtlasSubsampler.atlas_metadata := Records ∅;
     AtlasSubsampler.random_state := [0; 9; 3];
     AtlasSubsampler.trace := [] |}.

End ExampleSmall.

Module ExampleDropout.

(** A matrix whose first cell has no count in any row, and an output
    directory that already holds the export of an earlier run. *)
Definition dsl : loom_full :=
  {| ra_GeneName := ["Actb"; "_qc"; "Gapdh"];
     ca_cellType := ["T"; "B"; "T"];
     layer_at := fun r k => inject_Z (Z.of_nat (r * k + k)) |}.

Definition stale : loom_out :=
  {| layer := [[Finite 400000; Finite 600000]];
     GeneName := ["Actb"; "Gapdh"];
     CellName := ["T_1"];
     CellType := ["T"];
     file_attrs := {[ "Number of cells" := AInt 1 ]} |}.

Definition w : AtlasSubsampler.world (list nat) :=
  {| AtlasSubsampler.data_full :=
       {[ "../data_full/Dropout_2021/dataset.loom" := dsl ]};
     AtlasSubsampler.subsamples :=
       {[ "../data/subsamples/Dropout_2021.loom" := stale ]};
     AtlasSubsampler.atlas_metadata := Records ∅;
     AtlasSubsampler.random_state := [2; 0; 1];
     AtlasSubsampler.trace := [] |}.

End ExampleDropout.

(** ** Insertion-ordered dicts *)

Section Dict.
Context {V : Type}.
Implicit Types (k : string) (v : V) (d : list (string * V)).

Lemma dict_get_set k k' v d :
  dict_get k (dict_set k' v d)
  = if decide (k' = k) then Some v else dict_get k d.
Proof.
  induction d as [|[k0 v0] d IH]; simpl.
  - destruct (String.eqb_spec k' k); case_decide; congruence.
  - destruct (String.eqb_spec k0 k') as [->|Hne]; simpl.
    + destruct (String.eqb_spec k' k); case_decide; congruence.
    + destruct (String.eqb_spec k0 k) as [->|Hne']; [|exact IH].
      case_decide; congruence.
Qed.

Lemma dict_get_None k d : k ∉ map fst d -> dict_get k d = None.
Proof.
  induction d as [|[k0 v0] d IH]; simpl; [done|].
  intros Hk. apply not_elem_of_cons in Hk as [Hne Hk].
  destruct (String.eqb_spec k0 k); [congruence | auto].
Qed.

Lemma dict_get_is_Some k d : k ∈ map fst d -> is_Some (dict_get k d).
Proof.
  induction d as [|[k0 v0] d IH]; simpl.
  - intros H. by apply elem_of_nil in H.
  - intros H. destruct (String.eqb_spec k0 k); [eauto|].
    apply elem_of_cons in H as [->|H]; [done | auto].
Qed.

Lemma dict_set_keys_old k v d :
  k ∈ map fst d -> map fst (dict_set k v d) = map fst d.
Proof.
  induction d as [|[k0 v0] d IH]; simpl.
  - intros H. by apply elem_of_nil in H.
  - intros H. destruct (String.eqb_spec k0 k) as [->|Hne]; simpl; [done|].
    apply elem_of_cons in H as [->|H]; [done|]. by rewrite IH.
Qed.

Lemma dict_set_keys_new k v d :
  k ∉ map fst d -> map fst (dict_set k v d) = (map fst d ++ [k])%list.
Proof.
  induction d as [|[k0 v0] d IH]; simpl; [done|].
  intros Hk. apply not_elem_of_cons in Hk as [Hne Hk].
  destruct (String.eqb_spec k0 k); [congruence|]. simpl. by rewrite IH.
Qed.

Lemma dict_set_fresh k v d :
  k ∉ map fst d -> dict_set k v d = (d ++ [(k, v)])%list.
Proof.
  induction d as [|[k0 v0] d IH]; simpl; [done|].
  intros Hk. apply not_elem_of_cons in Hk as [Hne Hk].
  destruct (String.eqb_spec k0 k); [congruence|]. by rewrite IH.
Qed.

(** Assigning to the key at the head of [d2] when it does not occur in
    [d1]. *)
Lemma dict_set_middle k v v' (d1 d2 : list (string * V)) :
  k ∉ map fst d1 ->
  dict_set k v (d1 ++ (k, v') :: d2) = (d1 ++ (k, v) :: d2)%list.
Proof.
  induction d1 as [|[k0 v0] d1 IH]; simpl.
  - intros _. by rewrite String.eqb_refl.
  - intros Hk. apply not_elem_of_cons in Hk as [Hne Hk].
    destruct (String.eqb_spec k0 k); [congruence|]. by rewrite IH.
Qed.

(** A dict with distinct keys is determined by its keys and lookups. *)
Lemma dict_eq_map d (f : string -> V) :
  NoDup (map fst d) ->
  (forall k, k ∈ map fst d -> dict_get k d = Some (f k)) ->
  d = map (fun k => (k, f k)) (map fst d).
Proof.
  induction d as [|[k0 v0] d IH]; simpl; [done|].
  intros Hnd Hget. apply NoDup_cons in Hnd as [Hk0 Hnd].
  f_equal.
  - specialize (Hget k0 (list_elem_of_here _ _)).
    rewrite String.eqb_refl in Hget. congruence.
  - apply IH; [done|]. intros k Hk.
    specialize (Hget k (list_elem_of_further _ _ _ Hk)).
    destruct (String.eqb_spec k0 k); [congruence | done].
Qed.
End Dict.

(** ** Counting cell types *)

Lemma distinct_elem_of (x : string) (xs : list string) :
  x ∈ distinct xs <-> x ∈ xs.
Proof.
  induction xs as [|y xs IH]; simpl; [done|].
  rewrite !elem_of_cons, list_elem_of_filter, IH.
  destruct (decide (x = y)); tauto.
Qed.

Lemma distinct_NoDup (xs : list string) : NoDup (distinct xs).
Proof.
  induction xs as [|y xs IH]; simpl; [constructor|].
  apply NoDup_cons. split.
  - rewrite list_elem_of_filter. intros [Hne _]. by apply Hne.
  - by apply NoDup_filter.
Qed.

Lemma distinct_snoc (xs : list string) (x : string) :
  distinct (xs ++ [x])
  = if decide (x ∈ xs) then distinct xs else (distinct xs ++ [x])%list.
Proof.
  induction xs as [|y xs IH]; simpl.
  - done.
  - rewrite IH. destruct (decide (x ∈ xs)) as [Hin|Hin].
    + rewrite decide_True by (by apply list_elem_of_further). done.
    + rewrite filter_app. simpl. destruct (decide (x = y)) as [->|Hne].
      * rewrite decide_True by apply list_elem_of_here.
        rewrite (filter_cons_False _ y) by (intros Hne; by apply Hne).
        by rewrite app_nil_r.
      * rewrite decide_False by (rewrite elem_of_cons; tauto).
        by rewrite (filter_cons_True _ x) by done.
Qed.

Lemma count_label_snoc (ct x : string) (xs : list string) :
  count_label ct (xs ++ [x])
  = if decide (x = ct) then S (count_label ct xs) else count_label ct xs.
Proof.
  unfold count_label. rewrite filter_app, length_app. simpl.
  case_decide.
  - rewrite filter_cons_True by done. simpl. lia.
  - rewrite filter_cons_False by done. simpl. lia.
Qed.

Lemma count_label_pos (ct : string) (xs : list string) :
  ct ∈ xs -> 0 < count_label ct xs.
Proof.
  unfold count_label. intros H.
  assert (Hin : ct ∈ filter (fun x => x = ct) xs)
    by (by apply list_elem_of_filter).
  destruct (filter (fun x => x = ct) xs); simpl; [|lia].
  by apply elem_of_nil in Hin.
Qed.

Lemma Counter_snoc (xs : list string) (x : string) :
  Counter (xs ++ [x])
  = dict_set x (S (default 0 (dict_get x (Counter xs)))) (Counter xs).
Proof. unfold Counter. by rewrite fold_left_app. Qed.

Lemma Counter_keys (xs : list string) : map fst (Counter xs) = distinct xs.
Proof.
  induction xs as [|x xs IH] using rev_ind; [done|].
  rewrite Counter_snoc, distinct_snoc. case_decide as Hin.
  - rewrite dict_set_keys_old; [done|]. by rewrite IH, distinct_elem_of.
  - rewrite dict_set_keys_new; [by rewrite IH|].
    by rewrite IH, distinct_elem_of.
Qed.

Lemma Counter_get (ct : string) (xs : list string) :
  dict_get ct (Counter xs)
  = if decide (ct ∈ xs) then Some (count_label ct xs) else None.
Proof.
  induction xs as [|x xs IH] using rev_ind.
  - done.
  - rewrite Counter_snoc, dict_get_set, count_label_snoc.
    destruct (decide (x = ct)) as [->|Hne].
    + rewrite decide_True by (rewrite elem_of_app, list_elem_of_singleton; auto).
      rewrite IH. case_decide as Hin; simpl; [done|].
      f_equal. f_equal. unfold count_label.
      destruct (filter (fun x => x = ct) xs) as [|y l] eqn:Hf; [done|].
      assert (Hy : y ∈ filter (fun x => x = ct) xs)
        by (rewrite Hf; apply list_elem_of_here).
      apply list_elem_of_filter in Hy as [-> Hy]. done.
    + rewrite IH. destruct (decide (ct ∈ xs)) as [Hin|Hin].
      * by rewrite decide_True by (rewrite elem_of_app; auto).
      * rewrite decide_False; [done|].
        rewrite elem_of_app, list_elem_of_singleton.
        intros [?|?]; [done | congruence].
Qed.

(** [Counter] lists each distinct label once, in order of first
    appearance, with its number of occurrences. *)
Lemma Counter_spec (xs : list string) :
  Counter xs = map (fun ct => (ct, count_label ct xs)) (distinct xs).
Proof.
  rewrite <- Counter_keys. apply dict_eq_map.
  - rewrite Counter_keys. apply distinct_NoDup.
  - intros k Hk. rewrite Counter_keys, distinct_elem_of in Hk.
    by rewrite Counter_get, decide_True.
Qed.

Lemma cap_counts_spec (d : list (string * nat)) :
  NoDup (map fst d) ->
  AtlasSubsampler.cap_counts d
  = map (fun '(ct, ni) => (ct, ni `min` AtlasSubsampler.n)) d.
Proof.
  unfold AtlasSubsampler.cap_counts. intros Hnd.
  enough (Hgen : forall done todo : list (string * nat),
    NoDup (map fst (done ++ todo)) ->
    fold_left
      (fun (d : list (string * nat)) '(ct, ni) =>
         if (AtlasSubsampler.n <? ni)%nat
         then dict_set ct AtlasSubsampler.n d else d)
      todo
      (map (fun '(ct, ni) => (ct, ni `min` AtlasSubsampler.n)) done ++ todo)%list
    = map (fun '(ct, ni) => (ct, ni `min` AtlasSubsampler.n)) (done ++ todo)).
  { apply (Hgen [] d Hnd). }
  intros done todo. revert done.
  induction todo as [|[ct ni] todo IH]; intros done Hnd'.
  - simpl. by rewrite !app_nil_r.
  - simpl fold_left.
    assert (Hfresh : ct ∉ map fst done).
    { rewrite map_app in Hnd'. apply NoDup_app in Hnd' as (_ & Hdisj & _).
      intros Hin. apply (Hdisj ct Hin). simpl. apply list_elem_of_here. }
    assert (Hstep :
      (if (AtlasSubsampler.n <? ni)%nat
       then dict_set ct AtlasSubsampler.n
              (map (fun '(ct, ni) => (ct, ni `min` AtlasSubsampler.n)) done
               ++ (ct, ni) :: todo)%list
       else (map (fun '(ct, ni) => (ct, ni `min` AtlasSubsampler.n)) done
               ++ (ct, ni) :: todo)%list)
      = (map (fun '(ct, ni) => (ct, ni `min` AtlasSubsampler.n))
           (done ++ [(ct, ni)]) ++ todo)%list).
    { rewrite map_app, <- app_assoc. simpl.
      destruct (Nat.ltb_spec AtlasSubsampler.n ni) as [Hlt|Hge].
      - rewrite dict_set_middle.
        + by rewrite Nat.min_r by lia.
        + rewrite map_map. rewrite map_ext with (g := fst); [done|].
          by intros [??].
      - by rewrite Nat.min_l by lia. }
    rewrite Hstep, IH.
    + by rewrite <- app_assoc.
    + by rewrite <- app_assoc.
Qed.

Lemma sum_values_alt (d : list (string * nat)) :
  sum_values d = sum_list (map snd d).
Proof.
  unfold sum_values.
  enough (H : forall (l : list nat) a, fold_left Nat.add l a = a + sum_list l)
    by (by rewrite H).
  induction l as [|x l IH]; intros a; simpl; [lia|]. rewrite IH. lia.
Qed.

(** ** Masks, slices and fixed-width strings *)

Section Arrays.
Context {A B : Type}.

Lemma mask_select_map_pred (f : A -> bool) (l : list A) :
  mask_select (map f l) l = filter (fun x => f x = true) l.
Proof.
  induction l as [|x l IH]; simpl; [done|].
  destruct (f x) eqn:Hfx.
  - by rewrite filter_cons_True, IH by done.
  - rewrite filter_cons_False, IH; [done|]. by rewrite Hfx.
Qed.

Lemma mask_select_sublist (mask : list bool) (l : list A) :
  mask_select mask l `sublist_of` l.
Proof.
  revert l. induction mask as [|b mask IH]; intros [|x l]; simpl;
    try apply sublist_nil_l.
  destruct b; [by apply sublist_skip | by apply sublist_cons].
Qed.

Lemma mask_select_zip (mask : list bool) (l : list A) (k : list B) :
  mask_select mask (zip l k) = zip (mask_select mask l) (mask_select mask k).
Proof.
  revert l k. induction mask as [|b mask IH]; intros [|x l] [|y k]; simpl;
    try done.
  - by destruct b, (mask_select mask l).
  - destruct b; simpl; by rewrite IH.
Qed.

Lemma mask_select_fmap (g : A -> B) (mask : list bool) (l : list A) :
  mask_select mask (map g l) = map g (mask_select mask l).
Proof.
  revert l. induction mask as [|b mask IH]; intros [|x l]; simpl; try done.
  destruct b; simpl; by rewrite IH.
Qed.

(** Selecting by the mask computed from the labels keeps the columns
    whose label passes. *)
Lemma mask_select_by_label (f : A -> bool) (l : list A) (k : list B) :
  mask_select (map f l) (zip l k) = filter (fun c => f c.1 = true) (zip l k).
Proof.
  revert k. induction l as [|x l IH]; intros [|y k]; simpl; try done.
  destruct (f x) eqn:Hfx.
  - by rewrite filter_cons_True, IH by done.
  - rewrite filter_cons_False, IH; [done|]. simpl. by rewrite Hfx.
Qed.

Lemma slice_assign_fill (done blk rest : list A) (i j : nat) :
  length done = i -> i + length blk = j -> length blk <= length rest ->
  slice_assign i j blk (done ++ rest)
  = (done ++ blk ++ drop (length blk) rest)%list.
Proof.
  intros <- <- Hlen. unfold slice_assign.
  rewrite take_app_length, drop_app_add'; done.
Qed.
End Arrays.

Lemma mask_select_length {A B} (mask : list bool) (l : list A) (k : list B) :
  length l = length k ->
  length (mask_select mask l) = length (mask_select mask k).
Proof.
  revert l k. induction mask as [|b mask IH]; intros [|x l] [|y k] Hlen;
    simpl in *; try done.
  destruct b; simpl; rewrite (IH l k); done || lia.
Qed.

Lemma mask_select_length_pred {A B} (f : A -> bool) (l : list A) (l' : list B) :
  length l' = length l ->
  length (mask_select (map f l) l') = length (filter (fun x => f x = true) l).
Proof.
  revert l'. induction l as [|x l IH]; intros [|y l'] Hlen; simpl in *;
    try done.
  destruct (f x) eqn:Hfx.
  - rewrite filter_cons_True by done. simpl. rewrite IH; [done | lia].
  - rewrite filter_cons_False by (by rewrite Hfx). rewrite IH; [done | lia].
Qed.

Lemma string_length_app (s1 s2 : string) :
  String.length (s1 +:+ s2) = String.length s1 + String.length s2.
Proof. induction s1 as [|c s1 IH]; simpl; [done | by rewrite IH]. Qed.

Lemma truncate_fits (w : nat) (s : string) :
  String.length s <= w -> truncate w s = s.
Proof.
  revert w. induction s as [|c s IH]; intros [|w] Hw; simpl in *; try done.
  - lia.
  - rewrite IH; [done | lia].
Qed.

(** Ranks up to the cap are written with at most two digits. *)
Lemma str_rank_length (j : nat) :
  j < AtlasSubsampler.n -> String.length (str (j + 1)) <= 2.
Proof.
  unfold AtlasSubsampler.n. intros Hj.
  do 20 (destruct j as [|j]; [vm_compute; lia|]). lia.
Qed.

Lemma py_max_None (xs : list nat) : py_max xs = None <-> xs = [].
Proof. by destruct xs. Qed.

Lemma py_max_bound (xs : list nat) (m x : nat) :
  py_max xs = Some m -> x ∈ xs -> x <= m.
Proof.
  assert (Hfold : forall (l : list nat) a,
    a <= fold_left Nat.max l a /\ forall y, y ∈ l -> y <= fold_left Nat.max l a).
  { induction l as [|z l IH]; intros a; simpl.
    - split; [lia|]. intros y Hy. by apply elem_of_nil in Hy.
    - destruct (IH (a `max` z)) as [H1 H2]. split; [lia|].
      intros y Hy. apply elem_of_cons in Hy as [->|Hy]; [lia | auto]. }
  destruct xs as [|a l]; simpl; [done|]. intros [= <-] Hx.
  destruct (Hfold l a) as [H1 H2].
  apply elem_of_cons in Hx as [->|Hx]; auto.
Qed.

(** ** Rounding to float32 *)

Lemma pow2_pos (e : Z) : (0 < pow2 e)%Q.
Proof. apply Qpower_0_lt. reflexivity. Qed.

Lemma pow2_add (a b : Z) : (pow2 (a + b) == pow2 a * pow2 b)%Q.
Proof. apply Qpower_plus. discriminate. Qed.

Lemma pow2_le (a b : Z) : (a <= b)%Z -> (pow2 a <= pow2 b)%Q.
Proof. intros H. apply Qpower_le_compat_l; [exact H | discriminate]. Qed.

Lemma pow2_lt_inv (a b : Z) : (pow2 a < pow2 b)%Q -> (a < b)%Z.
Proof. intros H. eapply Qpower_lt_compat_l_inv; [exact H | reflexivity]. Qed.

Lemma pow2_succ (a : Z) : (pow2 (a + 1) == 2 * pow2 a)%Q.
Proof. rewrite pow2_add. change (pow2 1) with 2%Q. ring. Qed.

Lemma pow2_inject (n : Z) : (0 <= n)%Z -> (pow2 n == inject_Z (2 ^ n))%Q.
Proof. intros H. symmetry. apply (Zpower_Qpower 2 n H). Qed.

Lemma Qabs_num_den (q : Q) :
  (Qabs q * inject_Z (Zpos (Qden q)) == inject_Z (Z.abs (Qnum q)))%Q.
Proof.
  destruct q as [a b]. unfold Qabs, Qeq, Qmult, inject_Z. simpl. lia.
Qed.

Lemma log2_bounds (n : Z) :
  (0 < n)%Z ->
  (pow2 (Z.log2 n) <= inject_Z n)%Q /\ (inject_Z n < pow2 (Z.log2 n + 1))%Q.
Proof.
  intros Hn. destruct (Z.log2_spec n Hn) as [Hlo Hhi].
  pose proof (Z.log2_nonneg n) as Hnn.
  split.
  - rewrite pow2_inject by lia. unfold Qle, inject_Z. simpl. lia.
  - rewrite pow2_inject by lia. unfold Qlt, inject_Z. simpl.
    replace (Z.log2 n + 1)%Z with (Z.succ (Z.log2 n)) by lia. lia.
Qed.

(** [ilog2 q] is the exponent of the binade of [q]. *)
Lemma ilog2_spec (q : Q) :
  ~ (q == 0)%Q ->
  (pow2 (ilog2 q) <= Qabs q)%Q /\ (Qabs q < pow2 (ilog2 q + 1))%Q.
Proof.
  intros Hq. unfold ilog2.
  set (A := Z.abs (Qnum q)). set (B := Zpos (Qden q)).
  assert (HA : (0 < A)%Z).
  { unfold A. destruct q as [a b]. unfold Qeq in Hq. simpl in *. lia. }
  destruct (log2_bounds A HA) as [HA1 HA2].
  destruct (log2_bounds B eq_refl) as [HB1 HB2].
  pose proof (Qabs_num_den q) as Hx. fold A B in Hx.
  set (la := Z.log2 A) in *. set (lb := Z.log2 B) in *.
  pose proof (pow2_pos lb) as Hpb. pose proof (pow2_pos la) as Hpa.
  pose proof (pow2_pos (la - lb)) as Hpe.
  assert (He : (pow2 (la - lb) * pow2 lb == pow2 la)%Q).
  { rewrite <- pow2_add. by replace (la - lb + lb)%Z with la by lia. }
  rewrite pow2_succ in HA2, HB2.
  assert (HBpos : (0 < inject_Z B)%Q) by (unfold Qlt, inject_Z, B; simpl; lia).
  pose proof (Qabs_nonneg q) as Hnn.
  destruct (Qle_bool (pow2 (la - lb)) (Qabs q)) eqn:Ht.
  - apply Qle_bool_iff in Ht. split; [exact Ht|].
    rewrite pow2_succ.
    apply Qnot_le_lt. intros Hc.
    assert ((2 * pow2 (la - lb) * pow2 lb <= Qabs q * inject_Z B)%Q).
    { apply Qle_trans with (Qabs q * pow2 lb)%Q.
      - apply Qmult_le_compat_r; [exact Hc | by apply Qlt_le_weak].
      - rewrite !(Qmult_comm (Qabs q)).
        apply Qmult_le_compat_r; [exact HB1 | exact Hnn]. }
    lra.
  - assert (Hlt : (Qabs q < pow2 (la - lb))%Q).
    { apply Qnot_le_lt. intros Hc. apply Qle_bool_iff in Hc. congruence. }
    replace (la - lb - 1 + 1)%Z with (la - lb)%Z by lia.
    split; [|exact Hlt].
    assert (He' : (pow2 (la - lb) == 2 * pow2 (la - lb - 1))%Q).
    { rewrite <- pow2_succ. by replace (la - lb - 1 + 1)%Z with (la - lb)%Z by lia. }
    apply Qnot_lt_le. intros Hc.
    assert ((Qabs q * inject_Z B < pow2 (la - lb - 1) * (2 * pow2 lb))%Q).
    { apply Qle_lt_trans with (pow2 (la - lb - 1) * inject_Z B)%Q.
      - apply Qmult_le_compat_r; [by apply Qlt_le_weak | by apply Qlt_le_weak].
      - rewrite !(Qmult_comm (pow2 (la - lb - 1))).
        apply Qmult_lt_compat_r; [apply pow2_pos | exact HB2]. }
    assert ((pow2 (la - lb - 1) * (2 * pow2 lb) == pow2 la)%Q)
      by (rewrite <- He, He'; ring).
    lra.
Qed.

Lemma round_half_even_comp (x y : Q) :
  (x == y)%Q -> round_half_even x = round_half_even y.
Proof.
  intros E. unfold round_half_even. rewrite (Qfloor_comp _ _ E).
  assert (E' : (x - inject_Z (Qfloor y) ?= 1 # 2)%Q
               = (y - inject_Z (Qfloor y) ?= 1 # 2)%Q).
  { apply Qcompare_comp; [by rewrite E | reflexivity]. }
  by rewrite E'.
Qed.

Lemma round_half_even_spec (x : Q) :
  (x - (1 # 2) <= inject_Z (round_half_even x))%Q
  /\ (inject_Z (round_half_even x) <= x + (1 # 2))%Q.
Proof.
  unfold round_half_even.
  pose proof (Qfloor_le x) as Hlo. pose proof (Qlt_floor x) as Hhi.
  rewrite inject_Z_plus in Hhi. change (inject_Z 1) with 1%Q in Hhi.
  set (n := Qfloor x) in *.
  destruct (x - inject_Z n ?= 1 # 2)%Q eqn:Hc.
  - apply Qeq_alt in Hc. destruct (Z.even n);
      rewrite ?inject_Z_plus; change (inject_Z 1) with 1%Q; split; lra.
  - apply Qlt_alt in Hc. split; lra.
  - apply Qgt_alt in Hc. rewrite inject_Z_plus.
    change (inject_Z 1) with 1%Q. split; lra.
Qed.

Lemma round_half_even_Z (k : Z) : round_half_even (inject_Z k) = k.
Proof.
  unfold round_half_even. rewrite Qfloor_Z.
  assert (E : (inject_Z k - inject_Z k ?= 1 # 2)%Q = Lt).
  { apply (proj1 (Qlt_alt _ _)). lra. }
  by rewrite E.
Qed.

Lemma round_half_even_nonneg (x : Q) :
  (0 <= x)%Q -> (0 <= round_half_even x)%Z.
Proof.
  intros Hx. unfold round_half_even.
  assert (Hn : (0 <= Qfloor x)%Z).
  { change 0%Z with (Qfloor 0). by apply Qfloor_resp_le. }
  destruct (x - inject_Z (Qfloor x) ?= 1 # 2)%Q; try destruct (Z.even _); lia.
Qed.

(** What a finite result of [round32] is: a multiple of its unit in the
    last place, within half a unit of [q], and below [2^128]. *)
Lemma round32_Finite (q r : Q) :
  round32 q = Finite r ->
  (r == inject_Z (round_half_even (q / pow2 (ulp_exp q))) * pow2 (ulp_exp q))%Q
  /\ (q - pow2 (ulp_exp q) / 2 <= r)%Q
  /\ (r <= q + pow2 (ulp_exp q) / 2)%Q
  /\ (Qabs r < pow2 128)%Q.
Proof.
  unfold round32. fold (ulp_exp q). set (e := ulp_exp q).
  set (m := round_half_even (q / pow2 e)).
  destruct (Qle_bool (pow2 128) (Qabs (inject_Z m * pow2 e))) eqn:Ht; [done|].
  intros [= <-]. pose proof (pow2_pos e) as He.
  destruct (round_half_even_spec (q / pow2 e)) as [Hlo Hhi]. fold m in Hlo, Hhi.
  split; [apply Qred_correct|].
  rewrite !Qred_correct. split; [|split].
  - apply Qle_trans with ((q / pow2 e - (1 # 2)) * pow2 e)%Q.
    + apply Qle_lteq. right. field. lra.
    + apply Qmult_le_compat_r; [exact Hlo | lra].
  - apply Qle_trans with ((q / pow2 e + (1 # 2)) * pow2 e)%Q.
    + apply Qmult_le_compat_r; [exact Hhi | lra].
    + apply Qle_lteq. right. field. lra.
  - apply Qnot_le_lt. intros Hc. apply Qle_bool_iff in Hc. congruence.
Qed.

Lemma round32_zero (q r : Q) :
  (q == 0)%Q -> round32 q = Finite r -> (r == 0)%Q.
Proof.
  intros Hq. unfold round32.
  assert (E : (q / pow2 (Z.max (ilog2 q - 23) (-149)) == 0)%Q).
  { transitivity (0 / pow2 (Z.max (ilog2 q - 23) (-149)))%Q.
    - apply Qdiv_comp; [exact Hq | reflexivity].
    - apply Qmult_0_l. }
  rewrite (round_half_even_comp _ 0%Q E).
  change (round_half_even 0) with 0%Z.
  destruct (Qle_bool _ _); [done|]. intros [= <-].
  rewrite Qred_correct. ring.
Qed.

Lemma ulp_exp_normal (q : Q) :
  ~ (q == 0)%Q ->
  ulp_exp q = (ilog2 q - 23)%Z ->
  (pow2 (ulp_exp q) / 2 <= u32 * Qabs q)%Q.
Proof.
  intros Hq He. rewrite He. destruct (ilog2_spec q Hq) as [Hlo _].
  assert (E : (pow2 (ilog2 q - 23) == 2 * (pow2 (-24) * pow2 (ilog2 q)))%Q).
  { rewrite <- pow2_add, <- pow2_succ. f_equiv. lia. }
  rewrite E. unfold u32. pose proof (pow2_pos (-24)) as Hu.
  apply Qle_trans with (pow2 (-24) * pow2 (ilog2 q))%Q.
  - apply Qle_lteq. right. field.
  - rewrite !(Qmult_comm (pow2 (-24))).
    apply Qmult_le_compat_r; [exact Hlo | lra].
Qed.

(** In the range of the normal numbers the relative error of rounding is
    at most [2^-24]. *)
Lemma round32_normal (q r : Q) :
  round32 q = Finite r ->
  (pow2 (-126) <= Qabs q)%Q ->
  (Qabs (r - q) <= u32 * Qabs q)%Q.
Proof.
  intros Hr Hq. destruct (round32_Finite q r Hr) as (_ & Hlo & Hhi & _).
  assert (Hq0 : ~ (q == 0)%Q).
  { intros E. rewrite E in Hq. pose proof (pow2_pos (-126)).
    change (Qabs 0) with 0%Q in Hq. lra. }
  destruct (ilog2_spec q Hq0) as [_ Hup].
  assert (He : ulp_exp q = (ilog2 q - 23)%Z).
  { unfold ulp_exp. apply Z.max_l.
    assert ((-126 < ilog2 q + 1)%Z); [|lia].
    apply pow2_lt_inv. lra. }
  pose proof (ulp_exp_normal q Hq0 He). apply Qabs_Qle_condition. split; lra.
Qed.

(** Everywhere, the error is at most the larger of the relative error
    [2^-24] and half the smallest subnormal number. *)
Lemma round32_error (q r : Q) :
  round32 q = Finite r ->
  (Qabs (r - q) <= u32 * Qabs q + pow2 (-150))%Q.
Proof.
  intros Hr. destruct (round32_Finite q r Hr) as (_ & Hlo & Hhi & _).
  pose proof (Qabs_nonneg q) as Hnn. pose proof (pow2_pos (-150)) as H150.
  assert (Hu : (0 < u32)%Q) by apply pow2_pos.
  assert (Hm : (0 <= u32 * Qabs q)%Q) by (apply Qmult_le_0_compat; lra).
  destruct (Z.max_spec (ilog2 q - 23) (-149)) as [[Hlt He]|[Hge He]];
    fold (ulp_exp q) in He.
  - rewrite He in Hlo, Hhi.
    assert (E : (pow2 (-149) / 2 == pow2 (-150))%Q) by reflexivity.
    apply Qabs_Qle_condition. split; lra.
  - destruct (Qeq_dec q 0) as [Hq0|Hq0].
    + pose proof (round32_zero q r Hq0 Hr) as Hr0.
      apply Qabs_Qle_condition. split; lra.
    + pose proof (ulp_exp_normal q Hq0 He).
      apply Qabs_Qle_condition. split; lra.
Qed.

Lemma round32_representable (q r : Q) :
  round32 q = Finite r -> representable r.
Proof.
  intros Hr. destruct (round32_Finite q r Hr) as (Hm & _).
  assert (He : (-149 <= ulp_exp q)%Z) by (unfold ulp_exp; lia).
  exists (round_half_even (q / pow2 (ulp_exp q)) * 2 ^ (ulp_exp q + 149))%Z.
  rewrite Hm, inject_Z_mult, <- pow2_inject by lia.
  rewrite <- Qmult_assoc, <- pow2_add. do 2 f_equiv. lia.
Qed.

Lemma representable_plus (a b : Q) :
  representable a -> representable b -> representable (a + b).
Proof.
  intros [k Hk] [l Hl]. exists (k + l)%Z.
  rewrite Hk, Hl, inject_Z_plus. ring.
Qed.

(** Rounding a multiple of the smallest subnormal number has relative
    error at most [2^-24], also below the normal range: there it is
    exact.  This is the case of a sum of two float32. *)
Lemma round32_representable_error (q r : Q) :
  representable q ->
  round32 q = Finite r ->
  (Qabs (r - q) <= u32 * Qabs q)%Q.
Proof.
  intros [k Hk] Hr.
  destruct (round32_Finite q r Hr) as (Hr' & Hlo & Hhi & _).
  pose proof (Qabs_nonneg q) as Hnn.
  assert (Hu : (0 < u32)%Q) by apply pow2_pos.
  assert (Hm : (0 <= u32 * Qabs q)%Q) by (apply Qmult_le_0_compat; lra).
  destruct (Z.max_spec (ilog2 q - 23) (-149)) as [[Hlt He]|[Hge He]];
    fold (ulp_exp q) in He.
  - rewrite He in Hr'.
    rewrite (round_half_even_comp _ (inject_Z k)) in Hr'.
    2:{ rewrite Hk. field. pose proof (pow2_pos (-149)). lra. }
    rewrite round_half_even_Z, <- Hk in Hr'.
    apply Qabs_Qle_condition. split; lra.
  - destruct (Qeq_dec q 0) as [Hq0|Hq0].
    + pose proof (round32_zero q r Hq0 Hr) as Hr0.
      apply Qabs_Qle_condition. split; lra.
    + pose proof (ulp_exp_normal q Hq0 He).
      apply Qabs_Qle_condition. split; lra.
Qed.

Lemma round32_nonneg (q r : Q) :
  (0 <= q)%Q -> round32 q = Finite r -> (0 <= r)%Q.
Proof.
  intros Hq. unfold round32. destruct (Qle_bool _ _); [done|].
  intros [= <-]. rewrite Qred_correct.
  pose proof (pow2_pos (ulp_exp q)) as He. fold (ulp_exp q).
  apply Qmult_le_0_compat; [|lra].
  change 0%Q with (inject_Z 0). rewrite <- Zle_Qle.
  apply round_half_even_nonneg. apply Qle_shift_div_l; lra.
Qed.

(** ** Accuracy of the normalisation *)

Lemma column_sum_nonneg (xs : list Q) :
  Forall (fun x => (0 <= x)%Q) xs -> (0 <= column_sum xs)%Q.
Proof.
  unfold column_sum. induction 1 as [|x xs Hx _ IH]; cbn [fold_right]; lra.
Qed.

Lemma add32_Finite (a b r : Q) :
  representable a -> representable b ->
  add32 (Finite a) (Finite b) = Finite r ->
  (Qabs (r - (a + b)) <= u32 * Qabs (a + b))%Q
  /\ representable r
  /\ (Qabs r < pow2 128)%Q.
Proof.
  intros Ha Hb Hr. simpl in Hr. split; [|split].
  - apply round32_representable_error; [by apply representable_plus | done].
  - by eapply round32_representable.
  - by destruct (round32_Finite _ _ Hr) as (_ & _ & _ & ?).
Qed.

Lemma add32_not_finite (x y : value) :
  is_finite x = false -> is_finite (add32 x y) = false.
Proof. destruct x, y; simpl; try done. by destruct (Bool.eqb _ _). Qed.

Lemma sum_not_finite (col : list value) (acc : value) :
  is_finite acc = false -> is_finite (fold_left add32 col acc) = false.
Proof.
  revert acc. induction col as [|x col IH]; intros acc Hacc; simpl; [done|].
  apply IH. by apply add32_not_finite.
Qed.

Lemma u32_bounds : (0 < u32)%Q /\ (u32 <= 1 # 16777216)%Q.
Proof. split; [apply pow2_pos | by vm_compute]. Qed.

(** The float32 sum of non-negative float32, added in order: each
    addition has relative error at most [2^-24]. *)
Lemma sum32_accuracy (xs : list Q) (acc s : Q) :
  Forall (fun x => (0 <= x)%Q) xs ->
  Forall representable xs ->
  (0 <= acc)%Q -> representable acc -> (Qabs acc < pow2 128)%Q ->
  fold_left add32 (map Finite xs) (Finite acc) = Finite s ->
  (inject_Z (Z.of_nat (length xs)) * u32 <= 1)%Q ->
  ((1 - inject_Z (Z.of_nat (length xs)) * u32) * (acc + column_sum xs) <= s)%Q
  /\ (s * (1 - inject_Z (Z.of_nat (length xs)) * u32) <= acc + column_sum xs)%Q
  /\ (0 <= s)%Q
  /\ (Qabs s < pow2 128)%Q.
Proof.
  intros Hnn Hrep. revert acc.
  induction Hnn as [|x xs Hx Hnn IH]; intros acc Hacc Hracc Hbacc Hs HL.
  - cbn [map fold_left length column_sum fold_right] in *.
    injection Hs as <-. change (inject_Z (Z.of_nat 0)) with 0%Q.
    repeat split; try done; lra.
  - apply Forall_cons in Hrep as [Hrx Hrep].
    cbn [map fold_left] in Hs.
    destruct (add32 (Finite acc) (Finite x)) as [a1| |] eqn:Ha1.
    2,3: apply (f_equal is_finite) in Hs; by rewrite sum_not_finite in Hs.
    destruct (add32_Finite _ _ _ Hracc Hrx Ha1) as (Herr & Hra1 & Hba1).
    rewrite (Qabs_pos (acc + x)) in Herr by lra.
    apply Qabs_Qle_condition in Herr as [Herr1 Herr2].
    destruct u32_bounds as [Hu0 Hu1].
    assert (Ha1nn : (0 <= a1)%Q).
    { assert ((0 <= u32 * (acc + x))%Q) by (apply Qmult_le_0_compat; lra).
      assert ((u32 * (acc + x) <= acc + x)%Q); [|lra].
      rewrite <- (Qmult_1_l (acc + x)) at 2.
      apply Qmult_le_compat_r; lra. }
    cbn [length] in HL |- *. rewrite Nat2Z.inj_succ, <- Z.add_1_r, inject_Z_plus in HL |- *.
    change (inject_Z 1) with 1%Q in *.
    set (n' := inject_Z (Z.of_nat (length xs))) in *.
    assert (Hn' : (0 <= n')%Q).
    { unfold n'. change 0%Q with (inject_Z 0). rewrite <- Zle_Qle. lia. }
    destruct (IH Hrep a1 Ha1nn Hra1 Hba1 Hs) as (IH1 & IH2 & Hsnn & Hbs).
    { lra. }
    pose proof (column_sum_nonneg xs Hnn) as Ht.
    cbn [column_sum fold_right]. fold (column_sum xs).
    set (t := column_sum xs) in *.
    assert (H1 : (0 <= (1 - n' * u32) * (a1 - (1 - u32) * (acc + x)))%Q)
      by (apply Qmult_le_0_compat; lra).
    assert (H2 : (0 <= u32 * (acc + x) * (n' * u32))%Q)
      by (repeat apply Qmult_le_0_compat; lra).
    assert (H3 : (0 <= u32 * t)%Q) by (apply Qmult_le_0_compat; lra).
    assert (H4 : (0 <= (1 - u32) * (a1 + t - s * (1 - n' * u32)))%Q)
      by (apply Qmult_le_0_compat; lra).
    assert (H5 : (0 <= (1 - u32) * ((1 + u32) * (acc + x) - a1))%Q)
      by (apply Qmult_le_0_compat; lra).
    assert (H6 : (0 <= u32 * u32 * (acc + x))%Q)
      by (repeat apply Qmult_le_0_compat; lra).
    assert (H7 : (0 <= s * u32 * (n' * u32))%Q)
      by (repeat apply Qmult_le_0_compat; lra).
    repeat split; [| |done|done]; lra.
Qed.

Lemma div32_million (s f : Q) :
  (0 < s)%Q -> (Qabs s < pow2 128)%Q ->
  div32 (Finite million) (Finite s) = Finite f ->
  ((1 - u32) * million <= f * s)%Q
  /\ (f * s <= (1 + u32) * million)%Q
  /\ (0 <= f)%Q.
Proof.
  intros Hs Hb. cbn [div32].
  destruct (Qeq_bool s 0) eqn:Hz.
  { apply Qeq_bool_iff in Hz. lra. }
  intros Hf. rewrite Qabs_pos in Hb by lra.
  assert (Hq : (0 < million / s)%Q).
  { apply Qlt_shift_div_l; [exact Hs|]. unfold million. lra. }
  assert (Hn : (pow2 (-126) <= Qabs (million / s))%Q).
  { rewrite Qabs_pos by lra. apply Qle_shift_div_l; [exact Hs|].
    assert (E : (pow2 (-126) * pow2 128 == 4)%Q) by reflexivity.
    pose proof (pow2_pos (-126)) as Hp.
    assert ((pow2 (-126) * s <= pow2 (-126) * pow2 128)%Q).
    { rewrite !(Qmult_comm (pow2 (-126))). apply Qmult_le_compat_r; lra. }
    unfold million. lra. }
  pose proof (round32_normal _ _ Hf Hn) as Herr.
  rewrite (Qabs_pos (million / s)) in Herr by lra.
  apply Qabs_Qle_condition in Herr as [Hlo Hhi].
  destruct u32_bounds as [Hu0 Hu1].
  assert (E : (million / s * s == million)%Q) by (field; lra).
  set (q := (million / s)%Q) in *.
  assert (H1 : (0 <= s * (f - q + u32 * q))%Q)
    by (apply Qmult_le_0_compat; lra).
  assert (H2 : (0 <= s * (u32 * q - (f - q)))%Q)
    by (apply Qmult_le_0_compat; lra).
  assert (H3 : (0 <= u32 * q)%Q) by (apply Qmult_le_0_compat; lra).
  assert (E' : (u32 * q * s == u32 * million)%Q) by (rewrite <- E; ring).
  repeat split; try lra.
  assert ((u32 * q <= q)%Q); [|lra].
  rewrite <- (Qmult_1_l q) at 2. apply Qmult_le_compat_r; lra.
Qed.

Lemma mul32_Finite (x f y : Q) :
  (0 <= x)%Q -> (0 <= f)%Q ->
  mul32 (Finite x) (Finite f) = Finite y ->
  ((1 - u32) * (x * f) - tiny <= y)%Q
  /\ (y <= (1 + u32) * (x * f) + tiny)%Q.
Proof.
  intros Hx Hf Hy. cbn [mul32] in Hy.
  pose proof (round32_error _ _ Hy) as Herr.
  assert (Hxf : (0 <= x * f)%Q) by (by apply Qmult_le_0_compat).
  rewrite (Qabs_pos (x * f)) in Herr by done.
  apply Qabs_Qle_condition in Herr as [Hlo Hhi]. unfold tiny. split; lra.
Qed.


Lemma tolerance_alt (L : nat) :
  (tolerance L == 2 * (inject_Z (Z.of_nat L) + 4) * u32)%Q.
Proof.
  unfold tolerance, u32. rewrite inject_Z_plus.
  assert (E : (pow2 (-23) == 2 * pow2 (-24))%Q) by reflexivity.
  rewrite E. change (inject_Z 4) with 4%Q. ring.
Qed.

(** One entry: the float32 quotient and product against the exact
    [1e6 * x / S]. *)
Lemma entry_accuracy (L : nat) (S s f x y : Q) :
  (Z.of_nat L <= 4194304)%Z ->
  (0 < S)%Q ->
  ((1 - inject_Z (Z.of_nat L) * u32) * S <= s)%Q ->
  (s * (1 - inject_Z (Z.of_nat L) * u32) <= S)%Q ->
  ((1 - u32) * million <= f * s)%Q ->
  (f * s <= (1 + u32) * million)%Q ->
  (0 <= f)%Q -> (0 <= x)%Q ->
  ((1 - u32) * (x * f) - tiny <= y)%Q ->
  (y <= (1 + u32) * (x * f) + tiny)%Q ->
  (Qabs (y - million * x / S) <= tolerance L * (million * x / S) + tiny)%Q.
Proof.
  intros HL HS A1 A2 B1 B2 Hf Hx C1 C2.
  destruct u32_bounds as [Hu0 Hu1].
  rewrite tolerance_alt.
  set (n := inject_Z (Z.of_nat L)) in *.
  assert (Hn0 : (0 <= n)%Q).
  { unfold n. change 0%Q with (inject_Z 0). rewrite <- Zle_Qle. lia. }
  assert (Hn1 : (n <= 4194304)%Q).
  { unfold n. change 4194304%Q with (inject_Z 4194304).
    rewrite <- Zle_Qle. lia. }
  assert (Hw : (n * u32 <= 1 # 4)%Q).
  { apply Qle_trans with (4194304 * u32)%Q.
    - apply Qmult_le_compat_r; lra.
    - lra. }
  assert (Hw0 : (0 <= n * u32)%Q) by (apply Qmult_le_0_compat; lra).
  set (c := (1 - n * u32)%Q) in *.
  assert (Hc : (3 # 4 <= c)%Q) by (unfold c; lra).
  assert (Hz : (million * x / S * S == million * x)%Q) by (field; lra).
  assert (Hz0 : (0 <= million * x / S)%Q).
  { apply Qle_shift_div_l; [exact HS|]. unfold million.
    assert ((0 <= 1000000 * x)%Q) by (apply Qmult_le_0_compat; lra). lra. }
  set (z := (million * x / S)%Q) in *.
  set (P := (x * f)%Q) in *.
  assert (HP : (0 <= P)%Q) by (by apply Qmult_le_0_compat).
  (* the two polynomial facts on the constants *)
  assert (M1 : (0 <= n * u32 * ((1 # 4) - n * u32))%Q)
    by (apply Qmult_le_0_compat; lra).
  assert (M2 : (0 <= u32 * ((1 # 4) - n * u32))%Q)
    by (apply Qmult_le_0_compat; lra).
  assert (M3 : (0 <= u32 * (1 - u32))%Q) by (apply Qmult_le_0_compat; lra).
  assert (M4 : (0 <= n * u32 * u32 * (1 - u32))%Q)
    by (repeat apply Qmult_le_0_compat; lra).
  assert (M5 : (0 <= n * u32 * u32)%Q)
    by (repeat apply Qmult_le_0_compat; lra).
  assert (M6 : (0 <= u32 * u32)%Q) by (apply Qmult_le_0_compat; lra).
  assert (K2 : ((1 + u32) * (1 + u32) <= (1 + 2 * (n + 4) * u32) * c)%Q)
    by (unfold c; lra).
  assert (K3 : (1 - 2 * (n + 4) * u32 <= (1 - u32) * (1 - u32) * c)%Q)
    by (unfold c; lra).
  (* upper *)
  assert (G1 : (P * c <= (1 + u32) * z)%Q).
  { apply Qmult_lt_0_le_reg_r with S; [exact HS|].
    assert (F1 : (0 <= P * (s - c * S))%Q) by (apply Qmult_le_0_compat; lra).
    assert (F2 : (0 <= x * ((1 + u32) * million - f * s))%Q)
      by (apply Qmult_le_0_compat; lra).
    assert (E1 : ((1 + u32) * z * S == (1 + u32) * (million * x))%Q)
      by (rewrite <- Hz; ring).
    unfold P in *. lra. }
  assert (G2 : ((1 + u32) * P <= (1 + 2 * (n + 4) * u32) * z)%Q).
  { apply Qmult_lt_0_le_reg_r with c; [lra|].
    assert (F3 : (0 <= (1 + u32) * ((1 + u32) * z - P * c))%Q)
      by (apply Qmult_le_0_compat; lra).
    assert (F4 : (0 <= z * ((1 + 2 * (n + 4) * u32) * c
                            - (1 + u32) * (1 + u32)))%Q)
      by (apply Qmult_le_0_compat; lra).
    lra. }
  (* lower *)
  assert (G3 : ((1 - u32) * c * z <= P)%Q).
  { apply Qmult_lt_0_le_reg_r with S; [exact HS|].
    assert (F5 : (0 <= P * (S - s * c))%Q) by (apply Qmult_le_0_compat; lra).
    assert (F6 : (0 <= x * c * (f * s - (1 - u32) * million))%Q)
      by (repeat apply Qmult_le_0_compat; lra).
    assert (E2 : ((1 - u32) * c * z * S == (1 - u32) * c * (million * x))%Q)
      by (rewrite <- Hz; ring).
    unfold P in *. lra. }
  assert (G4 : ((1 - 2 * (n + 4) * u32) * z <= (1 - u32) * P)%Q).
  { assert (F7 : (0 <= (1 - u32) * (P - (1 - u32) * c * z))%Q)
      by (apply Qmult_le_0_compat; lra).
    assert (F8 : (0 <= z * ((1 - u32) * (1 - u32) * c
                            - (1 - 2 * (n + 4) * u32)))%Q)
      by (apply Qmult_le_0_compat; lra).
    lra. }
  apply Qabs_Qle_condition. split; lra.
Qed.

Lemma column_sum_accuracy (tol S : Q) (xs ys : list Q) :
  ~ (S == 0)%Q ->
  Forall2 (fun x y => (Qabs (y - million * x / S)
                       <= tol * (million * x / S) + tiny)%Q) xs ys ->
  (Qabs (column_sum ys - million * column_sum xs / S)
   <= tol * (million * column_sum xs / S)
      + inject_Z (Z.of_nat (length xs)) * tiny)%Q.
Proof.
  intros HS. induction 1 as [|x y xs ys Hxy _ IH].
  - cbn [column_sum fold_right length]. change (inject_Z (Z.of_nat 0)) with 0%Q.
    assert (E : (million * 0 / S == 0)%Q) by (field; exact HS).
    rewrite E. apply Qabs_Qle_condition. split; lra.
  - cbn [column_sum fold_right length]. fold (column_sum xs) (column_sum ys).
    rewrite Nat2Z.inj_succ, <- Z.add_1_r, inject_Z_plus.
    change (inject_Z 1) with 1%Q.
    assert (E : (million * (x + column_sum xs) / S
                 == million * x / S + million * column_sum xs / S)%Q)
      by (field; exact HS).
    rewrite E.
    set (z := (million * x / S)%Q) in *.
    set (zt := (million * column_sum xs / S)%Q) in *.
    apply Qabs_Qle_condition in Hxy as [Hx1 Hx2].
    apply Qabs_Qle_condition in IH as [IH1 IH2].
    apply Qabs_Qle_condition. split; lra.
Qed.

Lemma mul32_Finite_inv (x v : value) (y : Q) :
  mul32 x v = Finite y -> exists a f, x = Finite a /\ v = Finite f.
Proof.
  destruct x as [a| |], v as [f| |]; simpl; try done.
  - intros _. by exists a, f.
  - by destruct (Qeq_bool a 0).
  - by destruct (Qeq_bool f 0).
Qed.

Lemma representable_0 : representable 0.
Proof. exists 0%Z. reflexivity. Qed.

Lemma cons_eq_inv {A} (x y : A) (l k : list A) :
  x :: l = y :: k -> x = y /\ l = k.
Proof. by intros [= -> ->]. Qed.

Lemma entries_accuracy (L : nat) (S s f : Q) (xs ys : list Q) :
  (Z.of_nat L <= 4194304)%Z ->
  (0 < S)%Q ->
  ((1 - inject_Z (Z.of_nat L) * u32) * S <= s)%Q ->
  (s * (1 - inject_Z (Z.of_nat L) * u32) <= S)%Q ->
  ((1 - u32) * million <= f * s)%Q ->
  (f * s <= (1 + u32) * million)%Q ->
  (0 <= f)%Q ->
  Forall (fun x => (0 <= x)%Q) xs ->
  map (fun x => mul32 x (Finite f)) (map Finite xs) = map Finite ys ->
  Forall2
    (fun x y =>
       (Qabs (y - million * x / S)
        <= tolerance L * (million * x / S) + tiny)%Q) xs ys.
Proof.
  intros HL HS A1 A2 B1 B2 Hf Hnn. revert ys.
  induction Hnn as [|x xs Hx _ IH]; intros [|y ys] Hys; try done.
  cbn [map] in Hys. apply cons_eq_inv in Hys as [Hy Hys].
  destruct (mul32_Finite x f y Hx Hf Hy) as [C1 C2].
  constructor; [|by apply IH].
  by apply (entry_accuracy L S s f x y).
Qed.

(** The normalisation of a column of non-negative float32 whose float32
    sum is finite and not zero: every entry is [1e6 * x / S] and the
    entries sum to [1e6], up to the tolerance. *)
Lemma normalize_column_accuracy (xs ys : list Q) (s : Q) :
  Forall (fun x => (0 <= x)%Q) xs ->
  Forall representable xs ->
  (Z.of_nat (length xs) <= 4194304)%Z ->
  sum32 (map Finite xs) = Finite s ->
  ~ (s == 0)%Q ->
  normalize_column (map Finite xs) = map Finite ys ->
  (0 < column_sum xs)%Q
  /\ Forall2
       (fun x y =>
          (Qabs (y - million * x / column_sum xs)
           <= tolerance (length xs) * (million * x / column_sum xs)
              + tiny)%Q) xs ys
  /\ (Qabs (column_sum ys - million)
      <= tolerance (length xs) * million
         + inject_Z (Z.of_nat (length xs)) * tiny)%Q.
Proof.
  intros Hnn Hrep HL Hs Hs0 Hys.
  destruct u32_bounds as [Hu0 Hu1].
  assert (Hn0 : (0 <= inject_Z (Z.of_nat (length xs)))%Q).
  { change 0%Q with (inject_Z 0). rewrite <- Zle_Qle. lia. }
  assert (Hn1 : (inject_Z (Z.of_nat (length xs)) <= 4194304)%Q).
  { change 4194304%Q with (inject_Z 4194304). rewrite <- Zle_Qle. lia. }
  assert (Hw : (inject_Z (Z.of_nat (length xs)) * u32 <= 1 # 4)%Q).
  { apply Qle_trans with (4194304 * u32)%Q.
    - apply Qmult_le_compat_r; lra.
    - lra. }
  destruct (sum32_accuracy xs 0 s Hnn Hrep) as (A1 & A2 & Hsnn & Hsb);
    [lra | apply representable_0 | by vm_compute | exact Hs | lra |].
  rewrite Qplus_0_l in A1, A2.
  assert (Hspos : (0 < s)%Q).
  { destruct (Qle_lt_or_eq _ _ Hsnn) as [?|E]; [done|].
    exfalso. apply Hs0. by symmetry. }
  assert (HS : (0 < column_sum xs)%Q).
  { assert ((0 < s * (1 - inject_Z (Z.of_nat (length xs)) * u32))%Q); [|lra].
    apply Qmult_lt_0_compat; lra. }
  split; [exact HS|].
  unfold normalize_column in Hys. rewrite Hs in Hys.
  assert (Hf : exists f, div32 (Finite million) (Finite s) = Finite f).
  { destruct xs as [|x0 xs'], ys as [|y0 ys']; try done.
    pose proof (f_equal (fun l => nth 0 l NaN) Hys) as Hy0.
    cbn [map nth] in Hy0.
    apply mul32_Finite_inv in Hy0 as (a & f & _ & ->). by exists f. }
  destruct Hf as [f Hf]. rewrite Hf in Hys.
  destruct (div32_million s f Hspos Hsb Hf) as (B1 & B2 & Hfnn).
  pose proof (entries_accuracy (length xs) (column_sum xs) s f xs ys
                HL HS A1 A2 B1 B2 Hfnn Hnn Hys) as Hent.
  split; [exact Hent|].
  pose proof (column_sum_accuracy (tolerance (length xs)) (column_sum xs)
                xs ys) as Hsum.
  assert (E : (million * column_sum xs / column_sum xs == million)%Q)
    by (field; lra).
  rewrite E in Hsum. apply Hsum; [lra | exact Hent].
Qed.

Lemma normalize_column_finite_inv (col : list value) :
  Forall (fun v => is_finite v = true) (normalize_column col) ->
  exists xs ys, col = map Finite xs /\ normalize_column col = map Finite ys.
Proof.
  unfold normalize_column. generalize (div32 (Finite million) (sum32 col)).
  intros factor. induction col as [|v col IH]; intros Hfin.
  - by exists [], [].
  - cbn [map] in Hfin. apply Forall_cons in Hfin as [Hv Hfin].
    destruct (IH Hfin) as (xs & ys & -> & Hys).
    destruct (mul32 v factor) as [y| |] eqn:Hy; try done.
    destruct (mul32_Finite_inv _ _ _ Hy) as (a & f & -> & _).
    exists (a :: xs), (y :: ys). cbn [map]. by rewrite Hy, Hys.
Qed.

Lemma normalize_column_length (col : list value) :
  length (normalize_column col) = length col.
Proof. unfold normalize_column. by rewrite length_map. Qed.

Lemma round32_column_representable (raw : list Q) (xs : list Q) :
  map round32 raw = map Finite xs -> Forall representable xs.
Proof.
  revert xs. induction raw as [|q raw IH]; intros [|x xs] E; try done.
  cbn [map] in E. apply cons_eq_inv in E as [Hx E].
  constructor; [by eapply round32_representable | by apply IH].
Qed.

Lemma round32_column_nonneg (raw : list Q) (xs : list Q) :
  Forall (fun q => (0 <= q)%Q) raw ->
  map round32 raw = map Finite xs -> Forall (fun x => (0 <= x)%Q) xs.
Proof.
  intros Hraw. revert xs.
  induction Hraw as [|q raw Hq _ IH]; intros [|x xs] E; try done.
  cbn [map] in E. apply cons_eq_inv in E as [Hx E].
  constructor; [by eapply round32_nonneg | by apply IH].
Qed.

(** ** Column indices of a cell type and their selection *)

Lemma StronglySorted_lt_seq (a len : nat) : StronglySorted lt (seq a len).
Proof.
  revert a. induction len as [|len IH]; intros a; simpl; constructor.
  - apply IH.
  - apply Forall_forall. intros x Hx. apply elem_of_seq in Hx. lia.
Qed.

Lemma StronglySorted_sublist {A} (R : relation A) (l1 l2 : list A) :
  l1 `sublist_of` l2 -> StronglySorted R l2 -> StronglySorted R l1.
Proof.
  induction 1 as [|x l1 l2 Hsub IH|x l1 l2 Hsub IH]; intros Hs.
  - constructor.
  - apply StronglySorted_inv in Hs as [Hs Hall]. constructor; [auto|].
    apply Forall_forall. intros y Hy.
    eapply Forall_forall in Hall; [exact Hall|].
    by eapply sublist_subseteq.
  - apply StronglySorted_inv in Hs as [Hs _]. auto.
Qed.

Lemma filter_sublist {A} (P : A -> Prop) `{!forall x, Decision (P x)}
    (l : list A) :
  filter P l `sublist_of` l.
Proof.
  induction l as [|x l IH]; [constructor|].
  destruct (decide (P x)).
  - rewrite filter_cons_True by done. by apply sublist_skip.
  - rewrite filter_cons_False by done. by apply sublist_cons.
Qed.

Lemma StronglySorted_le_NoDup (l : list nat) :
  StronglySorted le l -> NoDup l -> StronglySorted lt l.
Proof.
  induction l as [|x l IH]; intros Hs Hnd; constructor.
  - apply StronglySorted_inv in Hs as [Hs _].
    apply NoDup_cons in Hnd as [_ Hnd]. auto.
  - apply StronglySorted_inv in Hs as [_ Hall].
    apply NoDup_cons in Hnd as [Hx _].
    apply Forall_forall. intros y Hy.
    assert (x <= y) by (eapply Forall_forall in Hall; eauto).
    assert (x ≠ y) by (intros ->; done). lia.
Qed.

(** An ascending list drawn from an ascending list is a subsequence of
    it. *)
Lemma ascending_subset_sublist (l1 l2 : list nat) :
  StronglySorted lt l1 -> StronglySorted lt l2 ->
  (forall x, x ∈ l1 -> x ∈ l2) -> l1 `sublist_of` l2.
Proof.
  revert l1. induction l2 as [|y l2 IH]; intros l1 Hs1 Hs2 Hsub.
  - destruct l1 as [|x l1]; [constructor|].
    specialize (Hsub x (list_elem_of_here _ _)). by apply elem_of_nil in Hsub.
  - apply StronglySorted_inv in Hs2 as [Hs2 Hy].
    destruct l1 as [|x l1]; [apply sublist_nil_l|].
    pose proof Hs1 as Hs1'. apply StronglySorted_inv in Hs1' as [Hs1' Hx].
    destruct (decide (x = y)) as [->|Hne].
    + apply sublist_skip, IH; [done..|]. intros z Hz.
      assert (y < z) by (eapply Forall_forall in Hx; eauto).
      specialize (Hsub z (list_elem_of_further _ _ _ Hz)).
      apply elem_of_cons in Hsub as [->|Hsub]; [lia | done].
    + apply sublist_cons, IH; [done..|]. intros z Hz.
      assert (Hxl : x ∈ l2).
      { specialize (Hsub x (list_elem_of_here _ _)).
        apply elem_of_cons in Hsub as [?|?]; [congruence | done]. }
      assert (y < x) by (eapply Forall_forall in Hy; eauto).
      assert (x <= z).
      { apply elem_of_cons in Hz as [->|Hz]; [lia|].
        eapply Forall_forall in Hx; eauto. lia. }
      specialize (Hsub z Hz).
      apply elem_of_cons in Hsub as [->|Hsub]; [lia | done].
Qed.

Lemma nonzero_eq_elem_of (i : nat) (ct : string) (cts : list string) :
  i ∈ nonzero_eq ct cts <-> cts !! i = Some ct.
Proof.
  unfold nonzero_eq. rewrite list_elem_of_filter, elem_of_seq. split.
  - by intros [? _].
  - intros H. split; [done|]. apply lookup_lt_Some in H. lia.
Qed.

Lemma nonzero_eq_ascending (ct : string) (cts : list string) :
  StronglySorted lt (nonzero_eq ct cts).
Proof.
  eapply StronglySorted_sublist; [apply filter_sublist|].
  apply StronglySorted_lt_seq.
Qed.

Lemma filter_ext_Forall {A} (P Q : A -> Prop)
    `{!forall x, Decision (P x)} `{!forall x, Decision (Q x)} (l : list A) :
  Forall (fun x => P x <-> Q x) l -> filter P l = filter Q l.
Proof.
  induction 1 as [|x l Hx Hall IH]; [done|].
  rewrite !filter_cons, IH.
  destruct (decide (P x)), (decide (Q x)); tauto.
Qed.

Lemma nonzero_eq_snoc (ct x : string) (cts : list string) :
  nonzero_eq ct (cts ++ [x])
  = (nonzero_eq ct cts ++ if decide (x = ct) then [length cts] else [])%list.
Proof.
  unfold nonzero_eq. rewrite length_app. simpl.
  rewrite seq_app, filter_app. simpl. f_equal.
  - apply filter_ext_Forall, Forall_forall. intros i Hi.
    apply elem_of_seq in Hi. by rewrite lookup_app_l by lia.
  - rewrite filter_cons, filter_nil.
    rewrite list_lookup_middle by done.
    destruct (decide (x = ct)) as [->|Hne].
    + by rewrite decide_True.
    + rewrite decide_False; [done | congruence].
Qed.

Lemma nonzero_eq_length (ct : string) (cts : list string) :
  length (nonzero_eq ct cts) = count_label ct cts.
Proof.
  induction cts as [|x cts IH] using rev_ind; [done|].
  rewrite nonzero_eq_snoc, count_label_snoc, length_app, IH.
  case_decide; simpl; lia.
Qed.

Lemma selection_of_sorted_take (cts : list string) (ct : string) (ni : nat)
    (p : list nat) :
  p ≡ₚ nonzero_eq ct cts -> ni <= count_label ct cts ->
  selection_of cts ct ni (np_sort (take ni p)).
Proof.
  intros Hp Hni. unfold np_sort.
  pose proof (merge_sort_Permutation le (take ni p)) as Hsort.
  assert (Hnd : NoDup (nonzero_eq ct cts)).
  { eapply sublist_NoDup; [apply NoDup_seq | apply filter_sublist]. }
  assert (Hsub : merge_sort le (take ni p) ⊆+ nonzero_eq ct cts).
  { rewrite Hsort, <- Hp. apply submseteq_take. }
  assert (Hasc : StronglySorted lt (merge_sort le (take ni p))).
  { apply StronglySorted_le_NoDup.
    - apply StronglySorted_merge_sort; apply _.
    - apply submseteq_sublist_r in Hsub as (l2 & Hl2 & Hsub).
      rewrite Hl2. by eapply sublist_NoDup. }
  repeat split.
  - rewrite Hsort, length_take, Hp, nonzero_eq_length. lia.
  - done.
  - apply ascending_subset_sublist; [done | apply nonzero_eq_ascending |].
    intros x Hx. by eapply elem_of_submseteq.
  - by exists p.
Qed.

(** ** The subsampling loop *)

Section Loop.
Context {rng : Type}.
Variable shuffle : rng -> list nat -> list nat * rng.
Hypothesis shuffle_perm : shuffle_permutes shuffle.

Import AtlasSubsampler.

Lemma selections_spec (cts : list string) (q : list (string * nat)) (g : rng) :
  Forall (fun '(ct, ni) => ni <= count_label ct cts) q ->
  Forall2 (fun '(ct, ni) sel => selection_of cts ct ni sel)
    q (selections shuffle cts q g).1.
Proof.
  revert g. induction q as [|[ct ni] q IH]; intros g Hq; simpl.
  - constructor.
  - apply Forall_cons in Hq as [Hni Hq].
    pose proof (shuffle_perm g (nonzero_eq ct cts)) as Hp.
    destruct (shuffle g (nonzero_eq ct cts)) as [p g'].
    specialize (IH g' Hq).
    destruct (selections shuffle cts q g') as [sels g'']. simpl in *.
    constructor; [|done]. by apply selection_of_sorted_take.
Qed.

Lemma selections_length (cts : list string) (q : list (string * nat)) (g : rng) :
  length (selections shuffle cts q g).1 = length q.
Proof.
  revert g. induction q as [|[ct ni] q IH]; intros g; simpl; [done|].
  destruct (shuffle g (nonzero_eq ct cts)) as [p g'].
  specialize (IH g').
  destruct (selections shuffle cts q g') as [sels g'']. simpl in *. lia.
Qed.

(** The loop fills the three arrays block after block, from offset [i]
    on, and leaves what lies beyond the blocks as it was. *)
Lemma subsample_loop (dsl : loom_full) (lstring : nat)
    (q : list (string * nat)) :
  Forall (fun '(ct, ni) =>
            String.length ct <= lstring /\ ni <= n
            /\ ni <= count_label ct (ca_cellType dsl)) q ->
  forall (i : nat) (dm rm : list (list value)) (dl rl dn rn : list string)
         (w : world rng),
    length dm = i -> length dl = i -> length dn = i ->
    sum_list (map snd q) <= length rm ->
    sum_list (map snd q) <= length rl ->
    sum_list (map snd q) <= length rn ->
    fold_each q
      (fun st '(ct, ni) =>
         subsample_cell_type shuffle dsl (feature_mask (ra_GeneName dsl))
           lstring st ct ni)
      (i, (dm ++ rm)%list, (dl ++ rl)%list, (dn ++ rn)%list) w
    = (inr (i + sum_list (map snd q),
            (dm ++ concat (map (map (subsampled_column dsl))
                            (selections shuffle (ca_cellType dsl) q
                               (random_state w)).1)
                ++ drop (sum_list (map snd q)) rm)%list,
            (dl ++ flat_map (fun '(ct, ni) => repeat ct ni) q
                ++ drop (sum_list (map snd q)) rl)%list,
            (dn ++ flat_map (fun '(ct, ni) => block_names ct ni) q
                ++ drop (sum_list (map snd q)) rn)%list),
       with_random_state
         (selections shuffle (ca_cellType dsl) q (random_state w)).2 w).
Proof.
  induction q as [|[ct ni] q IH]; intros Hq i dm rm dl rl dn rn w
    Hdm Hdl Hdn Hrm Hrl Hrn.
  - simpl. unfold ret. rewrite Nat.add_0_r, !drop_0. by destruct w.
  - apply Forall_cons in Hq as [(Hct & Hcap & Hni) Hq].
    simpl in Hrm, Hrl, Hrn.
    pose proof (shuffle_perm (random_state w)
                  (nonzero_eq ct (ca_cellType dsl))) as Hp.
    simpl. unfold bind at 1. unfold subsample_cell_type.
    unfold bind at 1. unfold np_random_shuffle.
    destruct (shuffle (random_state w) (nonzero_eq ct (ca_cellType dsl)))
      as [p g'] eqn:Hsh.
    simpl in Hp.
    destruct (selection_of_sorted_take (ca_cellType dsl) ct ni p Hp Hni)
      as (Hlen & _).
    unfold ret.
    set (sel := np_sort (take ni p)) in *.
    rewrite !map_map.
    rewrite (slice_assign_fill dm) by (rewrite ?length_map; lia).
    rewrite (slice_assign_fill dl) by (rewrite ?repeat_length; lia).
    rewrite (slice_assign_fill dn)
      by (rewrite ?length_map, ?length_seq; lia).
    rewrite !length_map, repeat_length, length_seq, Hlen.
    rewrite truncate_fits by done.
    rewrite (map_ext_in _ (fun j => ct +:+ "_" +:+ str (j + 1))).
    2:{ intros j Hj. apply in_seq in Hj. apply truncate_fits.
        rewrite !string_length_app. simpl.
        pose proof (str_rank_length j). lia. }
    rewrite !(app_assoc _ _ (drop ni _)).
    rewrite IH;
      [| first [ done
               | rewrite length_app, ?length_map, ?repeat_length,
                   ?length_seq; lia
               | rewrite length_drop; lia ] ..].
    simpl random_state.
    destruct (selections shuffle (ca_cellType dsl) q g') as [sels g''].
    simpl. rewrite !drop_drop, <- !app_assoc, Nat.add_assoc. done.
Qed.
End Loop.

(** ** The quota mapping and the [with] block *)

Lemma sum_values_Counter (xs : list string) :
  sum_values (Counter xs) = length xs.
Proof.
  assert (Hstep : forall (k : string) (d : list (string * nat)),
    sum_list (map snd (dict_set k (S (default 0 (dict_get k d))) d))
    = S (sum_list (map snd d))).
  { intros k. induction d as [|[k0 v0] d IH]; simpl; [done|].
    destruct (String.eqb_spec k0 k); simpl; [done|]. rewrite IH. lia. }
  induction xs as [|x xs IH] using rev_ind; [done|].
  rewrite Counter_snoc, sum_values_alt, Hstep, <- sum_values_alt, IH.
  rewrite length_app. simpl. lia.
Qed.

(** The quota of each cell type is its count capped at [n], and the
    types are kept in order of first appearance. *)
Lemma quotas_spec (cts : list string) :
  quotas cts
  = map (fun ct => (ct, count_label ct cts `min` AtlasSubsampler.n))
      (distinct cts).
Proof.
  unfold quotas. rewrite cap_counts_spec.
  - by rewrite Counter_spec, map_map.
  - rewrite Counter_keys. apply distinct_NoDup.
Qed.

Lemma quotas_keys (cts : list string) : map fst (quotas cts) = distinct cts.
Proof. rewrite quotas_spec, map_map. simpl. apply map_id. Qed.

Lemma quotas_bounds (cts : list string) :
  Forall (fun '(ct, ni) =>
            ct ∈ cts /\ 0 < ni /\ ni <= AtlasSubsampler.n
            /\ ni <= count_label ct cts) (quotas cts).
Proof.
  rewrite quotas_spec. apply Forall_forall. intros [ct ni] Hin.
  apply list_elem_of_fmap in Hin as (ct' & [= -> ->] & Hct).
  rewrite distinct_elem_of in Hct.
  pose proof (count_label_pos _ _ Hct). unfold AtlasSubsampler.n.
  repeat split; [done | lia..].
Qed.

Section ReadData.
Context {rng : Type}.
Variable shuffle : rng -> list nat -> list nat * rng.
Hypothesis shuffle_perm : shuffle_permutes shuffle.

Import AtlasSubsampler.

(** With at least one cell in the full matrix, the [with] block ends
    normally and leaves the arrays described by [assemble]; only the
    random state has changed. *)
Lemma read_data_spec (dsl : loom_full) (w : world rng) :
  ca_cellType dsl ≠ [] ->
  read_data shuffle dsl w
  = (inr (assemble shuffle dsl (random_state w)),
     with_random_state
       (selections shuffle (ca_cellType dsl) (quotas (ca_cellType dsl))
          (random_state w)).2 w).
Proof.
  intros Hne. unfold read_data. fold (quotas (ca_cellType dsl)).
  set (cts := ca_cellType dsl) in *. set (q := quotas cts).
  destruct (py_max (map (fun '(ct, _) => String.length ct) q))
    as [lstring|] eqn:Hmax.
  2:{ apply py_max_None, fmap_nil_inv in Hmax.
      assert (Hk : map fst q = []) by (by rewrite Hmax).
      unfold q in Hk. rewrite quotas_keys in Hk.
      destruct cts as [|x cts']; [done|]. simpl in Hk. done. }
  assert (Hq : Forall (fun '(ct, ni) =>
              String.length ct <= lstring /\ ni <= n
              /\ ni <= count_label ct (ca_cellType dsl)) q).
  { pose proof (quotas_bounds cts) as Hb. fold q in Hb.
    apply Forall_forall. intros [ct ni] Hin.
    eapply Forall_forall in Hb; [|exact Hin]. simpl in Hb.
    destruct Hb as (_ & _ & Hcap & Hni). repeat split; [|done..].
    eapply py_max_bound; [exact Hmax|].
    apply list_elem_of_fmap. by exists (ct, ni). }
  unfold bind.
  match goal with
  | |- context [fold_each _ _ (0, ?rm, ?rl, ?rn) _] =>
      pose proof (subsample_loop shuffle shuffle_perm dsl lstring q Hq
                    0 [] rm [] rl [] rn w eq_refl eq_refl eq_refl) as Hloop
  end.
  simpl app in Hloop. rewrite Hloop by (by rewrite repeat_length, sum_values_alt).
  clear Hloop. fold cts.
  rewrite !sum_values_alt, !drop_ge by (rewrite repeat_length; lia).
  unfold ret, assemble. fold cts. fold q. simpl.
  rewrite !app_nil_r, <- sum_values_alt, sum_values_Counter.
  unfold feature_mask. rewrite mask_select_map_pred. done.
Qed.
End ReadData.

(** ** The export loop and [process_atlas] *)

Lemma get_custom_filters_cases (nm : string) :
  AtlasSubsampler.get_custom_filters nm
  = if decide (nm = "Darmanis_2015")
    then [("nofetal", Some AtlasSubsampler.nofetal); ("", None)]
    else [("", None)].
Proof.
  unfold AtlasSubsampler.get_custom_filters. cbn [dict_get].
  destruct (String.eqb_spec "Darmanis_2015" nm) as [<-|Hne].
  - rewrite decide_True by done. reflexivity.
  - rewrite decide_False by congruence. reflexivity.
Qed.

Lemma fns_out_init (nm : string) (ts : option string) (ov : bool) :
  AtlasSubsampler.fns_out (AtlasSubsampler.init nm ts ov)
  = map (fun entry : string * option (string -> bool) =>
           (entry.1, output_path (AtlasSubsampler.init nm ts ov) entry.1))
      (AtlasSubsampler.filters (AtlasSubsampler.init nm ts ov)).
Proof.
  unfold AtlasSubsampler.fns_out. simpl AtlasSubsampler.filters.
  rewrite get_custom_filters_cases. by case_decide.
Qed.

Section Process.
Context {rng : Type}.
Variable shuffle : rng -> list nat -> list nat * rng.
Hypothesis shuffle_perm : shuffle_permutes shuffle.

Import AtlasSubsampler.

Lemma all_isfile_spec (fns : list string) (w : world rng) :
  all_isfile fns w
  = (inr (bool_decide (Forall (fun fn => is_Some (subsamples w !! fn)) fns)),
     w).
Proof.
  induction fns as [|fn fns IH]; cbn [all_isfile].
  - unfold ret. by rewrite bool_decide_true by constructor.
  - unfold bind, isfile. destruct (decide (is_Some (subsamples w !! fn))).
    + rewrite bool_decide_true by done. rewrite IH. f_equal. f_equal.
      apply bool_decide_ext. rewrite Forall_cons. tauto.
    + rewrite bool_decide_false by done. unfold ret. f_equal. f_equal.
      symmetry. apply bool_decide_false. rewrite Forall_cons. tauto.
Qed.

Lemma forallb_is_finite (m : list (list value)) :
  Forall (Forall (fun v => is_finite v = true)) m ->
  forallb (forallb is_finite) m = true.
Proof.
  intros Hm. apply forallb_forall. intros col Hcol.
  apply forallb_forall. intros v Hv.
  eapply Forall_forall in Hm; [|by apply list_elem_of_In].
  eapply Forall_forall in Hm; [exact Hm | by apply list_elem_of_In].
Qed.

Lemma loompy_create_ok (fn : string) (out : loom_out) (w : world rng) :
  GeneName out ≠ [] ->
  layer out ≠ [] ->
  Forall (Forall (fun v => is_finite v = true)) (layer out) ->
  loompy_create fn out w
  = (inr tt,
     log (Create fn) (with_subsamples (<[fn := out]> (subsamples w)) w)).
Proof.
  intros Hg Hl Hfin. unfold loompy_create.
  destruct (GeneName out) as [|? ?]; [done|].
  destruct (layer out) as [|col m] eqn:Hm; [done|].
  cbn [length Nat.eqb orb]. by rewrite forallb_is_finite.
Qed.

Lemma export_variant_spec (s : self) (a : assembled) (filtname : string)
    (fun_ : option (string -> bool)) (w : world rng) :
  dict_get filtname (fns_out s) = Some (output_path s filtname) ->
  writable s (atlas_metadata w) a (filtname, fun_) ->
  export_variant s a filtname fun_ w
  = (inr tt, write_variant s a w (filtname, fun_)).
Proof.
  intros Hfn ((records & Hmd & Hrec) & Hfea & Hne & Hfin).
  cbn [fst snd] in *.
  unfold export_variant. rewrite Hfn.
  unfold bind at 1. unfold get_atlas_metadata. rewrite Hmd.
  unfold write_variant. cbn [fst snd].
  assert (Hattrs :
    default (Some ∅) (records !! metaname s filtname)
    = Some (record_of (atlas_metadata w) (metaname s filtname))).
  { unfold record_of. rewrite Hmd.
    destruct (records !! metaname s filtname) as [[record|]|]; done. }
  rewrite Hattrs.
  assert (Hout :
    forall attrs m cn ct,
      attrs = file_attrs (variant_file s (atlas_metadata w) a filtname fun_) ->
      m = layer (variant_file s (atlas_metadata w) a filtname fun_) ->
      cn = CellName (variant_file s (atlas_metadata w) a filtname fun_) ->
      ct = CellType (variant_file s (atlas_metadata w) a filtname fun_) ->
      loompy_create (output_path s filtname)
        {| layer := m; GeneName := features a; CellName := cn;
           CellType := ct; file_attrs := attrs |} (log LoadMetadata w)
      = (inr tt,
         log (Create (output_path s filtname))
           (with_subsamples
              (<[output_path s filtname
                 := variant_file s (atlas_metadata w) a filtname fun_]>
                 (subsamples w)) (log LoadMetadata w)))).
  { intros attrs m cn ct -> -> -> ->.
    rewrite loompy_create_ok; [|done..].
    do 3 f_equal. unfold variant_file. by destruct fun_. }
  destruct fun_ as [f|]; apply Hout; unfold variant_file; reflexivity.
Qed.

(** The export of a matrix that [loompy.create] refuses for an infinity
    or a NaN: the file is created and removed again. *)
Lemma export_variant_refused (s : self) (a : assembled) (filtname : string)
    (fun_ : option (string -> bool)) (w : world rng)
    (records : gmap string (option (gmap string attr_value))) :
  dict_get filtname (fns_out s) = Some (output_path s filtname) ->
  atlas_metadata w = Records records ->
  records !! metaname s filtname ≠ Some None ->
  features a ≠ [] ->
  layer (variant_file s (atlas_metadata w) a filtname fun_) ≠ [] ->
  ~ Forall (Forall (fun v => is_finite v = true))
      (layer (variant_file s (atlas_metadata w) a filtname fun_)) ->
  export_variant s a filtname fun_ w
  = (inl ValueError,
     log (Remove (output_path s filtname))
       (log (Create (output_path s filtname))
          (with_subsamples
             (delete (output_path s filtname) (subsamples w))
             (log LoadMetadata w)))).
Proof.
  intros Hfn Hmd Hrec Hfea Hne Hbad.
  unfold export_variant. rewrite Hfn.
  unfold bind at 1. unfold get_atlas_metadata. rewrite Hmd.
  destruct (default (Some ∅) (records !! metaname s filtname))
    as [record|] eqn:Hrecord.
  2:{ destruct (records !! metaname s filtname) as [[?|]|]; done. }
  assert (Hcreate :
    forall out,
      GeneName out = features a ->
      layer out = layer (variant_file s (atlas_metadata w) a filtname fun_) ->
      loompy_create (output_path s filtname) out (log LoadMetadata w)
      = (inl ValueError,
         log (Remove (output_path s filtname))
           (log (Create (output_path s filtname))
              (with_subsamples
                 (delete (output_path s filtname) (subsamples w))
                 (log LoadMetadata w))))).
  { intros out Hg Hl. unfold loompy_create. rewrite Hg, Hl.
    destruct (features a) as [|? ?]; [done|].
    destruct (layer (variant_file s (atlas_metadata w) a filtname fun_))
      as [|col m] eqn:Hm; [done|].
    cbn [length Nat.eqb orb].
    destruct (forallb (forallb is_finite) (col :: m)) eqn:Hall; [|done].
    exfalso. apply Hbad. apply Forall_forall. intros c Hc.
    apply Forall_forall. intros v Hv.
    rewrite forallb_forall in Hall. apply list_elem_of_In in Hc, Hv.
    specialize (Hall c Hc). rewrite forallb_forall in Hall. by apply Hall. }
  destruct fun_ as [f|]; apply Hcreate; unfold variant_file; reflexivity.
Qed.

Lemma write_variant_metadata (s : self) (a : assembled) (w : world rng)
    (e : string * option (string -> bool)) :
  atlas_metadata (write_variant s a w e) = atlas_metadata w.
Proof. done. Qed.

Lemma for_each_export (s : self) (a : assembled)
    (fl : list (string * option (string -> bool))) (w : world rng) :
  Forall (fun entry : string * option (string -> bool) =>
            dict_get entry.1 (fns_out s) = Some (output_path s entry.1)) fl ->
  Forall (writable s (atlas_metadata w) a) fl ->
  for_each fl (fun '(filtname, fun_) => export_variant s a filtname fun_) w
  = (inr tt, write_variants s a fl w).
Proof.
  revert w. induction fl as [|[filtname fun_] fl IH]; intros w Hfl Hok; [done|].
  apply Forall_cons in Hfl as [Hfn Hfl]. simpl in Hfn.
  apply Forall_cons in Hok as [Hok1 Hok].
  simpl. unfold bind. rewrite export_variant_spec by done.
  apply IH; [done|]. by rewrite write_variant_metadata.
Qed.

Lemma fns_out_lookup_init (nm : string) (ts : option string) (ov : bool) :
  Forall (fun entry : string * option (string -> bool) =>
            dict_get entry.1 (fns_out (init nm ts ov))
            = Some (output_path (init nm ts ov) entry.1))
    (filters (init nm ts ov)).
Proof.
  rewrite fns_out_init. simpl filters. rewrite get_custom_filters_cases.
  case_decide; repeat constructor.
Qed.

(** The test that guards the early return: [(not self.overwrite) and
    all(...)] looks at the files only when [overwrite] is off. *)
Lemma skip_test_spec (nm : string) (ts : option string) (ov : bool)
    (w : world rng) :
  (if negb (overwrite (init nm ts ov))
   then all_isfile (map snd (fns_out (init nm ts ov)))
   else ret false) w
  = (inr (negb ov && bool_decide (all_outputs_exist (init nm ts ov) w)), w).
Proof.
  change (overwrite (init nm ts ov)) with ov.
  destruct ov; cbn [negb andb]; [done|].
  rewrite all_isfile_spec, fns_out_init, map_map.
  f_equal. f_equal. apply bool_decide_ext.
  unfold all_outputs_exist. by rewrite Forall_fmap.
Qed.

Lemma not_skipped (nm : string) (ts : option string) (ov : bool)
    (w : world rng) :
  ov = true \/ ~ all_outputs_exist (init nm ts ov) w ->
  negb ov && bool_decide (all_outputs_exist (init nm ts ov) w) = false.
Proof.
  intros [->|Hmiss]; [done|].
  by rewrite bool_decide_false, andb_false_r.
Qed.

(** The skip: nothing is read, nothing is written. *)
Lemma process_atlas_skip (nm : string) (ts : option string) (w : world rng) :
  all_outputs_exist (init nm ts false) w ->
  process_atlas shuffle (init nm ts false) w = (inr tt, w).
Proof.
  intros Hall. unfold process_atlas. unfold bind at 1.
  rewrite skip_test_spec. by rewrite bool_decide_true.
Qed.

(** The run: the full matrix is read once and every export is written. *)
Lemma process_atlas_run (nm : string) (ts : option string) (ov : bool)
    (dsl : loom_full) (w : world rng) :
  ov = true \/ ~ all_outputs_exist (init nm ts ov) w ->
  data_full w !! get_full_filename nm ts = Some dsl ->
  ca_cellType dsl ≠ [] ->
  Forall (writable (init nm ts ov) (atlas_metadata w)
            (assemble shuffle dsl (random_state w)))
    (filters (init nm ts ov)) ->
  process_atlas shuffle (init nm ts ov) w
  = (inr tt,
     write_variants (init nm ts ov)
       (assemble shuffle dsl (random_state w))
       (filters (init nm ts ov))
       (with_random_state
          (selections shuffle (ca_cellType dsl) (quotas (ca_cellType dsl))
             (random_state w)).2
          (log (Connect (get_full_filename nm ts)) w))).
Proof.
  intros Hgo Hfile Hne Hok. unfold process_atlas. unfold bind at 1.
  rewrite skip_test_spec, not_skipped by done.
  unfold bind at 1. unfold loompy_connect.
  simpl full_filename. rewrite Hfile.
  unfold bind. rewrite (read_data_spec shuffle shuffle_perm) by done.
  rewrite for_each_export; [done | apply fns_out_lookup_init | done].
Qed.
End Process.

(** ** The files left by the export loop *)

Section Written.
Context {rng : Type}.
Implicit Types (s : AtlasSubsampler.self) (a : AtlasSubsampler.assembled)
  (fl : list (string * option (string -> bool)))
  (w : AtlasSubsampler.world rng).

Import AtlasSubsampler.

Lemma write_variants_metadata s a fl w :
  atlas_metadata (write_variants s a fl w) = atlas_metadata w.
Proof. revert w. induction fl as [|e fl IH]; intros w; simpl; [done|]. by rewrite IH. Qed.

Lemma write_variants_untouched s a fl w :
  data_full (write_variants s a fl w) = data_full w
  /\ random_state (write_variants s a fl w) = random_state w.
Proof.
  revert w. induction fl as [|e fl IH]; intros w; simpl; [done|].
  destruct (IH (write_variant s a w e)) as [-> ->]. done.
Qed.

Lemma write_variants_trace s a fl w :
  trace (write_variants s a fl w)
  = (trace w
     ++ flat_map (fun e : string * option (string -> bool) =>
                    [LoadMetadata; Create (output_path s e.1)]) fl)%list.
Proof.
  revert w. induction fl as [|e fl IH]; intros w; simpl.
  - by rewrite app_nil_r.
  - rewrite IH. simpl. by rewrite <- !app_assoc.
Qed.

(** Files other than those of the exports are left as they were. *)
Lemma write_variants_frame s a fl w (fn : string) :
  Forall (fun e : string * option (string -> bool) =>
            fn ≠ output_path s e.1) fl ->
  subsamples (write_variants s a fl w) !! fn = subsamples w !! fn.
Proof.
  revert w. induction fl as [|e fl IH]; intros w Hfn; simpl; [done|].
  apply Forall_cons in Hfn as [Hne Hfn]. rewrite IH by done. simpl.
  by rewrite lookup_insert_ne.
Qed.

(** Each export whose path no later export shares ends up holding its
    own file. *)
Lemma write_variants_lookup s a fl w (e : string * option (string -> bool)) :
  NoDup (map (fun e : string * option (string -> bool) => output_path s e.1) fl) ->
  e ∈ fl ->
  subsamples (write_variants s a fl w) !! output_path s e.1
  = Some (variant_file s (atlas_metadata w) a e.1 e.2).
Proof.
  revert w. induction fl as [|e0 fl IH]; intros w Hnd He.
  - by apply elem_of_nil in He.
  - simpl in Hnd. apply NoDup_cons in Hnd as [Hfresh Hnd]. simpl.
    destruct (decide (output_path s e.1 = output_path s e0.1)) as [Heq|Hne].
    + rewrite write_variants_frame.
      * simpl. rewrite Heq, lookup_insert_eq.
        apply elem_of_cons in He as [->|He]; [done|].
        exfalso. apply Hfresh. rewrite <- Heq.
        apply list_elem_of_fmap. by exists e.
      * apply Forall_forall. intros e' He' Heq'. apply Hfresh.
        rewrite <- Heq, Heq'. apply list_elem_of_fmap. by exists e'.
    + apply elem_of_cons in He as [->|He]; [done|].
      rewrite IH by done. done.
Qed.

Lemma output_paths_init_NoDup (nm : string) (ts : option string) (ov : bool) :
  NoDup (map (fun e : string * option (string -> bool) =>
                output_path (init nm ts ov) e.1)
           (filters (init nm ts ov))).
Proof.
  simpl filters. rewrite get_custom_filters_cases. case_decide.
  - simpl. apply NoDup_cons. split; [|apply NoDup_singleton].
    rewrite list_elem_of_singleton. intros Heq.
    apply (f_equal String.length) in Heq. revert Heq.
    unfold output_path, get_output_filename, metaname. simpl.
    destruct ts; rewrite !string_length_app; simpl; lia.
  - simpl. apply NoDup_singleton.
Qed.

Lemma default_filter_init (nm : string) (ts : option string) (ov : bool) :
  ("", None) ∈ filters (init nm ts ov).
Proof.
  simpl filters. rewrite get_custom_filters_cases. case_decide.
  - apply list_elem_of_further, list_elem_of_here.
  - apply list_elem_of_here.
Qed.
End Written.

(** ** Prefixes, substrings and first appearances *)

Lemma prefix_spec (p s : string) :
  String.prefix p s = true <-> exists rest, s = p +:+ rest.
Proof.
  revert s. induction p as [|c p IH]; intros s; simpl.
  - split; [by exists s | by destruct s].
  - destruct s as [|c' s]; simpl.
    + split; [done | by intros [rest Hr]].
    + destruct (Ascii.ascii_dec c c') as [->|Hne].
      * rewrite IH. split.
        -- intros [rest ->]. by exists rest.
        -- intros [rest Hr].
           change (String c' s = String c' (p +:+ rest)) in Hr.
           injection Hr as ->. by exists rest.
      * split; [done|]. intros [rest Hr].
        change (String c' s = String c (p +:+ rest)) in Hr. congruence.
Qed.

Lemma str_contains_spec (sub s : string) :
  str_contains sub s = true <-> exists l r, s = l +:+ sub +:+ r.
Proof.
  induction s as [|c s IH]; cbn [str_contains].
  - rewrite orb_false_r, prefix_spec. split.
    + intros [rest ->]. by exists "", rest.
    + intros ([|c l] & r & Heq).
      * by exists r.
      * change ("" = String c (l +:+ sub +:+ r)) in Heq. done.
  - rewrite orb_true_iff, IH, prefix_spec. split.
    + intros [[rest ->]|(l & r & ->)].
      * by exists "", rest.
      * by exists (String c l), r.
    + intros ([|c' l] & r & Heq).
      * left. by exists r.
      * change (String c s = String c' (l +:+ sub +:+ r)) in Heq.
        right. injection Heq as -> ->. by exists l, r.
Qed.

Lemma filter_decompose {A} (P : A -> Prop) `{!forall x, Decision (P x)}
    (l l1 l2 : list A) (a : A) :
  filter P l = (l1 ++ a :: l2)%list ->
  exists k1 k2, l = (k1 ++ a :: k2)%list /\ filter P k1 = l1 /\ filter P k2 = l2.
Proof.
  revert l1. induction l as [|x l IH]; intros l1 Hf.
  - by destruct l1.
  - rewrite filter_cons in Hf. destruct (decide (P x)) as [HP|HP].
    + destruct l1 as [|y l1]; simpl in Hf.
      * injection Hf as -> Hf. exists [], l. done.
      * injection Hf as -> Hf. destruct (IH _ Hf) as (k1 & k2 & -> & <- & <-).
        exists (y :: k1), k2. by rewrite filter_cons_True by done.
    + destruct (IH _ Hf) as (k1 & k2 & -> & <- & <-).
      exists (x :: k1), k2. by rewrite filter_cons_False by done.
Qed.

Lemma distinct_first_appearance (xs l1 l2 : list string) (a b : string) :
  distinct xs = (l1 ++ a :: l2)%list -> b ∈ l2 ->
  exists pre post, xs = (pre ++ a :: post)%list /\ (a ∉ pre) /\ (b ∉ pre).
Proof.
  revert l1 l2. induction xs as [|x xs IH]; intros l1 l2 Hd Hb; simpl in Hd.
  - by destruct l1.
  - destruct l1 as [|y l1]; simpl in Hd.
    + injection Hd as -> Hd. exists [], xs. split; [done|].
      split; apply not_elem_of_nil.
    + injection Hd as -> Hd.
      assert (Hax : a ≠ y).
      { assert (Hin : a ∈ filter (fun z => z ≠ y) (distinct xs)).
        { rewrite Hd. apply elem_of_app. right. apply list_elem_of_here. }
        by apply list_elem_of_filter in Hin as [? _]. }
      apply filter_decompose in Hd as (k1 & k2 & Hk & <- & <-).
      apply list_elem_of_filter in Hb as [Hbx Hb].
      destruct (IH _ _ Hk Hb) as (pre & post & -> & Ha & Hb').
      exists (y :: pre), post. split; [done|].
      split; apply not_elem_of_cons; done.
Qed.

(** ** The tape-driven shuffle *)

Lemma swap_decomposed (l1 l2 l3 : list nat) (a b : nat) :
  <[length l1 := b]>
    (<[length l1 + S (length l2) := a]> (l1 ++ a :: l2 ++ b :: l3)%list)
  = (l1 ++ b :: l2 ++ a :: l3)%list.
Proof.
  induction l1 as [|y l1 IH]; simpl; [|by rewrite IH].
  f_equal. induction l2 as [|y l2 IH]; simpl; [done | by rewrite IH].
Qed.

Lemma swap_lt_Permutation (i j : nat) (a b : nat) (x : list nat) :
  i < j -> x !! i = Some a -> x !! j = Some b ->
  <[i := b]> (<[j := a]> x) ≡ₚ x.
Proof.
  intros Hij Ha Hb.
  pose proof (take_drop_middle x i a Ha) as Hx.
  assert (Hb' : drop (S i) x !! (j - S i) = Some b).
  { rewrite lookup_drop. rewrite <- Hb. f_equal. lia. }
  pose proof (take_drop_middle _ _ _ Hb') as Hd.
  assert (Hl1 : length (take i x) = i).
  { rewrite length_take. apply lookup_lt_Some in Ha. lia. }
  assert (Hl2 : length (take (j - S i) (drop (S i) x)) = j - S i).
  { rewrite length_take, length_drop. apply lookup_lt_Some in Hb. lia. }
  rewrite <- Hd in Hx. rewrite <- Hx at 1.
  replace j with (length (take i x) + S (length (take (j - S i) (drop (S i) x))))
    at 1 by lia.
  rewrite <- Hl1 at 1. rewrite swap_decomposed. rewrite <- Hx at 4.
  apply Permutation_app_head.
  rewrite <- !Permutation_middle. apply perm_swap.
Qed.

Lemma swap_Permutation (i j : nat) (x : list nat) : swap i j x ≡ₚ x.
Proof.
  unfold swap. destruct (x !! i) as [a|] eqn:Ha; [|done].
  destruct (x !! j) as [b|] eqn:Hb; [|done].
  destruct (lt_eq_lt_dec i j) as [[Hlt| ->]|Hgt].
  - by apply swap_lt_Permutation.
  - rewrite list_insert_insert_eq. rewrite list_insert_id; [done | congruence].
  - rewrite list_insert_insert_ne by lia. by apply swap_lt_Permutation.
Qed.

Lemma tape_shuffle_permutes : shuffle_permutes tape_shuffle.
Proof.
  intros g l. unfold tape_shuffle. generalize (length l - 1). intros i.
  revert g l. induction i as [|i IH]; intros g l; simpl; [done|].
  rewrite IH. apply swap_Permutation.
Qed.

(** ** The assembled arrays *)

Lemma count_label_repeat (ct c : string) (k : nat) :
  count_label ct (repeat c k) = if decide (c = ct) then k else 0.
Proof.
  unfold count_label. induction k as [|k IH]; simpl.
  - by case_decide.
  - rewrite filter_cons. destruct (decide (c = ct)); simpl; by rewrite IH.
Qed.

Lemma count_label_app (ct : string) (l1 l2 : list string) :
  count_label ct (l1 ++ l2) = count_label ct l1 + count_label ct l2.
Proof. unfold count_label. by rewrite filter_app, length_app. Qed.

Lemma count_label_blocks (ct : string) (f : string -> nat) (l : list string) :
  NoDup l ->
  count_label ct (flat_map (fun '(c, ni) => repeat c ni)
                    (map (fun c => (c, f c)) l))
  = if decide (ct ∈ l) then f ct else 0.
Proof.
  induction l as [|c l IH]; intros Hnd; simpl; [done|].
  apply NoDup_cons in Hnd as [Hc Hnd].
  rewrite count_label_app, count_label_repeat, IH by done.
  destruct (decide (c = ct)) as [->|Hne].
  - rewrite (decide_False (P := ct ∈ l)) by done.
    rewrite decide_True by apply list_elem_of_here. lia.
  - destruct (decide (ct ∈ l)) as [Hin|Hin].
    + by rewrite decide_True by (by apply list_elem_of_further).
    + rewrite decide_False; [done|].
      rewrite elem_of_cons. intros [?|?]; congruence.
Qed.

Lemma count_label_absent (ct : string) (xs : list string) :
  ct ∉ xs -> count_label ct xs = 0.
Proof.
  intros Hct. unfold count_label.
  destruct (filter (fun x => x = ct) xs) as [|y l] eqn:Hf; [done|].
  assert (Hy : y ∈ filter (fun x => x = ct) xs) by (rewrite Hf; apply list_elem_of_here).
  apply list_elem_of_filter in Hy as [-> Hy]. done.
Qed.

Lemma count_label_elem_of (ct : string) (xs : list string) :
  ct ∈ xs <-> 0 < count_label ct xs.
Proof.
  split; [apply count_label_pos|]. intros Hpos.
  destruct (decide (ct ∈ xs)) as [|Hno]; [done|].
  rewrite count_label_absent in Hpos by done. lia.
Qed.

Section Assembled.
Context {rng : Type}.
Variable shuffle : rng -> list nat -> list nat * rng.
Hypothesis shuffle_perm : shuffle_permutes shuffle.

Import AtlasSubsampler.

Lemma assemble_selections (dsl : loom_full) (g : rng) :
  Forall2 (fun '(ct, ni) sel => selection_of (ca_cellType dsl) ct ni sel)
    (quotas (ca_cellType dsl))
    (selections shuffle (ca_cellType dsl) (quotas (ca_cellType dsl)) g).1.
Proof.
  apply selections_spec; [done|].
  eapply Forall_impl; [apply quotas_bounds|]. by intros [ct ni] (_ & _ & _ & ?).
Qed.

Lemma assemble_matrix_length (dsl : loom_full) (g : rng) :
  length (matrix (assemble shuffle dsl g))
  = sum_values (quotas (ca_cellType dsl)).
Proof.
  rewrite sum_values_alt. simpl.
  pose proof (assemble_selections dsl g) as Hsel.
  induction Hsel as [|[ct ni] sel q sels (Hlen & _) Hsel IH]; simpl; [done|].
  by rewrite length_app, length_map, Hlen, IH.
Qed.

Lemma assemble_meta_length (dsl : loom_full) (g : rng) :
  length (meta (assemble shuffle dsl g))
  = sum_values (quotas (ca_cellType dsl)).
Proof.
  rewrite sum_values_alt. simpl.
  induction (quotas (ca_cellType dsl)) as [|[ct ni] q IH]; simpl; [done|].
  by rewrite length_app, repeat_length, IH.
Qed.

Lemma assemble_cnames_length (dsl : loom_full) (g : rng) :
  length (cnames (assemble shuffle dsl g))
  = sum_values (quotas (ca_cellType dsl)).
Proof.
  rewrite sum_values_alt. simpl.
  induction (quotas (ca_cellType dsl)) as [|[ct ni] q IH]; simpl; [done|].
  unfold block_names at 1. by rewrite length_app, length_map, length_seq, IH.
Qed.

Lemma assemble_meta_count (dsl : loom_full) (g : rng) (ct : string) :
  count_label ct (meta (assemble shuffle dsl g))
  = count_label ct (ca_cellType dsl) `min` n.
Proof.
  simpl. rewrite quotas_spec, count_label_blocks by apply distinct_NoDup.
  case_decide as Hin; [done|]. rewrite distinct_elem_of in Hin.
  by rewrite count_label_absent.
Qed.

End Assembled.

Lemma assemble_matrix_columns {rng : Type}
    (shuffle : rng -> list nat -> list nat * rng) (dsl : loom_full) (g : rng)
    (col : list value) :
  shuffle_permutes shuffle ->
  col ∈ AtlasSubsampler.matrix (assemble shuffle dsl g) ->
  exists (k : nat) (ct : string),
    ca_cellType dsl !! k = Some ct /\ col = subsampled_column dsl k.
Proof.
  intros Hperm Hcol. simpl in Hcol.
  pose proof (assemble_selections shuffle Hperm dsl g) as Hsel.
  induction Hsel as [|[ct ni] sel q sels (_ & _ & Hsub & _) Hsel IH];
    simpl in Hcol.
  - by apply elem_of_nil in Hcol.
  - apply elem_of_app in Hcol as [Hcol|Hcol]; [|by apply IH].
    apply list_elem_of_fmap in Hcol as (k & -> & Hk).
    exists k, ct. split; [|done].
    apply nonzero_eq_elem_of. by eapply sublist_subseteq.
Qed.

(** An exportable run can write every export: the assembled arrays keep
    a feature, every export keeps a column, and every column is finite. *)
Lemma processes_writable {rng : Type}
    (shuffle : rng -> list nat -> list nat * rng)
    (nm : string) (ts : option string) (ov : bool) (dsl : loom_full)
    (w : AtlasSubsampler.world rng) :
  shuffle_permutes shuffle ->
  processes nm ts ov dsl w ->
  Forall (writable (AtlasSubsampler.init nm ts ov)
            (AtlasSubsampler.atlas_metadata w)
            (assemble shuffle dsl (AtlasSubsampler.random_state w)))
    (AtlasSubsampler.filters (AtlasSubsampler.init nm ts ov)).
Proof.
  intros Hperm (_ & _ & Hne & (fea & Hfea & Hkeep) & Hpass & Hfin
                & records & Hmd & Hrec).
  set (g := AtlasSubsampler.random_state w).
  assert (Hcols : Forall (Forall (fun v => is_finite v = true))
                    (AtlasSubsampler.matrix (assemble shuffle dsl g))).
  { apply Forall_forall. intros col Hcol.
    destruct (assemble_matrix_columns shuffle dsl g col Hperm Hcol)
      as (k & ct & Hk & ->).
    apply Hfin. by eapply lookup_lt_Some. }
  apply Forall_forall. intros [filtname fun_] He.
  eapply Forall_forall in Hpass; [|exact He].
  eapply Forall_forall in Hrec; [|exact He].
  destruct Hpass as (ct & Hct & Hf). unfold writable. cbn [fst snd] in *.
  split; [by exists records|]. split.
  { cbn [assemble AtlasSubsampler.features]. intros Hnil.
    assert (Hin : fea ∈ filter (fun fea => fea_bool fea = true)
                          (ra_GeneName dsl))
      by (by apply list_elem_of_filter).
    rewrite Hnil in Hin. by apply elem_of_nil in Hin. }
  assert (Hmeta : ct ∈ AtlasSubsampler.meta (assemble shuffle dsl g)).
  { apply count_label_elem_of. rewrite (assemble_meta_count shuffle).
    apply count_label_pos in Hct. unfold AtlasSubsampler.n. lia. }
  unfold variant_file. destruct fun_ as [f|]; cbn [layer passes] in *.
  - split.
    + intros Hnil.
      assert (Hlen : length (mask_select
                               (map f (AtlasSubsampler.meta
                                         (assemble shuffle dsl g)))
                               (AtlasSubsampler.meta
                                  (assemble shuffle dsl g))) = 0).
      { erewrite mask_select_length; [by rewrite Hnil|].
        by rewrite (assemble_meta_length shuffle),
          (assemble_matrix_length shuffle Hperm). }
      rewrite mask_select_map_pred in Hlen.
      assert (Hin : ct ∈ filter (fun x => f x = true)
                           (AtlasSubsampler.meta (assemble shuffle dsl g)))
        by (by apply list_elem_of_filter).
      destruct (filter _ _); [by apply elem_of_nil in Hin | done].
    + apply Forall_forall. intros col Hcol.
      eapply Forall_forall in Hcols; [exact Hcols|].
      eapply sublist_subseteq; [apply mask_select_sublist | exact Hcol].
  - split; [|exact Hcols]. intros Hnil.
    pose proof (assemble_matrix_length shuffle Hperm dsl g) as Hm.
    pose proof (assemble_meta_length shuffle dsl g) as Hl.
    rewrite Hnil in Hm. rewrite <- Hm in Hl.
    destruct (AtlasSubsampler.meta (assemble shuffle dsl g));
      [by apply elem_of_nil in Hmeta | done].
Qed.

Section Output.
Context {rng : Type}.
Variable shuffle : rng -> list nat -> list nat * rng.
Hypothesis shuffle_perm : shuffle_permutes shuffle.

Import AtlasSubsampler.

(** What a run leaves in the output directory and in the trace. *)
Lemma process_atlas_output (nm : string) (ts : option string) (ov : bool)
    (dsl : loom_full) (w : world rng) :
  processes nm ts ov dsl w ->
  exists w',
    process_atlas shuffle (init nm ts ov) w = (inr tt, w')
    /\ (forall e : string * option (string -> bool),
          e ∈ filters (init nm ts ov) ->
          subsamples w' !! output_path (init nm ts ov) e.1
          = Some (variant_file (init nm ts ov) (atlas_metadata w)
                    (assemble shuffle dsl (random_state w)) e.1 e.2))
    /\ trace w'
       = (trace w
          ++ Connect (get_full_filename nm ts)
             :: flat_map (fun e : string * option (string -> bool) =>
                            [LoadMetadata;
                             Create (output_path (init nm ts ov) e.1)])
                  (filters (init nm ts ov)))%list
    /\ (forall fn : string,
          Forall (fun e : string * option (string -> bool) =>
                    fn ≠ output_path (init nm ts ov) e.1)
            (filters (init nm ts ov)) ->
          subsamples w' !! fn = subsamples w !! fn).
Proof.
  intros Hrun. pose proof (processes_writable shuffle nm ts ov dsl w
                             shuffle_perm Hrun) as Hok.
  destruct Hrun as (Hgo & Hfile & Hne & _). eexists. split.
  { by apply process_atlas_run. }
  split; [|split].
  - intros e He. rewrite write_variants_lookup;
      [done | apply output_paths_init_NoDup | done].
  - rewrite write_variants_trace. simpl. by rewrite <- app_assoc.
  - intros fn Hfn. by rewrite write_variants_frame.
Qed.
End Output.

(** The arrays with which the export loop starts are those that the
    [with] block returns once the full matrix has been opened. *)
Lemma read_data_after_connect {rng : Type}
    (shuffle : rng -> list nat -> list nat * rng) (fn : string)
    (dsl : loom_full) (w : AtlasSubsampler.world rng) :
  shuffle_permutes shuffle ->
  ca_cellType dsl ≠ [] ->
  exists w1,
    AtlasSubsampler.read_data shuffle dsl (AtlasSubsampler.log (Connect fn) w)
    = (inr (assemble shuffle dsl (AtlasSubsampler.random_state w)), w1).
Proof.
  intros Hperm Hne. eexists.
  by rewrite (read_data_spec shuffle Hperm) by done.
Qed.

(** ** The worked example *)

(** The finiteness of the normalised columns can be checked by
    evaluation. *)
Lemma finite_columns_check (dsl : loom_full) :
  forallb (fun k => forallb is_finite (subsampled_column dsl k))
    (seq 0 (length (ca_cellType dsl))) = true ->
  forall k, k < length (ca_cellType dsl) ->
    Forall (fun v => is_finite v = true) (subsampled_column dsl k).
Proof.
  intros Hall k Hk. apply Forall_forall. intros v Hv.
  rewrite forallb_forall in Hall.
  specialize (Hall k). rewrite forallb_forall in Hall.
  apply Hall; [|by apply list_elem_of_In].
  apply in_seq. lia.
Defined.

Lemma example_exportable (ov : bool) :
  exportable (AtlasSubsampler.init "Darmanis_2015" None ov) Example.dsl
    Example.w.
Proof.
  split; [|split; [|split]].
  - exists "G1". split; [apply list_elem_of_here | reflexivity].
  - repeat constructor; exists "A";
      (split; [apply list_elem_of_here | reflexivity]).
  - apply finite_columns_check. by vm_compute.
  - eexists. split; [reflexivity|].
    repeat constructor; by vm_compute.
Defined.

Lemma example_processes :
  processes "Darmanis_2015" None false Example.dsl Example.w.
Proof.
  split; [right | split; [|split]].
  - intros Hall. apply Forall_inv in Hall. destruct Hall as [out Hout].
    vm_compute in Hout. discriminate.
  - reflexivity.
  - discriminate.
  - apply example_exportable.
Defined.

Lemma small_processes :
  processes "Small_2020" (Some "blood") false ExampleSmall.dsl ExampleSmall.w.
Proof.
  split; [right | split; [|split]].
  - intros Hall. apply Forall_inv in Hall. destruct Hall as [out Hout].
    vm_compute in Hout. discriminate.
  - reflexivity.
  - discriminate.
  - split; [|split; [|split]].
    + exists "Actb". split; [apply list_elem_of_here | reflexivity].
    + repeat constructor. exists "T".
      split; [apply list_elem_of_here | reflexivity].
    + apply finite_columns_check. by vm_compute.
    + eexists. split; [reflexivity|]. repeat constructor. by vm_compute.
Defined.

Lemma reseeded_processes :
  processes "Small_2020" (Some "blood") false ExampleSmall.dsl
    ExampleSmall.w_reseeded.
Proof.
  split; [right | split; [|split]].
  - intros Hall. apply Forall_inv in Hall. destruct Hall as [out Hout].
    vm_compute in Hout. discriminate.
  - reflexivity.
  - discriminate.
  - split; [|split; [|split]].
    + exists "Actb". split; [apply list_elem_of_here | reflexivity].
    + repeat constructor. exists "T".
      split; [apply list_elem_of_here | reflexivity].
    + apply finite_columns_check. by vm_compute.
    + eexists. split; [reflexivity|]. repeat constructor. by vm_compute.
Defined.

(** ** Properties of the exporter *)

(** C1.  After an exportable run of [process_atlas], the file of the
    default export has, for every cell type [ct], exactly [min (count of
    ct in the full matrix) 20] columns labelled [ct]; the quota mapping
    is that minimum for each type; and the number [N] of output columns
    is the sum of the quotas. *)
Theorem quota_columns_per_cell_type {rng : Type}
    (shuffle : rng -> list nat -> list nat * rng)
    (nm : string) (ts : option string) (ov : bool) (dsl : loom_full)
    (w : AtlasSubsampler.world rng) :
  shuffle_permutes shuffle ->
  processes nm ts ov dsl w ->
  exists w' out,
    AtlasSubsampler.process_atlas shuffle (AtlasSubsampler.init nm ts ov) w
    = (inr tt, w')
    /\ AtlasSubsampler.subsamples w'
         !! output_path (AtlasSubsampler.init nm ts ov) "" = Some out
    /\ quotas (ca_cellType dsl)
       = map (fun ct => (ct, count_label ct (ca_cellType dsl) `min` 20))
           (distinct (ca_cellType dsl))
    /\ (forall ct : string,
          count_label ct (CellType out)
          = count_label ct (ca_cellType dsl) `min` 20)
    /\ length (layer out) = sum_values (quotas (ca_cellType dsl))
    /\ length (CellType out) = sum_values (quotas (ca_cellType dsl))
    /\ length (CellName out) = sum_values (quotas (ca_cellType dsl)).
Proof.
  intros Hperm Hrun.
  destruct (process_atlas_output shuffle Hperm nm ts ov dsl w Hrun)
    as (w' & Hw' & Hout & _).
  specialize (Hout ("", None) (default_filter_init nm ts ov)).
  eexists w', _. split; [exact Hw'|]. split; [exact Hout|].
  split; [apply quotas_spec|].
  unfold variant_file. cbn [layer CellType CellName].
  split; [|split; [|split]].
  - intros ct. apply (assemble_meta_count shuffle).
  - apply (assemble_matrix_length shuffle Hperm).
  - apply (assemble_meta_length shuffle).
  - apply (assemble_cnames_length shuffle).
Qed.

Lemma quota_columns_per_cell_type_witness :
  shuffle_permutes tape_shuffle
  /\ processes "Darmanis_2015" None false Example.dsl Example.w
  /\ exists w' out,
       AtlasSubsampler.process_atlas tape_shuffle
         (AtlasSubsampler.init "Darmanis_2015" None false) Example.w
       = (inr tt, w')
       /\ AtlasSubsampler.subsamples w'
            !! output_path (AtlasSubsampler.init "Darmanis_2015" None false) ""
          = Some out
       /\ quotas (ca_cellType Example.dsl)
          = map (fun ct => (ct, count_label ct (ca_cellType Example.dsl) `min` 20))
              (distinct (ca_cellType Example.dsl))
       /\ (forall ct : string,
             count_label ct (CellType out)
             = count_label ct (ca_cellType Example.dsl) `min` 20)
       /\ length (layer out) = sum_values (quotas (ca_cellType Example.dsl))
       /\ length (CellType out) = sum_values (quotas (ca_cellType Example.dsl))
       /\ length (CellName out) = sum_values (quotas (ca_cellType Example.dsl)).
Proof.
  split; [exact tape_shuffle_permutes|]. split; [exact example_processes|].
  exact (quota_columns_per_cell_type tape_shuffle "Darmanis_2015" None false
           Example.dsl Example.w tape_shuffle_permutes example_processes).
Defined.

Lemma retained_column_length (dsl : loom_full) (k : nat) :
  length (retained_column dsl k)
  = length (filter (fun fea => fea_bool fea = true) (ra_GeneName dsl)).
Proof.
  unfold retained_column, AtlasSubsampler.feature_mask.
  rewrite length_map, mask_select_length_pred; [done|].
  unfold full_column. by rewrite length_map, length_seq.
Qed.

Lemma subsampled_column_length (dsl : loom_full) (k : nat) :
  length (subsampled_column dsl k)
  = length (filter (fun fea => fea_bool fea = true) (ra_GeneName dsl)).
Proof.
  unfold subsampled_column.
  by rewrite normalize_column_length, retained_column_length.
Qed.

(** A finite normalised column was not divided by zero. *)
Lemma normalize_column_sum_nonzero (xs ys : list Q) (s : Q) :
  xs ≠ [] ->
  sum32 (map Finite xs) = Finite s ->
  normalize_column (map Finite xs) = map Finite ys ->
  ~ (s == 0)%Q.
Proof.
  intros Hne Hs Hys Hz. unfold normalize_column in Hys. rewrite Hs in Hys.
  destruct xs as [|x xs], ys as [|y ys]; try done.
  pose proof (f_equal (fun l => nth 0 l NaN) Hys) as Hy.
  cbn [map nth div32] in Hy.
  rewrite (proj2 (Qeq_bool_iff s 0) Hz) in Hy.
  change (Qeq_bool million 0) with false in Hy. cbn [mul32] in Hy.
  by destruct (Qeq_bool x 0).
Qed.

Lemma retained_column_nonneg (dsl : loom_full) (k : nat) (xs : list Q) :
  (forall r k, (0 <= layer_at dsl r k)%Q) ->
  retained_column dsl k = map Finite xs ->
  Forall (fun x => (0 <= x)%Q) xs.
Proof.
  intros Hnn. apply round32_column_nonneg.
  apply Forall_forall. intros q Hq.
  eapply sublist_subseteq in Hq; [|apply mask_select_sublist].
  unfold full_column in Hq.
  apply list_elem_of_In, in_map_iff in Hq as (r & <- & _). apply Hnn.
Qed.

(** C2, as stated, fails: float32 arithmetic rounds.  In the run on
    [ExampleSmall.w] the cell of index 1, whose retained rows hold the
    counts 1 and 5, is the column of index 3 of the default export; its
    entries are not [1e6/6] and [5e6/6], and they sum to 1,000,000.046875
    exactly and to 1,000,000.0625 in float32. *)
Lemma exact_million_fails_example :
  exists w' out col,
    AtlasSubsampler.process_atlas tape_shuffle
      (AtlasSubsampler.init "Small_2020" (Some "blood") false) ExampleSmall.w
    = (inr tt, w')
    /\ AtlasSubsampler.subsamples w'
         !! "../data/subsamples/Small_2020_blood.loom" = Some out
    /\ retained_column ExampleSmall.dsl 1 = [Finite 1; Finite 5]
    /\ layer out !! 3 = Some col
    /\ col = normalize_column [Finite 1; Finite 5]
    /\ col = [Finite (10666667 # 64); Finite (6666667 # 8)]
    /\ ~ (10666667 # 64 == 1 / 6 * 1000000)%Q
    /\ value_sum col = Some (512000024 # 512)
    /\ ~ (512000024 # 512 == 1000000)%Q
    /\ sum32 col = Finite (16000001 # 16)
    /\ ~ (16000001 # 16 == 1000000)%Q.
Proof.
  destruct (process_atlas_output tape_shuffle tape_shuffle_permutes
              "Small_2020" (Some "blood") false ExampleSmall.dsl
              ExampleSmall.w small_processes) as (w' & Hw' & Hout & _).
  specialize (Hout ("", None)
                (default_filter_init "Small_2020" (Some "blood") false)).
  eexists w', _, _. split; [exact Hw'|]. split; [exact Hout|].
  split; [by vm_compute|]. split; [by vm_compute|].
  repeat split; by vm_compute.
Qed.

(** C2, amended.  In the matrix of the default export, every column is
    the normalisation of the retained rows, as float32, of one column of
    the full matrix, computed from that column alone.  When the values of
    the full matrix are not negative, there are at most [2^22] features
    and the float32 sum of the column is finite, that sum is not zero,
    every entry is the original entry divided by the exact sum of the
    column and multiplied by 1e6, up to the relative tolerance
    [(L + 4) / 2^23] for [L] rows and the absolute [2^-150], and the
    column sums to 1,000,000 up to that tolerance and [L * 2^-150]. *)
Theorem normalized_columns_sum_to_million {rng : Type}
    (shuffle : rng -> list nat -> list nat * rng)
    (nm : string) (ts : option string) (ov : bool) (dsl : loom_full)
    (w : AtlasSubsampler.world rng) :
  shuffle_permutes shuffle ->
  processes nm ts ov dsl w ->
  (forall r k, (0 <= layer_at dsl r k)%Q) ->
  (Z.of_nat (length (ra_GeneName dsl)) <= 4194304)%Z ->
  exists w' out,
    AtlasSubsampler.process_atlas shuffle (AtlasSubsampler.init nm ts ov) w
    = (inr tt, w')
    /\ AtlasSubsampler.subsamples w'
         !! output_path (AtlasSubsampler.init nm ts ov) "" = Some out
    /\ forall (j : nat) (col : list value),
         layer out !! j = Some col ->
         exists (k : nat) (ct : string) (xs ys : list Q),
           ca_cellType dsl !! k = Some ct
           /\ retained_column dsl k = map Finite xs
           /\ col = normalize_column (map Finite xs)
           /\ col = map Finite ys
           /\ forall s : Q,
                sum32 (map Finite xs) = Finite s ->
                ~ (s == 0)%Q
                /\ (0 < column_sum xs)%Q
                /\ Forall2
                     (fun x y =>
                        (Qabs (y - million * x / column_sum xs)
                         <= tolerance (length xs)
                            * (million * x / column_sum xs) + tiny)%Q)
                     xs ys
                /\ (Qabs (column_sum ys - million)
                    <= tolerance (length xs) * million
                       + inject_Z (Z.of_nat (length xs)) * tiny)%Q.
Proof.
  intros Hperm Hrun Hnn HL.
  destruct (process_atlas_output shuffle Hperm nm ts ov dsl w Hrun)
    as (w' & Hw' & Hout & _).
  specialize (Hout ("", None) (default_filter_init nm ts ov)).
  destruct Hrun as (_ & _ & _ & (fea & Hfea & Hkeep) & _ & Hfin & _).
  eexists w', _. split; [exact Hw'|]. split; [exact Hout|].
  unfold variant_file. cbn [layer]. intros j col Hj.
  apply list_elem_of_lookup_2 in Hj.
  destruct (assemble_matrix_columns shuffle dsl _ col Hperm Hj)
    as (k & ct & Hk & ->).
  specialize (Hfin k (lookup_lt_Some _ _ _ Hk)).
  destruct (normalize_column_finite_inv _ Hfin) as (xs & ys & Hxs & Hys).
  unfold subsampled_column. rewrite Hxs in Hys |- *.
  exists k, ct, xs, ys. split; [done|]. split; [done|]. split; [done|].
  split; [done|]. intros s Hs.
  assert (Hlen : length xs
                 = length (filter (fun fea => fea_bool fea = true)
                             (ra_GeneName dsl))).
  { by rewrite <- (retained_column_length dsl k), Hxs, length_map. }
  assert (Hne : xs ≠ []).
  { intros ->. cbn [length] in Hlen.
    assert (Hin : fea ∈ filter (fun fea => fea_bool fea = true)
                          (ra_GeneName dsl))
      by (by apply list_elem_of_filter).
    destruct (filter _ _); [by apply elem_of_nil in Hin | done]. }
  pose proof (normalize_column_sum_nonzero xs ys s Hne Hs Hys) as Hs0.
  split; [exact Hs0|].
  apply (normalize_column_accuracy xs ys s); try done.
  - by eapply retained_column_nonneg.
  - unfold retained_column in Hxs. by eapply round32_column_representable.
  - pose proof (length_filter (fun fea => fea_bool fea = true)
                  (ra_GeneName dsl)). lia.
Qed.

Lemma normalized_columns_sum_to_million_witness :
  exists w' out,
    AtlasSubsampler.process_atlas tape_shuffle
      (AtlasSubsampler.init "Darmanis_2015" None false) Example.w
    = (inr tt, w')
    /\ AtlasSubsampler.subsamples w'
         !! "../data/subsamples/Darmanis_2015.loom" = Some out
    /\ forall (j : nat) (col : list value),
         layer out !! j = Some col ->
         exists (k : nat) (ct : string) (xs ys : list Q),
           ca_cellType Example.dsl !! k = Some ct
           /\ retained_column Example.dsl k = map Finite xs
           /\ col = normalize_column (map Finite xs)
           /\ col = map Finite ys
           /\ forall s : Q,
                sum32 (map Finite xs) = Finite s ->
                ~ (s == 0)%Q
                /\ (0 < column_sum xs)%Q
                /\ Forall2
                     (fun x y =>
                        (Qabs (y - million * x / column_sum xs)
                         <= tolerance (length xs)
                            * (million * x / column_sum xs) + tiny)%Q)
                     xs ys
                /\ (Qabs (column_sum ys - million)
                    <= tolerance (length xs) * million
                       + inject_Z (Z.of_nat (length xs)) * tiny)%Q.
Proof.
  apply (normalized_columns_sum_to_million tape_shuffle "Darmanis_2015" None
           false Example.dsl Example.w tape_shuffle_permutes
           example_processes).
  - intros r k. unfold Example.dsl, layer_at, Qle, inject_Z. simpl. lia.
  - by vm_compute.
Defined.

Lemma fea_bool_spec (fea : string) :
  fea_bool fea = true
  <-> (fea ∉ [ "too_low_aQual"; "alignment_not_unique"; "ambiguous";
               "no_feature"; "not_aligned" ])
      /\ (forall rest, fea ≠ "ERCC-" +:+ rest)
      /\ (forall rest, fea ≠ "_" +:+ rest).
Proof.
  unfold fea_bool. rewrite !andb_true_iff, !negb_true_iff.
  rewrite bool_decide_eq_false.
  assert (Hpre : forall p, String.prefix p fea = false
                           <-> forall rest, fea ≠ p +:+ rest).
  { intros p. rewrite <- not_true_iff_false, prefix_spec. split.
    - intros Hno rest ->. apply Hno. by exists rest.
    - intros Hno [rest ->]. by apply (Hno rest). }
  rewrite !Hpre. unfold exclude_list. tauto.
Qed.

(** C3.  A feature name passes the mask exactly when it is none of the
    five bookkeeping names and starts neither with ["ERCC-"] nor with
    ["_"]; the mask is that test applied to every name of the full
    matrix; and every export written by an exportable run carries as
    [GeneName] the names that pass, in their original order, of which
    there is at least one, and a matrix with at least one column, whose
    columns all have that many rows. *)
Theorem feature_mask_retains {rng : Type}
    (shuffle : rng -> list nat -> list nat * rng)
    (nm : string) (ts : option string) (ov : bool) (dsl : loom_full)
    (w : AtlasSubsampler.world rng) :
  shuffle_permutes shuffle ->
  processes nm ts ov dsl w ->
  (forall fea : string,
     fea_bool fea = true
     <-> (fea ∉ [ "too_low_aQual"; "alignment_not_unique"; "ambiguous";
                  "no_feature"; "not_aligned" ])
         /\ (forall rest, fea ≠ "ERCC-" +:+ rest)
         /\ (forall rest, fea ≠ "_" +:+ rest))
  /\ AtlasSubsampler.feature_mask (ra_GeneName dsl)
     = map fea_bool (ra_GeneName dsl)
  /\ exists w',
       AtlasSubsampler.process_atlas shuffle (AtlasSubsampler.init nm ts ov) w
       = (inr tt, w')
       /\ forall e : string * option (string -> bool),
            e ∈ AtlasSubsampler.filters (AtlasSubsampler.init nm ts ov) ->
            exists out,
              AtlasSubsampler.subsamples w'
                !! output_path (AtlasSubsampler.init nm ts ov) e.1 = Some out
              /\ GeneName out
                 = filter (fun fea => fea_bool fea = true) (ra_GeneName dsl)
              /\ GeneName out ≠ []
              /\ layer out ≠ []
              /\ Forall (fun col => length col = length (GeneName out))
                   (layer out).
Proof.
  intros Hperm Hrun. split; [apply fea_bool_spec|]. split; [done|].
  destruct (process_atlas_output shuffle Hperm nm ts ov dsl w Hrun)
    as (w' & Hw' & Hout & _).
  pose proof (processes_writable shuffle nm ts ov dsl w Hperm Hrun) as Hok.
  exists w'. split; [exact Hw'|]. intros e He.
  eapply Forall_forall in Hok; [|exact He].
  destruct Hok as (_ & Hfea & Hlayer & _).
  eexists. split; [by apply Hout|].
  split; [by unfold variant_file; destruct e.2|].
  split; [by unfold variant_file; destruct e.2|].
  split; [exact Hlayer|].
  assert (Hcols : Forall
    (fun col => length col
       = length (filter (fun fea => fea_bool fea = true) (ra_GeneName dsl)))
    (AtlasSubsampler.matrix
       (assemble shuffle dsl (AtlasSubsampler.random_state w)))).
  { apply Forall_forall. intros col Hcol.
    destruct (assemble_matrix_columns shuffle dsl _ col Hperm Hcol)
      as (k & ct & _ & ->).
    apply subsampled_column_length. }
  unfold variant_file. destruct e.2 as [f|]; cbn [GeneName layer]; [|done].
  eapply Forall_forall. intros col Hcol.
  eapply Forall_forall in Hcols; [exact Hcols|].
  eapply sublist_subseteq; [apply mask_select_sublist | exact Hcol].
Qed.

Lemma feature_mask_retains_witness :
  shuffle_permutes tape_shuffle
  /\ processes "Darmanis_2015" None false Example.dsl Example.w
  /\ exists w',
       AtlasSubsampler.process_atlas tape_shuffle
         (AtlasSubsampler.init "Darmanis_2015" None false) Example.w
       = (inr tt, w')
       /\ forall e : string * option (string -> bool),
            e ∈ AtlasSubsampler.filters
                  (AtlasSubsampler.init "Darmanis_2015" None false) ->
            exists out,
              AtlasSubsampler.subsamples w'
                !! output_path (AtlasSubsampler.init "Darmanis_2015" None false)
                     e.1 = Some out
              /\ GeneName out
                 = filter (fun fea => fea_bool fea = true)
                     (ra_GeneName Example.dsl)
              /\ GeneName out ≠ []
              /\ layer out ≠ []
              /\ Forall (fun col => length col = length (GeneName out))
                   (layer out).
Proof.
  split; [exact tape_shuffle_permutes|]. split; [exact example_processes|].
  exact (proj2 (proj2 (feature_mask_retains tape_shuffle "Darmanis_2015" None
           false Example.dsl Example.w tape_shuffle_permutes
           example_processes))).
Defined.



(** ** The main loop *)

Section MainLoop.
Context {rng : Type}.
Variable shuffle : rng -> list nat -> list nat * rng.

Import AtlasSubsampler.

Lemma for_each_app {A} (xs ys : list A) (body : A -> M rng unit)
    (w : world rng) :
  for_each (xs ++ ys) body w
  = match for_each xs body w with
    | (inl e, w') => (inl e, w')
    | (inr _, w') => for_each ys body w'
    end.
Proof.
  revert w. induction xs as [|x xs IH]; intros w; simpl; [done|].
  unfold bind. destruct (body x w) as [[e|[]] w']; [done|]. apply IH.
Qed.

Lemma for_each_fmap {A B} (g : A -> B) (xs : list A) (body : B -> M rng unit)
    (w : world rng) :
  for_each (map g xs) body w = for_each xs (fun x => body (g x)) w.
Proof.
  revert w. induction xs as [|x xs IH]; intros w; simpl; [done|].
  unfold bind. destruct (body (g x) w) as [[e|[]] w']; [done|]. apply IH.
Qed.

(** The two nested loops visit the pairs of the selected datasets in
    order. *)
Lemma main_pairs (datasets : list (string * list (option string)))
    (dataset_arg : option (list string)) (ov : bool) (w : world rng) :
  main shuffle datasets dataset_arg ov w
  = for_each (pairs (selected datasets dataset_arg))
      (fun '(dsname, tissue) => process_atlas shuffle (init dsname tissue ov))
      w.
Proof.
  unfold main. fold (selected datasets dataset_arg).
  generalize (selected datasets dataset_arg). clear datasets dataset_arg.
  intros datasets. revert w.
  induction datasets as [|[dsname tissues] datasets IH]; intros w; [done|].
  simpl. rewrite for_each_app, for_each_fmap. unfold bind.
  destruct (for_each tissues _ w) as [[e|[]] w']; [done|]. apply IH.
Qed.

(** A loop stops at the first iteration that raises. *)
Lemma for_each_raise {A} (xs ys : list A) (x : A) (body : A -> M rng unit)
    (w w1 w2 : world rng) (e : error) :
  for_each xs body w = (inr tt, w1) ->
  body x w1 = (inl e, w2) ->
  for_each (xs ++ x :: ys) body w = (inl e, w2).
Proof.
  intros Hxs Hx. rewrite for_each_app, Hxs. simpl. unfold bind.
  by rewrite Hx.
Qed.
End MainLoop.

(** C5, as stated, fails.  With the two pairs of [Example.datasets] and
    only the second full matrix on disk, processing the first pair raises;
    the run ends with that error and the world untouched: the second
    pair, which on its own is processed and written, is never opened. *)
Lemma failure_skips_later_pairs_example :
  pairs (selected Example.datasets None)
  = [("Broken_2000", None); ("Darmanis_2015", None)]
  /\ AtlasSubsampler.process_atlas tape_shuffle
       (AtlasSubsampler.init "Broken_2000" None true) Example.w
     = (inl (FileNotFoundError "../data_full/Broken_2000/dataset.loom"),
        Example.w)
  /\ AtlasSubsampler.main tape_shuffle Example.datasets None true Example.w
     = (inl (FileNotFoundError "../data_full/Broken_2000/dataset.loom"),
        Example.w)
  /\ (Connect "../data_full/Darmanis_2015/dataset.loom"
      ∉ AtlasSubsampler.trace
          (AtlasSubsampler.main tape_shuffle Example.datasets None true
             Example.w).2)
  /\ AtlasSubsampler.subsamples
       (AtlasSubsampler.main tape_shuffle Example.datasets None true
          Example.w).2
       !! "../data/subsamples/Darmanis_2015.loom" = None
  /\ exists w',
       AtlasSubsampler.process_atlas tape_shuffle
         (AtlasSubsampler.init "Darmanis_2015" None true) Example.w
       = (inr tt, w')
       /\ (Connect "../data_full/Darmanis_2015/dataset.loom"
           ∈ AtlasSubsampler.trace w')
       /\ is_Some (AtlasSubsampler.subsamples w'
                     !! "../data/subsamples/Darmanis_2015.loom").
Proof.
  assert (Hfirst :
    AtlasSubsampler.process_atlas tape_shuffle
      (AtlasSubsampler.init "Broken_2000" None true) Example.w
    = (inl (FileNotFoundError "../data_full/Broken_2000/dataset.loom"),
       Example.w)) by reflexivity.
  assert (Hmain :
    AtlasSubsampler.main tape_shuffle Example.datasets None true Example.w
    = (inl (FileNotFoundError "../data_full/Broken_2000/dataset.loom"),
       Example.w)).
  { rewrite main_pairs.
    apply (for_each_raise [] [("Darmanis_2015", None)] ("Broken_2000", None)
             _ Example.w Example.w Example.w); [reflexivity | exact Hfirst]. }
  split; [reflexivity|]. split; [exact Hfirst|]. split; [exact Hmain|].
  rewrite Hmain. split; [apply not_elem_of_nil|]. split; [reflexivity|].
  assert (Hrun : processes "Darmanis_2015" None true Example.dsl Example.w).
  { split; [by left|]. split; [reflexivity|].
    split; [discriminate | apply example_exportable]. }
  destruct (process_atlas_output tape_shuffle tape_shuffle_permutes _ _ _ _ _
              Hrun) as (w' & Hw' & Hout & Htr & _).
  exists w'. split; [exact Hw'|]. split.
  - rewrite Htr. apply list_elem_of_here.
  - eexists.
    exact (Hout ("", None) (default_filter_init "Darmanis_2015" None true)).
Qed.

(** C5, amended.  An error raised while a pair is processed ends the run
    with that error, in the world in which it was raised: the pairs
    before it have been processed, and whatever pairs come after it have
    no part in the outcome. *)
Theorem failure_ends_the_run {rng : Type}
    (shuffle : rng -> list nat -> list nat * rng)
    (datasets : list (string * list (option string)))
    (dataset_arg : option (list string)) (ov : bool)
    (before after : list (string * option string))
    (dsname : string) (tissue : option string)
    (w w1 w2 : AtlasSubsampler.world rng) (e : error) :
  pairs (selected datasets dataset_arg)
  = (before ++ (dsname, tissue) :: after)%list ->
  AtlasSubsampler.for_each before
    (fun '(dsname, tissue) =>
       AtlasSubsampler.process_atlas shuffle
         (AtlasSubsampler.init dsname tissue ov)) w
  = (inr tt, w1) ->
  AtlasSubsampler.process_atlas shuffle
    (AtlasSubsampler.init dsname tissue ov) w1 = (inl e, w2) ->
  AtlasSubsampler.main shuffle datasets dataset_arg ov w = (inl e, w2).
Proof.
  intros Hpairs Hbefore Hfail. rewrite main_pairs, Hpairs.
  by eapply for_each_raise.
Qed.

Lemma failure_ends_the_run_witness :
  AtlasSubsampler.main tape_shuffle Example.datasets None true Example.w
  = (inl (FileNotFoundError "../data_full/Broken_2000/dataset.loom"),
     Example.w).
Proof.
  apply (failure_ends_the_run tape_shuffle Example.datasets None true
           [] [("Darmanis_2015", None)] "Broken_2000" None
           Example.w Example.w Example.w); reflexivity.
Defined.

Lemma flat_map_fmap {A B C} (g : A -> B) (h : B -> list C) (l : list A) :
  flat_map h (map g l) = flat_map (fun x => h (g x)) l.
Proof. induction l as [|x l IH]; simpl; [done | by rewrite IH]. Qed.

(** C6.  In the default export of an exportable run the columns come in
    one block per cell type, the blocks in the order in which the types
    first appear in the [cellType] column of the full matrix.  The block of [ct] holds
    [quota ct] columns labelled [ct] and named [ct_1], [ct_2], ...; its
    columns are those of a selection of the type's column indices: the
    first [quota ct] entries of a rearrangement of these indices, put
    back in ascending order. *)
Theorem blocks_in_first_appearance_order {rng : Type}
    (shuffle : rng -> list nat -> list nat * rng)
    (nm : string) (ts : option string) (ov : bool) (dsl : loom_full)
    (w : AtlasSubsampler.world rng) :
  shuffle_permutes shuffle ->
  processes nm ts ov dsl w ->
  exists w' out (sels : list (list nat)),
    AtlasSubsampler.process_atlas shuffle (AtlasSubsampler.init nm ts ov) w
    = (inr tt, w')
    /\ AtlasSubsampler.subsamples w'
         !! output_path (AtlasSubsampler.init nm ts ov) "" = Some out
    /\ CellType out
       = flat_map
           (fun ct => repeat ct (count_label ct (ca_cellType dsl) `min` 20))
           (distinct (ca_cellType dsl))
    /\ CellName out
       = flat_map
           (fun ct =>
              map (fun j => ct +:+ "_" +:+ str (j + 1))
                (seq 0 (count_label ct (ca_cellType dsl) `min` 20)))
           (distinct (ca_cellType dsl))
    /\ layer out = concat (map (map (subsampled_column dsl)) sels)
    /\ Forall2
         (fun ct sel =>
            length sel = count_label ct (ca_cellType dsl) `min` 20
            /\ StronglySorted lt sel
            /\ sel `sublist_of` nonzero_eq ct (ca_cellType dsl)
            /\ exists p, p ≡ₚ nonzero_eq ct (ca_cellType dsl)
                 /\ sel = np_sort
                            (take (count_label ct (ca_cellType dsl) `min` 20) p))
         (distinct (ca_cellType dsl)) sels
    /\ (forall (l1 l2 : list string) (a b : string),
          distinct (ca_cellType dsl) = (l1 ++ a :: l2)%list -> b ∈ l2 ->
          exists pre post,
            ca_cellType dsl = (pre ++ a :: post)%list
            /\ (a ∉ pre) /\ (b ∉ pre)).
Proof.
  intros Hperm Hrun.
  destruct (process_atlas_output shuffle Hperm nm ts ov dsl w Hrun)
    as (w' & Hw' & Hout & _).
  specialize (Hout ("", None) (default_filter_init nm ts ov)).
  eexists w', _, _. split; [exact Hw'|]. split; [exact Hout|].
  unfold variant_file, assemble.
  cbn [layer CellType CellName AtlasSubsampler.matrix AtlasSubsampler.meta
       AtlasSubsampler.cnames].
  pose proof (assemble_selections shuffle Hperm dsl
                (AtlasSubsampler.random_state w)) as Hsel.
  rewrite quotas_spec in Hsel |- *. rewrite !flat_map_fmap.
  split; [done|]. split; [done|]. split; [done|]. split.
  - apply Forall2_fmap_l in Hsel. exact Hsel.
  - intros l1 l2 a b. apply distinct_first_appearance.
Qed.

Lemma filter_all {A} (l : list A) : filter (fun _ : A => true = true) l = l.
Proof.
  induction l as [|x l IH]; [done|]. by rewrite filter_cons_True, IH by done.
Qed.

(** The columns of the file of an export are the assembled columns whose
    label passes its predicate. *)
Lemma variant_file_columns (s : AtlasSubsampler.self)
    (md : metadata_file)
    (a : AtlasSubsampler.assembled) (filtname : string)
    (fun_ : option (string -> bool)) :
  columns (variant_file s md a filtname fun_)
  = filter (fun c => passes fun_ c.1 = true)
      (zip (AtlasSubsampler.meta a)
         (zip (AtlasSubsampler.cnames a) (AtlasSubsampler.matrix a))).
Proof.
  unfold columns, variant_file. destruct fun_ as [f|];
    cbn [layer CellName CellType passes].
  - by rewrite <- !mask_select_zip, mask_select_by_label.
  - by rewrite filter_all.
Qed.

(** C7.  After an exportable run, the default export holds all
    assembled columns; the file of every export holds exactly the
    assembled columns whose label passes the predicate of the export, in
    the same order, of which there is at least one; and for the dataset
    ["Darmanis_2015"] the ['nofetal'] export holds no column whose label
    contains ["fetal"]. *)
Theorem variant_columns_pass_predicate {rng : Type}
    (shuffle : rng -> list nat -> list nat * rng)
    (nm : string) (ts : option string) (ov : bool) (dsl : loom_full)
    (w : AtlasSubsampler.world rng) :
  shuffle_permutes shuffle ->
  processes nm ts ov dsl w ->
  exists w' a w1 out,
    AtlasSubsampler.process_atlas shuffle (AtlasSubsampler.init nm ts ov) w
    = (inr tt, w')
    /\ AtlasSubsampler.read_data shuffle dsl
         (AtlasSubsampler.log
            (Connect (AtlasSubsampler.get_full_filename nm ts)) w)
       = (inr a, w1)
    /\ AtlasSubsampler.subsamples w'
         !! output_path (AtlasSubsampler.init nm ts ov) "" = Some out
    /\ layer out = AtlasSubsampler.matrix a
    /\ CellType out = AtlasSubsampler.meta a
    /\ CellName out = AtlasSubsampler.cnames a
    /\ (forall e : string * option (string -> bool),
          e ∈ AtlasSubsampler.filters (AtlasSubsampler.init nm ts ov) ->
          exists out_e,
            AtlasSubsampler.subsamples w'
              !! output_path (AtlasSubsampler.init nm ts ov) e.1 = Some out_e
            /\ columns out_e
               = filter (fun c => passes e.2 c.1 = true) (columns out)
            /\ length (CellName out_e) = length (CellType out_e)
            /\ length (layer out_e) = length (CellType out_e))
    /\ (nm = "Darmanis_2015" ->
        exists out_nf,
          AtlasSubsampler.subsamples w'
            !! output_path (AtlasSubsampler.init nm ts ov) "nofetal"
          = Some out_nf
          /\ columns out_nf
             = filter (fun c => negb (str_contains "fetal" c.1) = true)
                 (columns out)
          /\ forall label : string,
               label ∈ CellType out_nf ->
               forall l r : string, label ≠ l +:+ "fetal" +:+ r).
Proof.
  intros Hperm Hrun.
  destruct (process_atlas_output shuffle Hperm nm ts ov dsl w Hrun)
    as (w' & Hw' & Hout & _).
  pose proof (Hout ("", None) (default_filter_init nm ts ov)) as Hdef.
  destruct Hrun as (_ & _ & Hne & _).
  destruct (read_data_after_connect shuffle
              (AtlasSubsampler.get_full_filename nm ts) dsl w Hperm Hne)
    as (w1 & Hread).
  eexists w', _, w1, _. split; [exact Hw'|]. split; [exact Hread|].
  split; [exact Hdef|].
  split; [done|]. split; [done|]. split; [done|].
  set (a := assemble shuffle dsl (AtlasSubsampler.random_state w)) in *.
  assert (Hlen1 : length (AtlasSubsampler.cnames a)
                  = length (AtlasSubsampler.meta a)).
  { unfold a. by rewrite assemble_cnames_length, assemble_meta_length. }
  assert (Hlen2 : length (AtlasSubsampler.matrix a)
                  = length (AtlasSubsampler.meta a)).
  { unfold a. by rewrite assemble_matrix_length, assemble_meta_length. }
  split.
  - intros e He. eexists. split; [exact (Hout e He)|].
    rewrite !variant_file_columns. cbn [passes]. rewrite filter_all.
    split; [done|].
    unfold variant_file. destruct e.2 as [f|]; cbn [layer CellName CellType];
      [|done].
    split; by apply mask_select_length.
  - intros ->.
    assert (Hnf : ("nofetal", Some AtlasSubsampler.nofetal)
                  ∈ AtlasSubsampler.filters
                      (AtlasSubsampler.init "Darmanis_2015" ts ov))
      by apply list_elem_of_here.
    eexists. split; [exact (Hout _ Hnf)|].
    rewrite !variant_file_columns. cbn [passes fst]. rewrite filter_all.
    split; [done|].
    intros label Hlabel l r ->.
    unfold variant_file in Hlabel. cbn [CellType snd] in Hlabel.
    rewrite mask_select_map_pred in Hlabel.
    apply list_elem_of_filter in Hlabel as [Hpass _].
    unfold AtlasSubsampler.nofetal in Hpass.
    apply negb_true_iff, not_true_iff_false in Hpass.
    apply Hpass, str_contains_spec. by exists l, r.
Qed.

Lemma metaname_init (nm : string) (ts : option string) (ov : bool)
    (filtname : string) :
  AtlasSubsampler.metaname (AtlasSubsampler.init nm ts ov) filtname
  = if decide (filtname = "") then nm else nm +:+ "_" +:+ filtname.
Proof. by destruct filtname. Qed.

Lemma variant_file_cell_count (s : AtlasSubsampler.self)
    (md : metadata_file)
    (a : AtlasSubsampler.assembled) (filtname : string)
    (fun_ : option (string -> bool)) :
  file_attrs (variant_file s md a filtname fun_) !! "Number of cells"
  = Some (AInt (Z.of_nat (AtlasSubsampler.n_cells_tot a))).
Proof.
  unfold variant_file.
  destruct fun_, (AtlasSubsampler.tissue s); cbn [file_attrs];
    rewrite ?lookup_insert_ne by done; apply lookup_insert_eq.
Qed.

(** C8.  In an exportable run, whose metadata file is the mapping
    [records], the file attributes of every export written are the
    record that the mapping holds under the dataset name, followed by
    ["_"] and the export name unless the export is the default one, or
    the empty record when the key is absent, which is no error; with
    ['Number of cells'] set to the number of columns of the full matrix;
    and with ['Tissue'] set to the tissue when there is one, and not set
    otherwise. *)
Theorem file_attributes_of_exports {rng : Type}
    (shuffle : rng -> list nat -> list nat * rng)
    (nm : string) (ts : option string) (ov : bool) (dsl : loom_full)
    (w : AtlasSubsampler.world rng)
    (records : gmap string (option (gmap string attr_value))) :
  shuffle_permutes shuffle ->
  processes nm ts ov dsl w ->
  AtlasSubsampler.atlas_metadata w = Records records ->
  exists w',
    AtlasSubsampler.process_atlas shuffle (AtlasSubsampler.init nm ts ov) w
    = (inr tt, w')
    /\ forall e : string * option (string -> bool),
         e ∈ AtlasSubsampler.filters (AtlasSubsampler.init nm ts ov) ->
         exists out,
           AtlasSubsampler.subsamples w'
             !! output_path (AtlasSubsampler.init nm ts ov) e.1 = Some out
           /\ records
              !! (if decide (e.1 = "") then nm else nm +:+ "_" +:+ e.1)
              ≠ Some None
           /\ file_attrs out
              = (let key :=
                   if decide (e.1 = "") then nm else nm +:+ "_" +:+ e.1 in
                 let record :=
                   match records !! key with
                   | Some (Some record) => record
                   | _ => ∅
                   end in
                 let counted :=
                   <["Number of cells" :=
                       AInt (Z.of_nat (length (ca_cellType dsl)))]> record in
                 match ts with
                 | Some t => <["Tissue" := AStr t]> counted
                 | None => counted
                 end).
Proof.
  intros Hperm Hrun Hmd.
  destruct (process_atlas_output shuffle Hperm nm ts ov dsl w Hrun)
    as (w' & Hw' & Hout & _).
  destruct Hrun as (_ & _ & _ & _ & _ & _ & records' & Hmd' & Hrec).
  rewrite Hmd in Hmd'. injection Hmd' as <-.
  exists w'. split; [exact Hw'|]. intros e He.
  eexists. split; [exact (Hout e He)|].
  eapply Forall_forall in Hrec; [|exact He].
  rewrite metaname_init in Hrec. split; [exact Hrec|].
  unfold variant_file, record_of. rewrite metaname_init, Hmd.
  by destruct e.2.
Qed.


(** C10.  After an exportable run, the file of every export, filtering
    or not, differs from the file of the default export in its columns
    only: its columns are a
    subsequence of the default export's, and so are its matrix columns,
    names and labels; its [GeneName] is the same; and its
    ['Number of cells'] is the same, the number of columns of the full
    matrix, whatever the number of columns kept. *)
Theorem filtering_changes_only_columns {rng : Type}
    (shuffle : rng -> list nat -> list nat * rng)
    (nm : string) (ts : option string) (ov : bool) (dsl : loom_full)
    (w : AtlasSubsampler.world rng) :
  shuffle_permutes shuffle ->
  processes nm ts ov dsl w ->
  exists w' out,
    AtlasSubsampler.process_atlas shuffle (AtlasSubsampler.init nm ts ov) w
    = (inr tt, w')
    /\ AtlasSubsampler.subsamples w'
         !! output_path (AtlasSubsampler.init nm ts ov) "" = Some out
    /\ forall e : string * option (string -> bool),
         e ∈ AtlasSubsampler.filters (AtlasSubsampler.init nm ts ov) ->
         exists out_e,
           AtlasSubsampler.subsamples w'
             !! output_path (AtlasSubsampler.init nm ts ov) e.1 = Some out_e
           /\ columns out_e `sublist_of` columns out
           /\ layer out_e `sublist_of` layer out
           /\ CellName out_e `sublist_of` CellName out
           /\ CellType out_e `sublist_of` CellType out
           /\ GeneName out_e = GeneName out
           /\ file_attrs out_e !! "Number of cells"
              = file_attrs out !! "Number of cells"
           /\ file_attrs out_e !! "Number of cells"
              = Some (AInt (Z.of_nat (length (ca_cellType dsl)))).
Proof.
  intros Hperm Hrun.
  destruct (process_atlas_output shuffle Hperm nm ts ov dsl w Hrun)
    as (w' & Hw' & Hout & _).
  pose proof (Hout ("", None) (default_filter_init nm ts ov)) as Hdef.
  eexists w', _. split; [exact Hw'|]. split; [exact Hdef|].
  intros e He. eexists. split; [exact (Hout e He)|].
  split.
  { rewrite !variant_file_columns. cbn [passes]. rewrite filter_all.
    apply filter_sublist. }
  rewrite !variant_file_cell_count.
  unfold variant_file. destruct e.2 as [f|];
    cbn [layer CellName CellType GeneName];
    repeat split; try done; apply mask_select_sublist.
Qed.

(** ** The properties on the worked example *)

Lemma blocks_in_first_appearance_order_witness :
  shuffle_permutes tape_shuffle
  /\ processes "Darmanis_2015" None false Example.dsl Example.w
  /\ exists w' out,
       AtlasSubsampler.process_atlas tape_shuffle
         (AtlasSubsampler.init "Darmanis_2015" None false) Example.w
       = (inr tt, w')
       /\ AtlasSubsampler.subsamples w'
            !! "../data/subsamples/Darmanis_2015.loom" = Some out
       /\ CellType out
          = flat_map
              (fun ct =>
                 repeat ct (count_label ct (ca_cellType Example.dsl) `min` 20))
              (distinct (ca_cellType Example.dsl)).
Proof.
  split; [exact tape_shuffle_permutes|]. split; [exact example_processes|].
  destruct (blocks_in_first_appearance_order tape_shuffle "Darmanis_2015"
              None false Example.dsl Example.w tape_shuffle_permutes
              example_processes) as (w' & out & sels & Hw' & Hout & Hct & _).
  exists w', out. split; [exact Hw'|]. split; [exact Hout | exact Hct].
Defined.

Lemma variant_columns_pass_predicate_witness :
  shuffle_permutes tape_shuffle
  /\ processes "Darmanis_2015" None false Example.dsl Example.w
  /\ exists w' out_nf,
       AtlasSubsampler.process_atlas tape_shuffle
         (AtlasSubsampler.init "Darmanis_2015" None false) Example.w
       = (inr tt, w')
       /\ AtlasSubsampler.subsamples w'
            !! "../data/subsamples/Darmanis_2015_nofetal.loom" = Some out_nf
       /\ forall label : string,
            label ∈ CellType out_nf ->
            forall l r : string, label ≠ l +:+ "fetal" +:+ r.
Proof.
  split; [exact tape_shuffle_permutes|]. split; [exact example_processes|].
  destruct (variant_columns_pass_predicate tape_shuffle "Darmanis_2015"
              None false Example.dsl Example.w tape_shuffle_permutes
              example_processes)
    as (w' & a & w1 & out & Hw' & _ & _ & _ & _ & _ & _ & Hnf).
  destruct (Hnf eq_refl) as (out_nf & Hout & _ & Hlabels).
  exists w', out_nf. split; [exact Hw'|]. split; [exact Hout | exact Hlabels].
Defined.

Lemma file_attributes_of_exports_witness :
  shuffle_permutes tape_shuffle
  /\ processes "Darmanis_2015" None false Example.dsl Example.w
  /\ exists w' out,
       AtlasSubsampler.process_atlas tape_shuffle
         (AtlasSubsampler.init "Darmanis_2015" None false) Example.w
       = (inr tt, w')
       /\ AtlasSubsampler.subsamples w'
            !! "../data/subsamples/Darmanis_2015.loom" = Some out
       /\ file_attrs out
          = <["Number of cells" := AInt 30]> {[ "Species" := AStr "human" ]}.
Proof.
  split; [exact tape_shuffle_permutes|]. split; [exact example_processes|].
  destruct (file_attributes_of_exports tape_shuffle "Darmanis_2015"
              None false Example.dsl Example.w _ tape_shuffle_permutes
              example_processes eq_refl) as (w' & Hw' & Hall).
  destruct (Hall ("", None)
              (default_filter_init "Darmanis_2015" None false))
    as (out & Hout & _ & Hattrs).
  exists w', out. split; [exact Hw'|]. split; [exact Hout | exact Hattrs].
Defined.


Lemma filtering_changes_only_columns_witness :
  shuffle_permutes tape_shuffle
  /\ processes "Darmanis_2015" None false Example.dsl Example.w
  /\ exists w' out_nf,
       AtlasSubsampler.process_atlas tape_shuffle
         (AtlasSubsampler.init "Darmanis_2015" None false) Example.w
       = (inr tt, w')
       /\ AtlasSubsampler.subsamples w'
            !! "../data/subsamples/Darmanis_2015_nofetal.loom" = Some out_nf
       /\ file_attrs out_nf !! "Number of cells" = Some (AInt 30).
Proof.
  split; [exact tape_shuffle_permutes|]. split; [exact example_processes|].
  destruct (filtering_changes_only_columns tape_shuffle "Darmanis_2015"
              None false Example.dsl Example.w tape_shuffle_permutes
              example_processes) as (w' & out & Hw' & _ & Hall).
  destruct (Hall ("nofetal", Some AtlasSubsampler.nofetal)
              (list_elem_of_here _ _))
    as (out_nf & Hout & _ & _ & _ & _ & _ & _ & Hcount).
  exists w', out_nf. split; [exact Hw'|]. split; [exact Hout | exact Hcount].
Defined.


(** ** Runs that raise, and a run end to end *)

Section Raises.
Context {rng : Type}.
Variable shuffle : rng -> list nat -> list nat * rng.

Import AtlasSubsampler.

(** A run whose full matrix is missing raises before anything is done. *)
Lemma process_atlas_missing_file (nm : string) (ts : option string)
    (ov : bool) (w : world rng) :
  ov = true \/ ~ all_outputs_exist (init nm ts ov) w ->
  data_full w !! get_full_filename nm ts = None ->
  process_atlas shuffle (init nm ts ov) w
  = (inl (FileNotFoundError (get_full_filename nm ts)), w).
Proof.
  intros Hgo Hfile. unfold process_atlas. unfold bind at 1.
  rewrite skip_test_spec, not_skipped by done.
  unfold bind at 1. unfold loompy_connect.
  simpl full_filename. by rewrite Hfile.
Qed.

(** A full matrix without cells makes [max] raise, once the file has been
    opened and before any export is written. *)
Lemma process_atlas_no_cells (nm : string) (ts : option string)
    (ov : bool) (dsl : loom_full) (w : world rng) :
  ov = true \/ ~ all_outputs_exist (init nm ts ov) w ->
  data_full w !! get_full_filename nm ts = Some dsl ->
  ca_cellType dsl = [] ->
  process_atlas shuffle (init nm ts ov) w
  = (inl ValueError, log (Connect (get_full_filename nm ts)) w).
Proof.
  intros Hgo Hfile Hnil. unfold process_atlas. unfold bind at 1.
  rewrite skip_test_spec, not_skipped by done.
  unfold bind at 1. unfold loompy_connect.
  simpl full_filename. rewrite Hfile.
  unfold bind, read_data. by rewrite Hnil.
Qed.

(** Once the full matrix has been opened and holds a cell, what is left
    of [process_atlas] is the export loop over the assembled arrays. *)
Lemma process_atlas_exports (nm : string) (ts : option string) (ov : bool)
    (dsl : loom_full) (w : world rng) :
  shuffle_permutes shuffle ->
  ov = true \/ ~ all_outputs_exist (init nm ts ov) w ->
  data_full w !! get_full_filename nm ts = Some dsl ->
  ca_cellType dsl ≠ [] ->
  process_atlas shuffle (init nm ts ov) w
  = for_each (filters (init nm ts ov))
      (fun '(filtname, fun_) =>
         export_variant (init nm ts ov)
           (assemble shuffle dsl (random_state w)) filtname fun_)
      (with_random_state
         (selections shuffle (ca_cellType dsl) (quotas (ca_cellType dsl))
            (random_state w)).2
         (log (Connect (get_full_filename nm ts)) w)).
Proof.
  intros Hperm Hgo Hfile Hne. unfold process_atlas. unfold bind at 1.
  rewrite skip_test_spec, not_skipped by done.
  unfold bind at 1. unfold loompy_connect.
  simpl full_filename. rewrite Hfile.
  unfold bind at 1. by rewrite (read_data_spec shuffle Hperm) by done.
Qed.

(** What one call of [loompy.create] can change and raise. *)
Lemma loompy_create_frame (fn : string) (out : loom_out) (w w1 : world rng)
    (r : error + unit) :
  loompy_create fn out w = (r, w1) ->
  data_full w1 = data_full w
  /\ atlas_metadata w1 = atlas_metadata w
  /\ (forall fn', fn' ≠ fn -> subsamples w1 !! fn' = subsamples w !! fn')
  /\ (r = inr tt \/ r = inl ValueError).
Proof.
  unfold loompy_create.
  destruct ((length (GeneName out) =? 0)%nat || (length (layer out) =? 0)%nat).
  { intros [= <- <-]. auto. }
  destruct (forallb (forallb is_finite) (layer out)); intros [= <- <-];
    cbn [data_full atlas_metadata subsamples log with_subsamples].
  - repeat split; auto. intros fn' Hne. by rewrite lookup_insert_ne.
  - repeat split; auto. intros fn' Hne. by rewrite lookup_delete_ne.
Qed.

Lemma export_variant_frame (s : self) (a : assembled) (filtname : string)
    (fun_ : option (string -> bool)) (w w1 : world rng) (r : error + unit) :
  dict_get filtname (fns_out s) = Some (output_path s filtname) ->
  export_variant s a filtname fun_ w = (r, w1) ->
  data_full w1 = data_full w
  /\ atlas_metadata w1 = atlas_metadata w
  /\ (forall fn, fn ≠ output_path s filtname ->
      subsamples w1 !! fn = subsamples w !! fn)
  /\ (forall k, r ≠ inl (KeyError k)).
Proof.
  intros Hfn. unfold export_variant. rewrite Hfn.
  unfold bind, get_atlas_metadata.
  destruct (atlas_metadata w) as [| | |records] eqn:Hmd;
    try (intros [= <- <-]; by rewrite ?Hmd).
  destruct (default (Some ∅) (records !! metaname s filtname))
    as [record|].
  2:{ unfold raise. intros [= <- <-]. by rewrite ?Hmd. }
  destruct (match fun_ with
            | Some f => _
            | None => _
            end) as [[cn ct] m].
  intros Hcreate. apply loompy_create_frame in Hcreate
    as (Hfull & Hmeta & Hsub & Hr).
  cbn [data_full atlas_metadata subsamples log] in *.
  rewrite Hfull, Hmeta, Hmd. repeat split; [done|].
  intros k. by destruct Hr as [-> | ->].
Qed.

Lemma for_each_export_frame (s : self) (a : assembled)
    (fl : list (string * option (string -> bool))) (w w1 : world rng)
    (r : error + unit) :
  Forall (fun entry : string * option (string -> bool) =>
            dict_get entry.1 (fns_out s) = Some (output_path s entry.1)) fl ->
  for_each fl (fun '(filtname, fun_) => export_variant s a filtname fun_) w
  = (r, w1) ->
  data_full w1 = data_full w
  /\ atlas_metadata w1 = atlas_metadata w
  /\ (forall fn,
        Forall (fun e : string * option (string -> bool) =>
                  fn ≠ output_path s e.1) fl ->
        subsamples w1 !! fn = subsamples w !! fn)
  /\ (forall k, r ≠ inl (KeyError k)).
Proof.
  revert w. induction fl as [|[filtname fun_] fl IH]; intros w Hfl.
  { intros [= <- <-]. done. }
  apply Forall_cons in Hfl as [Hfn Hfl]. cbn [fst] in Hfn.
  cbn [for_each]. unfold bind at 1.
  destruct (export_variant s a filtname fun_ w) as [[e|[]] w2] eqn:Hstep;
    pose proof (export_variant_frame _ _ _ _ _ _ _ Hfn Hstep)
      as (Hfull & Hmeta & Hsub & Hr).
  - intros [= <- <-]. repeat split; [done..| |done].
    intros fn Hother. apply Forall_cons in Hother as [Hne _]. by apply Hsub.
  - intros Hrest. destruct (IH w2 Hfl Hrest) as (IHf & IHm & IHs & IHr).
    rewrite IHf, IHm. repeat split; [done..| |done].
    intros fn Hother. apply Forall_cons in Hother as [Hne Hother].
    rewrite IHs by done. by apply Hsub.
Qed.
End Raises.

(** The scenario of 5 cells of type A and 30 of type B: 5 + 20 columns in
    that order, named by rank, with the original count of 35 and the
    tissue as file attributes, and the spike-in row dropped. *)
Example lung_run :
  (fun out => (CellType out, CellName out, GeneName out,
               file_attrs out !! "Number of cells", file_attrs out !! "Tissue"))
  <$> (AtlasSubsampler.subsamples
         (AtlasSubsampler.process_atlas tape_shuffle
            (AtlasSubsampler.init "Atlas_2019" (Some "lung") false)
            Example.w_lung).2
       !! "../data/subsamples/Atlas_2019_lung.loom")
  = Some ((repeat "A" 5 ++ repeat "B" 20)%list,
          (map (fun j => "A_" +:+ str j) (seq 1 5)
           ++ map (fun j => "B_" +:+ str j) (seq 1 20))%list,
          ["Actb"; "Gapdh"],
          Some (AInt 35), Some (AStr "lung")).
Proof. vm_compute. reflexivity. Qed.


(** ** Splitting file names *)

Lemma has_char_cons (c a : ascii) (s : string) :
  has_char c (String a s) = Ascii.eqb a c || has_char c s.
Proof.
  unfold has_char. cbn [str_contains]. f_equal.
  cbn [String.prefix]. destruct (Ascii.ascii_dec c a) as [->|Hne].
  - rewrite Ascii.eqb_refl. by destruct s.
  - symmetry. apply Ascii.eqb_neq. congruence.
Qed.

Lemma has_char_nil (c : ascii) : has_char c "" = false.
Proof. reflexivity. Qed.

Lemma has_char_app (c : ascii) (s1 s2 : string) :
  has_char c (s1 +:+ s2) = has_char c s1 || has_char c s2.
Proof.
  induction s1 as [|a s1 IH].
  - done.
  - change (String a s1 +:+ s2) with (String a (s1 +:+ s2)).
    rewrite !has_char_cons, IH. by rewrite orb_assoc.
Qed.

Lemma split_nonempty (c : ascii) (s : string) : split c s ≠ [].
Proof.
  induction s as [|a s IH]; simpl; [done|].
  destruct (Ascii.eqb a c); [done|]. by destruct (split c s).
Qed.

Lemma split_no_sep (c : ascii) (s : string) :
  has_char c s = false -> split c s = [s].
Proof.
  induction s as [|a s IH]; [done|].
  rewrite has_char_cons. intros [Ha Hs]%orb_false_iff.
  simpl. rewrite Ha, IH by done. done.
Qed.

Lemma split_at_first_sep (c : ascii) (s1 s2 : string) :
  has_char c s1 = false ->
  split c (s1 +:+ String c s2) = s1 :: split c s2.
Proof.
  induction s1 as [|a s1 IH].
  - intros _. change ("" +:+ String c s2) with (String c s2).
    simpl. by rewrite Ascii.eqb_refl.
  - rewrite has_char_cons. intros [Ha Hs]%orb_false_iff.
    change (String a s1 +:+ String c s2) with (String a (s1 +:+ String c s2)).
    simpl. rewrite Ha, IH by done. done.
Qed.

Lemma join_split (c : ascii) (s : string) :
  join (String c EmptyString) (split c s) = s.
Proof.
  induction s as [|a s IH]; [done|].
  simpl split. destruct (Ascii.eqb_spec a c) as [->|Hne].
  - pose proof (split_nonempty c s) as Hne.
    destruct (split c s) as [|p ps]; [done|].
    change (join (String c "") ("" :: p :: ps))
      with ("" +:+ String c "" +:+ join (String c "") (p :: ps)).
    rewrite IH. done.
  - pose proof (split_nonempty c s) as Hn.
    destruct (split c s) as [|p ps]; [done|].
    destruct ps as [|p' ps].
    + simpl in *. by rewrite IH.
    + change (join (String c "") (String a p :: p' :: ps))
        with (String a (p +:+ String c "" +:+ join (String c "") (p' :: ps))).
      f_equal. exact IH.
Qed.

Lemma string_app_assoc (s1 s2 s3 : string) :
  (s1 +:+ s2) +:+ s3 = s1 +:+ s2 +:+ s3.
Proof.
  induction s1 as [|a s1 IH]; [done|].
  change (String a ((s1 +:+ s2) +:+ s3) = String a (s1 +:+ s2 +:+ s3)).
  by rewrite IH.
Qed.

(** The tissue is what lies between the first underscore and the first dot. *)
Lemma tissue_of_dataset (T rest : string) :
  has_char "." T = false ->
  tissue_of ("dataset_" +:+ T +:+ "." +:+ rest) = T.
Proof.
  intros HT. unfold tissue_of.
  change ("dataset_" +:+ T +:+ "." +:+ rest)
    with ("dataset_" +:+ (T +:+ String "." rest)).
  rewrite <- string_app_assoc.
  rewrite split_at_first_sep by (by rewrite has_char_app, HT).
  cbn [hd].
  change ("dataset_" +:+ T) with ("dataset" +:+ String "_" T).
  rewrite split_at_first_sep by done. cbn [tl].
  apply (join_split "_").
Qed.

Lemma endswith_spec (suffix s : string) :
  endswith suffix s = true <-> exists pre, s = pre +:+ suffix.
Proof.
  induction s as [|a s IH]; cbn [endswith].
  - rewrite orb_false_r, String.eqb_eq. split.
    + intros <-. by exists "".
    + intros ([|b pre] & Hpre); [done|].
      change ("" = String b (pre +:+ suffix)) in Hpre. done.
  - rewrite orb_true_iff, String.eqb_eq, IH. split.
    + intros [<-|[pre ->]]; [by exists ""|]. by exists (String a pre).
    + intros ([|b pre] & Hpre).
      * left. done.
      * change (String a s = String b (pre +:+ suffix)) in Hpre.
        injection Hpre as -> ->. right. by exists pre.
Qed.

Lemma dataset_of_omap (fns : list string) :
  dataset_of fns = omap classify fns.
Proof.
  unfold dataset_of.
  enough (Hgen : forall acc,
    fold_left
      (fun dataset fn =>
         if String.eqb fn "dataset.loom" then (dataset ++ [None])%list
         else if String.prefix "dataset" fn && endswith ".loom" fn
              then (dataset ++ [Some (tissue_of fn)])%list
              else dataset) fns acc
    = (acc ++ omap classify fns)%list) by apply (Hgen []).
  induction fns as [|fn fns IH]; intros acc; simpl.
  - by rewrite app_nil_r.
  - rewrite IH. unfold classify at 2.
    destruct (String.eqb fn "dataset.loom"); [by rewrite <- app_assoc|].
    destruct (String.prefix "dataset" fn && endswith ".loom" fn);
      [by rewrite <- app_assoc | done].
Qed.

Lemma omap_keys_subset (root : list (string * dir_entry)) (ds : string) :
  ds ∈ map fst (omap entry_datasets root) -> ds ∈ map fst root.
Proof.
  intros Hin. apply list_elem_of_fmap in Hin as ([ds' d] & -> & Hin).
  apply list_elem_of_omap in Hin as ([nm e] & Hin & Hentry).
  unfold entry_datasets in Hentry. simpl in Hentry.
  destruct e as [|fns]; [done|].
  destruct (omap classify fns); [done|]. injection Hentry as <- _.
  apply list_elem_of_fmap. by exists (nm, Directory fns).
Qed.

Lemma discover_datasets_omap (root : list (string * dir_entry)) :
  NoDup (map fst root) ->
  discover_datasets root = omap entry_datasets root.
Proof.
  unfold discover_datasets.
  enough (Hgen : forall acc : list (string * list (option string)),
    NoDup (map fst root) ->
    (forall ds, ds ∈ map fst acc -> ds ∉ map fst root) ->
    fold_left
      (fun datasets '(sfdn, entry) =>
         match entry with
         | NotADirectory => datasets
         | Directory fns =>
             if (length fns =? 0)%nat then datasets
             else
               let dataset := dataset_of fns in
               match dataset with
               | [] => datasets
               | _ :: _ => dict_set sfdn dataset datasets
               end
         end) root acc
    = (acc ++ omap entry_datasets root)%list).
  { intros Hnd. apply (Hgen [] Hnd). intros ds Hds. by apply elem_of_nil in Hds. }
  induction root as [|[sfdn e] root IH]; intros acc Hnd Hfresh.
  - simpl. by rewrite app_nil_r.
  - simpl in Hnd. apply NoDup_cons in Hnd as [Hsfdn Hnd].
    assert (Hacc : forall ds, ds ∈ map fst acc -> ds ∉ map fst root).
    { intros ds Hds Hroot. apply (Hfresh ds Hds). by apply list_elem_of_further. }
    change (omap entry_datasets ((sfdn, e) :: root))
      with (match entry_datasets (sfdn, e) with
            | Some y => y :: omap entry_datasets root
            | None => omap entry_datasets root
            end).
    cbn [fold_left]. unfold entry_datasets at 1. cbn [fst snd].
    destruct e as [|fns]; [by apply IH|].
    rewrite dataset_of_omap.
    destruct fns as [|fn fns]; [by apply IH|].
    cbn [length Nat.eqb].
    destruct (omap classify (fn :: fns)) as [|t d] eqn:Hd; [by apply IH|].
    rewrite dict_set_fresh.
    + rewrite IH; [by rewrite <- app_assoc | done |].
      intros ds Hds. rewrite map_app, elem_of_app in Hds.
      destruct Hds as [Hds|Hds]; [by apply Hacc|].
      apply list_elem_of_singleton in Hds as ->. done.
    + intros Hin. apply (Hfresh sfdn Hin). apply list_elem_of_here.
Qed.

(** ** Properties of the discovery *)

Lemma pairs_elem_of (datasets : list (string * list (option string)))
    (ds : string) (t : option string) :
  (ds, t) ∈ pairs datasets <-> exists d, (ds, d) ∈ datasets /\ t ∈ d.
Proof.
  unfold pairs. rewrite list_elem_of_In, in_flat_map. split.
  - intros ([ds' d] & Hin & Ht). apply list_elem_of_In in Hin, Ht.
    apply list_elem_of_fmap in Ht as (t' & [= -> ->] & Ht).
    by exists d.
  - intros (d & Hin & Ht). exists (ds, d). split; [by apply list_elem_of_In|].
    apply list_elem_of_In, list_elem_of_fmap. by exists t.
Qed.

Lemma discover_datasets_elem_of (root : list (string * dir_entry))
    (ds : string) (d : list (option string)) :
  NoDup (map fst root) ->
  (ds, d) ∈ discover_datasets root
  <-> exists fns, (ds, Directory fns) ∈ root
                  /\ d = omap classify fns /\ d ≠ [].
Proof.
  intros Hnd. rewrite discover_datasets_omap by done.
  rewrite list_elem_of_omap. split.
  - intros ([nm e] & Hin & Hentry). unfold entry_datasets in Hentry.
    simpl in Hentry. destruct e as [|fns]; [done|].
    destruct (omap classify fns) as [|t d'] eqn:Hd; [done|].
    injection Hentry as <- <-. exists fns. by rewrite Hd.
  - intros (fns & Hin & -> & Hne). exists (ds, Directory fns).
    split; [done|]. unfold entry_datasets. simpl.
    by destruct (omap classify fns).
Qed.

Lemma classify_dataset_file (t : option string) :
  match t with None => True | Some T => has_char "." T = false end ->
  classify (dataset_file t) = Some t.
Proof.
  destruct t as [T|]; [|done]. intros HT. unfold classify, dataset_file.
  change (String.eqb ("dataset_" +:+ T +:+ ".loom") "dataset.loom") with false.
  change (String.prefix "dataset" ("dataset_" +:+ T +:+ ".loom")) with true.
  cbn [andb].
  assert (Hend : endswith ".loom" ("dataset_" +:+ T +:+ ".loom") = true).
  { apply endswith_spec. exists ("dataset_" +:+ T).
    by rewrite string_app_assoc. }
  rewrite Hend. do 2 f_equal.
  apply (tissue_of_dataset T "loom" HT).
Qed.

Lemma example_root_NoDup : NoDup (map fst ExampleDisk.root).
Proof. apply (bool_decide_unpack _). reflexivity. Defined.

(** X1.  Discovery gives back what [get_full_filename] names: when the
    directory of a dataset lists the full matrix of a tissue, or the one
    of the whole dataset, the pair is discovered, and the file that
    [process_atlas] will open for the pair is that very file.  The tissue
    must not hold a dot. *)
Theorem discovered_pair_opens_its_file (root : list (string * dir_entry))
    (ds : string) (fns : list string) (t : option string) :
  NoDup (map fst root) ->
  (ds, Directory fns) ∈ root ->
  match t with None => True | Some T => has_char "." T = false end ->
  dataset_file t ∈ fns ->
  (ds, t) ∈ pairs (discover_datasets root)
  /\ AtlasSubsampler.get_full_filename ds t
     = "../data_full/" +:+ ds +:+ "/" +:+ dataset_file t.
Proof.
  intros Hnd Hdir Ht Hfn. split.
  - apply pairs_elem_of. exists (omap classify fns).
    assert (Hin : t ∈ omap classify fns).
    { apply list_elem_of_omap. exists (dataset_file t).
      split; [done|]. by apply classify_dataset_file. }
    split; [|done]. apply discover_datasets_elem_of; [done|].
    exists fns. split; [done|]. split; [done|].
    intros Hnil. rewrite Hnil in Hin. by apply elem_of_nil in Hin.
  - unfold AtlasSubsampler.get_full_filename, dataset_file.
    destruct t as [T|]; by rewrite !string_app_assoc.
Qed.

Lemma discovered_pair_opens_its_file_witness :
  ("Atlas_2019", Some "bone_marrow") ∈ pairs (discover_datasets ExampleDisk.root)
  /\ AtlasSubsampler.get_full_filename "Atlas_2019" (Some "bone_marrow")
     = "../data_full/Atlas_2019/dataset_bone_marrow.loom".
Proof.
  apply (discovered_pair_opens_its_file ExampleDisk.root "Atlas_2019"
           ["dataset_lung.loom"; "dataset_bone_marrow.loom";
            "dataset_gut.v2.loom"; "dataset2.loom"] (Some "bone_marrow")).
  - exact example_root_NoDup.
  - do 3 apply list_elem_of_further. apply list_elem_of_here.
  - reflexivity.
  - apply list_elem_of_further, list_elem_of_here.
Defined.

Lemma first_sep_decompose (c : ascii) (s : string) :
  has_char c s = true ->
  exists s1 s2, s = s1 +:+ String c s2 /\ has_char c s1 = false.
Proof.
  induction s as [|a s IH]; [done|].
  rewrite has_char_cons. destruct (Ascii.eqb_spec a c) as [->|Hne].
  - intros _. by exists "", s.
  - cbn [orb]. intros Hs. destruct (IH Hs) as (s1 & s2 & -> & Hs1).
    exists (String a s1), s2. split; [done|].
    rewrite has_char_cons, Hs1.
    by destruct (Ascii.eqb_spec a c).
Qed.

(** What [tissue_of] cuts out of a name: the part of the name before
    its first dot, without what comes up to its first underscore; the
    empty string when that part has no underscore. *)
Lemma tissue_of_spec (stem rest : string) :
  has_char "." stem = false ->
  (has_char "_" stem = false
   /\ tissue_of (stem +:+ "." +:+ rest) = "")
  \/ (exists pre T,
        has_char "_" pre = false /\ stem = pre +:+ "_" +:+ T
        /\ tissue_of (stem +:+ "." +:+ rest) = T).
Proof.
  intros Hstem. unfold tissue_of.
  change (stem +:+ "." +:+ rest) with (stem +:+ String "." rest).
  rewrite split_at_first_sep by done. cbn [hd].
  destruct (has_char "_" stem) eqn:Hus.
  - right. destruct (first_sep_decompose _ _ Hus) as (pre & T & -> & Hpre).
    exists pre, T. split; [done|]. split; [done|].
    rewrite split_at_first_sep by done. cbn [tl]. apply join_split.
  - left. split; [done|]. by rewrite split_no_sep.
Qed.

(** X2.  Every discovered pair stems from a file listed in the directory
    of its dataset: [dataset.loom] for a pair without tissue, and
    otherwise another name that starts with [dataset] and ends with
    [.loom].  The tissue is what lies, in the part of the name before
    its first dot, after the first underscore; it is the empty string
    when that part has no underscore. *)
Theorem discovered_pair_has_a_file (root : list (string * dir_entry))
    (ds : string) (t : option string) :
  NoDup (map fst root) ->
  (ds, t) ∈ pairs (discover_datasets root) ->
  exists fns fn,
    (ds, Directory fns) ∈ root /\ fn ∈ fns
    /\ match t with
       | None => fn = "dataset.loom"
       | Some T =>
           fn ≠ "dataset.loom"
           /\ (exists rest, fn = "dataset" +:+ rest)
           /\ (exists pre, fn = pre +:+ ".loom")
           /\ exists stem rest,
                fn = stem +:+ "." +:+ rest
                /\ has_char "." stem = false
                /\ ((has_char "_" stem = false /\ T = "")
                    \/ (exists pre,
                          has_char "_" pre = false
                          /\ stem = pre +:+ "_" +:+ T))
       end.
Proof.
  intros Hnd Hpair. apply pairs_elem_of in Hpair as (d & Hd & Ht).
  apply discover_datasets_elem_of in Hd as (fns & Hdir & -> & _); [|done].
  apply list_elem_of_omap in Ht as (fn & Hfn & Hclass).
  exists fns, fn. split; [done|]. split; [done|].
  unfold classify in Hclass.
  destruct (String.eqb_spec fn "dataset.loom") as [->|Hne].
  - by injection Hclass as <-.
  - destruct (String.prefix "dataset" fn) eqn:Hpre; [|done].
    destruct (endswith ".loom" fn) eqn:Hend; [|done].
    injection Hclass as <-. split; [done|].
    apply endswith_spec in Hend as Hend'.
    split; [by apply prefix_spec|]. split; [exact Hend'|].
    assert (Hdot : has_char "." fn = true).
    { destruct Hend' as [pre ->]. rewrite has_char_app.
      change (has_char "." ".loom") with true. apply orb_true_r. }
    destruct (first_sep_decompose _ _ Hdot) as (stem & rest & -> & Hstem).
    exists stem, rest. split; [done|]. split; [done|].
    destruct (tissue_of_spec stem rest Hstem)
      as [[Hus HT]|(pre & T & Hus & -> & HT)].
    + left. split; [done|]. exact HT.
    + right. exists pre. split; [done|]. do 2 f_equal. symmetry. exact HT.
Qed.

Lemma discovered_pair_has_a_file_witness :
  exists fns fn,
    ("Atlas_2019", Directory fns) ∈ ExampleDisk.root /\ fn ∈ fns
    /\ fn ≠ "dataset.loom"
    /\ (exists rest, fn = "dataset" +:+ rest)
    /\ (exists pre, fn = pre +:+ ".loom")
    /\ exists stem rest,
         fn = stem +:+ "." +:+ rest
         /\ has_char "." stem = false
         /\ ((has_char "_" stem = false /\ "bone_marrow" = "")
             \/ (exists pre,
                   has_char "_" pre = false
                   /\ stem = pre +:+ "_" +:+ "bone_marrow")).
Proof.
  apply (discovered_pair_has_a_file ExampleDisk.root "Atlas_2019"
           (Some "bone_marrow") example_root_NoDup).
  vm_compute. do 2 apply list_elem_of_further. apply list_elem_of_here.
Defined.

Lemma omap_keys_sublist (root : list (string * dir_entry)) :
  map fst (omap entry_datasets root) `sublist_of` map fst root.
Proof.
  induction root as [|[nm e] root IH]; [constructor|].
  change (omap entry_datasets ((nm, e) :: root))
    with (match entry_datasets (nm, e) with
          | Some y => y :: omap entry_datasets root
          | None => omap entry_datasets root
          end).
  unfold entry_datasets at 1. cbn [fst snd].
  destruct e as [|fns]; [by apply sublist_cons|].
  destruct (omap classify fns); [by apply sublist_cons|].
  by apply sublist_skip.
Qed.

(** X3.  The discovered mapping keeps the order of the listing and
    lists a name exactly when it is a directory holding [dataset.loom]
    or a name that starts with [dataset] and ends with [.loom]; plain
    files, empty directories and directories without such a file are
    left out, so that every discovered dataset has at least one pair. *)
Theorem discovered_datasets_have_files (root : list (string * dir_entry)) :
  NoDup (map fst root) ->
  map fst (discover_datasets root) `sublist_of` map fst root
  /\ Forall (fun e : string * list (option string) => e.2 ≠ [])
       (discover_datasets root)
  /\ forall ds : string,
       ds ∈ map fst (discover_datasets root)
       <-> exists fns fn,
             (ds, Directory fns) ∈ root /\ fn ∈ fns
             /\ (fn = "dataset.loom"
                 \/ (String.prefix "dataset" fn = true
                     /\ endswith ".loom" fn = true)).
Proof.
  intros Hnd. split; [|split].
  - rewrite discover_datasets_omap by done. apply omap_keys_sublist.
  - apply Forall_forall. intros [ds d] Hin.
    apply discover_datasets_elem_of in Hin as (fns & _ & _ & Hne); done.
  - intros ds. rewrite list_elem_of_fmap. split.
    + intros ([ds' d] & -> & Hin).
      apply discover_datasets_elem_of in Hin as (fns & Hdir & -> & Hne);
        [|done].
      destruct (omap classify fns) as [|t d] eqn:Hd; [done|].
      assert (Ht : t ∈ omap classify fns) by (rewrite Hd; apply list_elem_of_here).
      apply list_elem_of_omap in Ht as (fn & Hfn & Hclass).
      exists fns, fn. split; [done|]. split; [done|].
      unfold classify in Hclass.
      destruct (String.eqb_spec fn "dataset.loom"); [by left|]. right.
      destruct (String.prefix "dataset" fn); [|done].
      by destruct (endswith ".loom" fn).
    + intros (fns & fn & Hdir & Hfn & Hmatch).
      exists (ds, omap classify fns). split; [done|].
      apply discover_datasets_elem_of; [done|].
      exists fns. split; [done|]. split; [done|].
      assert (Hclass : is_Some (classify fn)).
      { unfold classify. destruct Hmatch as [->|[-> ->]]; [by eexists|].
        destruct (String.eqb fn "dataset.loom"); by eexists. }
      destruct Hclass as [t Ht]. intros Hnil.
      assert (Hin : t ∈ omap classify fns).
      { apply list_elem_of_omap. by exists fn. }
      rewrite Hnil in Hin. by apply elem_of_nil in Hin.
Qed.

Lemma discovered_datasets_have_files_witness :
  map fst (discover_datasets ExampleDisk.root)
    `sublist_of` map fst ExampleDisk.root
  /\ Forall (fun e : string * list (option string) => e.2 ≠ [])
       (discover_datasets ExampleDisk.root)
  /\ forall ds : string,
       ds ∈ map fst (discover_datasets ExampleDisk.root)
       <-> exists fns fn,
             (ds, Directory fns) ∈ ExampleDisk.root /\ fn ∈ fns
             /\ (fn = "dataset.loom"
                 \/ (String.prefix "dataset" fn = true
                     /\ endswith ".loom" fn = true)).
Proof.
  exact (discovered_datasets_have_files ExampleDisk.root example_root_NoDup).
Defined.

Lemma string_app_inv_head (s x y : string) : s +:+ x = s +:+ y -> x = y.
Proof.
  induction s as [|a s IH]; [done|]. intros Heq.
  change (String a (s +:+ x) = String a (s +:+ y)) in Heq.
  injection Heq as Heq. auto.
Qed.

(** X4.  The tissue is cut off at the first dot of the file name.  A
    file [dataset_T1.T2.loom] is therefore discovered as the pair with
    tissue [T1], for which [process_atlas] opens [dataset_T1.loom] and not
    the file that was found. *)
Theorem dotted_tissue_opens_another_file (root : list (string * dir_entry))
    (ds : string) (fns : list string) (T1 T2 : string) :
  NoDup (map fst root) ->
  (ds, Directory fns) ∈ root ->
  has_char "." T1 = false ->
  "dataset_" +:+ T1 +:+ "." +:+ T2 +:+ ".loom" ∈ fns ->
  (ds, Some T1) ∈ pairs (discover_datasets root)
  /\ AtlasSubsampler.get_full_filename ds (Some T1)
     = "../data_full/" +:+ ds +:+ "/" +:+ "dataset_" +:+ T1 +:+ ".loom"
  /\ AtlasSubsampler.get_full_filename ds (Some T1)
     ≠ "../data_full/" +:+ ds +:+ "/"
       +:+ "dataset_" +:+ T1 +:+ "." +:+ T2 +:+ ".loom".
Proof.
  intros Hnd Hdir HT Hfn.
  assert (Hname : AtlasSubsampler.get_full_filename ds (Some T1)
     = "../data_full/" +:+ ds +:+ "/" +:+ "dataset_" +:+ T1 +:+ ".loom").
  { unfold AtlasSubsampler.get_full_filename. by rewrite !string_app_assoc. }
  split; [|split; [exact Hname|]].
  - apply pairs_elem_of. exists (omap classify fns).
    assert (Hin : Some T1 ∈ omap classify fns).
    { apply list_elem_of_omap.
      exists ("dataset_" +:+ T1 +:+ "." +:+ T2 +:+ ".loom").
      split; [done|]. unfold classify.
      change (String.eqb ("dataset_" +:+ T1 +:+ "." +:+ T2 +:+ ".loom")
                "dataset.loom") with false.
      change (String.prefix "dataset"
                ("dataset_" +:+ T1 +:+ "." +:+ T2 +:+ ".loom")) with true.
      cbn [andb].
      assert (Hend : endswith ".loom"
                       ("dataset_" +:+ T1 +:+ "." +:+ T2 +:+ ".loom") = true).
      { apply endswith_spec. exists ("dataset_" +:+ T1 +:+ "." +:+ T2).
        by rewrite !string_app_assoc. }
      rewrite Hend. do 2 f_equal.
      apply (tissue_of_dataset T1 (T2 +:+ ".loom") HT). }
    split; [|done]. apply discover_datasets_elem_of; [done|].
    exists fns. split; [done|]. split; [done|].
    intros Hnil. rewrite Hnil in Hin. by apply elem_of_nil in Hin.
  - rewrite Hname. intros Heq.
    apply (f_equal String.length) in Heq. revert Heq.
    rewrite !string_length_app. simpl. lia.
Qed.

Lemma dotted_tissue_opens_another_file_witness :
  ("Atlas_2019", Some "gut") ∈ pairs (discover_datasets ExampleDisk.root)
  /\ AtlasSubsampler.get_full_filename "Atlas_2019" (Some "gut")
     = "../data_full/Atlas_2019/dataset_gut.loom"
  /\ AtlasSubsampler.get_full_filename "Atlas_2019" (Some "gut")
     ≠ "../data_full/Atlas_2019/dataset_gut.v2.loom".
Proof.
  apply (dotted_tissue_opens_another_file ExampleDisk.root "Atlas_2019"
           ["dataset_lung.loom"; "dataset_bone_marrow.loom";
            "dataset_gut.v2.loom"; "dataset2.loom"] "gut" "v2"
           example_root_NoDup).
  - do 3 apply list_elem_of_further. apply list_elem_of_here.
  - reflexivity.
  - do 2 apply list_elem_of_further. apply list_elem_of_here.
Defined.

(** X5.  A file name that starts with [dataset] and ends with [.loom]
    but has no underscore, such as [dataset2.loom], is discovered as a
    pair whose tissue is the empty string (not as a pair without
    tissue), and [process_atlas] then opens [dataset_.loom], not the file
    that was found. *)
Theorem file_without_underscore_gets_empty_tissue
    (root : list (string * dir_entry)) (ds : string) (fns : list string)
    (X : string) :
  NoDup (map fst root) ->
  (ds, Directory fns) ∈ root ->
  X ≠ "" -> has_char "_" X = false -> has_char "." X = false ->
  "dataset" +:+ X +:+ ".loom" ∈ fns ->
  (ds, Some "") ∈ pairs (discover_datasets root)
  /\ AtlasSubsampler.get_full_filename ds (Some "")
     = "../data_full/" +:+ ds +:+ "/" +:+ "dataset_.loom"
  /\ AtlasSubsampler.get_full_filename ds (Some "")
     ≠ "../data_full/" +:+ ds +:+ "/" +:+ "dataset" +:+ X +:+ ".loom".
Proof.
  intros Hnd Hdir HX Hus Hdot Hfn.
  destruct X as [|a X]; [done|].
  rewrite has_char_cons in Hus, Hdot.
  apply orb_false_iff in Hus as [Ha_us Hus].
  apply orb_false_iff in Hdot as [Ha_dot Hdot].
  apply Ascii.eqb_neq in Ha_us, Ha_dot.
  assert (Hname : AtlasSubsampler.get_full_filename ds (Some "")
     = "../data_full/" +:+ ds +:+ "/" +:+ "dataset_.loom").
  { unfold AtlasSubsampler.get_full_filename. by rewrite !string_app_assoc. }
  split; [|split; [exact Hname|]].
  - apply pairs_elem_of. exists (omap classify fns).
    assert (Hin : Some "" ∈ omap classify fns).
    { apply list_elem_of_omap. exists ("dataset" +:+ String a X +:+ ".loom").
      split; [done|]. unfold classify.
      destruct (String.eqb_spec ("dataset" +:+ String a X +:+ ".loom")
                  "dataset.loom") as [Heq|_].
      { exfalso.
        change ("dataset" +:+ String a (X +:+ ".loom")
                = "dataset" +:+ String "." "loom") in Heq.
        apply string_app_inv_head in Heq. congruence. }
      change (String.prefix "dataset"
                ("dataset" +:+ String a X +:+ ".loom")) with true.
      cbn [andb].
      assert (Hend : endswith ".loom"
                       ("dataset" +:+ String a X +:+ ".loom") = true).
      { apply endswith_spec. exists ("dataset" +:+ String a X).
        by rewrite !string_app_assoc. }
      rewrite Hend. do 2 f_equal. unfold tissue_of.
      change ("dataset" +:+ String a X +:+ ".loom")
        with ("dataset" +:+ (String a X +:+ String "." "loom")).
      rewrite <- string_app_assoc.
      assert (Hnodot : has_char "." ("dataset" +:+ String a X) = false).
      { rewrite has_char_app.
        change (has_char "." "dataset") with false. cbn [orb].
        rewrite has_char_cons, Hdot.
        by apply Ascii.eqb_neq in Ha_dot as ->. }
      assert (Hnous : has_char "_" ("dataset" +:+ String a X) = false).
      { rewrite has_char_app.
        change (has_char "_" "dataset") with false. cbn [orb].
        rewrite has_char_cons, Hus.
        by apply Ascii.eqb_neq in Ha_us as ->. }
      rewrite split_at_first_sep by done. cbn [hd].
      by rewrite split_no_sep by done. }
    split; [|done]. apply discover_datasets_elem_of; [done|].
    exists fns. split; [done|]. split; [done|].
    intros Hnil. rewrite Hnil in Hin. by apply elem_of_nil in Hin.
  - rewrite Hname. intros Heq.
    do 3 apply string_app_inv_head in Heq.
    change ("dataset" +:+ String "_" ".loom"
            = "dataset" +:+ String a (X +:+ ".loom")) in Heq.
    apply string_app_inv_head in Heq. congruence.
Qed.

Lemma file_without_underscore_gets_empty_tissue_witness :
  ("Atlas_2019", Some "") ∈ pairs (discover_datasets ExampleDisk.root)
  /\ AtlasSubsampler.get_full_filename "Atlas_2019" (Some "")
     = "../data_full/Atlas_2019/dataset_.loom"
  /\ AtlasSubsampler.get_full_filename "Atlas_2019" (Some "")
     ≠ "../data_full/Atlas_2019/dataset2.loom".
Proof.
  apply (file_without_underscore_gets_empty_tissue ExampleDisk.root
           "Atlas_2019"
           ["dataset_lung.loom"; "dataset_bone_marrow.loom";
            "dataset_gut.v2.loom"; "dataset2.loom"] "2"
           example_root_NoDup).
  - do 3 apply list_elem_of_further. apply list_elem_of_here.
  - discriminate.
  - reflexivity.
  - reflexivity.
  - do 3 apply list_elem_of_further. apply list_elem_of_here.
Defined.

(** ** The [--dataset] option *)

Lemma pairs_selected (datasets : list (string * list (option string)))
    (x : string) (xs : list string) :
  pairs (selected datasets (Some (x :: xs)))
  = filter (fun p : string * option string => p.1 ∈ x :: xs) (pairs datasets).
Proof.
  unfold selected, pairs.
  induction datasets as [|[ds tissues] datasets IH]; [done|].
  cbn [flat_map]. rewrite filter_app, <- IH.
  assert (Hblock : forall ts : list (option string),
    filter (fun p : string * option string => p.1 ∈ x :: xs)
      (map (fun t => (ds, t)) ts)
    = if decide (ds ∈ x :: xs) then map (fun t => (ds, t)) ts else []).
  { induction ts as [|t ts IHts]; [by case_decide|].
    cbn [map]. rewrite filter_cons, IHts. cbn [fst].
    by destruct (decide (ds ∈ x :: xs)). }
  rewrite Hblock, filter_cons.
  by destruct (decide (ds ∈ x :: xs)).
Qed.

Lemma filter_none {A} (P : A -> Prop) `{!forall x, Decision (P x)}
    (l : list A) :
  Forall (fun x => ~ P x) l -> filter P l = [].
Proof.
  induction 1 as [|x l Hx Hall IH]; [done|].
  by rewrite filter_cons_False.
Qed.

(** X6.  With [--dataset] given, the main loops process the pairs of the
    named datasets only, in the order of discovery; without it, or with
    an empty list of names, they process every pair. *)
Theorem dataset_option_restricts_the_pairs {rng : Type}
    (shuffle : rng -> list nat -> list nat * rng)
    (datasets : list (string * list (option string)))
    (x : string) (xs : list string) (ov : bool)
    (w : AtlasSubsampler.world rng) :
  AtlasSubsampler.main shuffle datasets (Some (x :: xs)) ov w
  = AtlasSubsampler.for_each
      (filter (fun p : string * option string => p.1 ∈ x :: xs)
         (pairs datasets))
      (fun '(dsname, tissue) =>
         AtlasSubsampler.process_atlas shuffle
           (AtlasSubsampler.init dsname tissue ov)) w
  /\ AtlasSubsampler.main shuffle datasets None ov w
     = AtlasSubsampler.for_each (pairs datasets)
         (fun '(dsname, tissue) =>
            AtlasSubsampler.process_atlas shuffle
              (AtlasSubsampler.init dsname tissue ov)) w
  /\ AtlasSubsampler.main shuffle datasets (Some []) ov w
     = AtlasSubsampler.main shuffle datasets None ov w.
Proof.
  split; [|split].
  - by rewrite main_pairs, pairs_selected.
  - by rewrite main_pairs.
  - reflexivity.
Qed.

(** X7.  Naming with [--dataset] only datasets that were not discovered
    is no error: the run ends normally and nothing is read or written. *)
Theorem unknown_dataset_names_process_nothing {rng : Type}
    (shuffle : rng -> list nat -> list nat * rng)
    (datasets : list (string * list (option string)))
    (x : string) (xs : list string) (ov : bool)
    (w : AtlasSubsampler.world rng) :
  (forall nm : string, nm ∈ x :: xs -> nm ∉ map fst datasets) ->
  AtlasSubsampler.main shuffle datasets (Some (x :: xs)) ov w = (inr tt, w).
Proof.
  intros Hunknown. rewrite main_pairs, pairs_selected.
  assert (Hnone :
    filter (fun p : string * option string => p.1 ∈ x :: xs) (pairs datasets)
    = []).
  { apply filter_none, Forall_forall.
    intros [ds t] Hin Hds. simpl in Hds.
    apply pairs_elem_of in Hin as (d & Hd & _).
    apply (Hunknown ds Hds). apply list_elem_of_fmap. by exists (ds, d). }
  by rewrite Hnone.
Qed.

Lemma unknown_dataset_names_process_nothing_witness :
  AtlasSubsampler.main tape_shuffle Example.datasets
    (Some ["Tabula_2018"; "Zeisel_2015"]) true Example.w
  = (inr tt, Example.w).
Proof.
  apply (unknown_dataset_names_process_nothing tape_shuffle Example.datasets
           "Tabula_2018" ["Zeisel_2015"] true Example.w).
  intros nm Hnm Hin. vm_compute in Hin.
  apply elem_of_cons in Hnm as [->|Hnm];
    [|apply list_elem_of_singleton in Hnm as ->];
    repeat (apply elem_of_cons in Hin as [Hin|Hin]; [discriminate|]);
    by apply elem_of_nil in Hin.
Defined.

(** ** Reruns, failures and what a run leaves alone *)

(** X8.  After an exportable run of [process_atlas], the file of every
    export of the pair is there, so that calling [process_atlas] again
    without [overwrite] returns at once and changes nothing. *)
Theorem rerun_without_overwrite_changes_nothing {rng : Type}
    (shuffle : rng -> list nat -> list nat * rng)
    (nm : string) (ts : option string) (ov : bool) (dsl : loom_full)
    (w : AtlasSubsampler.world rng) :
  shuffle_permutes shuffle ->
  processes nm ts ov dsl w ->
  exists w',
    AtlasSubsampler.process_atlas shuffle (AtlasSubsampler.init nm ts ov) w
    = (inr tt, w')
    /\ all_outputs_exist (AtlasSubsampler.init nm ts false) w'
    /\ AtlasSubsampler.process_atlas shuffle
         (AtlasSubsampler.init nm ts false) w'
       = (inr tt, w').
Proof.
  intros Hperm Hrun.
  destruct (process_atlas_output shuffle Hperm nm ts ov dsl w Hrun)
    as (w' & Hw' & Hout & _).
  exists w'. split; [exact Hw'|].
  assert (Hall : all_outputs_exist (AtlasSubsampler.init nm ts false) w').
  { apply Forall_forall. intros e He. eexists. exact (Hout e He). }
  split; [exact Hall|]. by apply process_atlas_skip.
Qed.

Lemma rerun_without_overwrite_changes_nothing_witness :
  exists w',
    AtlasSubsampler.process_atlas tape_shuffle
      (AtlasSubsampler.init "Darmanis_2015" None false) Example.w
    = (inr tt, w')
    /\ all_outputs_exist (AtlasSubsampler.init "Darmanis_2015" None false) w'
    /\ AtlasSubsampler.process_atlas tape_shuffle
         (AtlasSubsampler.init "Darmanis_2015" None false) w'
       = (inr tt, w').
Proof.
  exact (rerun_without_overwrite_changes_nothing tape_shuffle "Darmanis_2015"
           None false Example.dsl Example.w tape_shuffle_permutes
           example_processes).
Defined.

(** X9.  An exportable run of [process_atlas] changes nothing but the
    files of the exports of its pair: the full matrices and the metadata are as
    before, and so is every other file of the output directory; the files
    it creates all lie in [../data/subsamples/] and end in [.loom]. *)
Theorem run_touches_only_its_exports {rng : Type}
    (shuffle : rng -> list nat -> list nat * rng)
    (nm : string) (ts : option string) (ov : bool) (dsl : loom_full)
    (w : AtlasSubsampler.world rng) :
  shuffle_permutes shuffle ->
  processes nm ts ov dsl w ->
  exists w',
    AtlasSubsampler.process_atlas shuffle (AtlasSubsampler.init nm ts ov) w
    = (inr tt, w')
    /\ AtlasSubsampler.data_full w' = AtlasSubsampler.data_full w
    /\ AtlasSubsampler.atlas_metadata w' = AtlasSubsampler.atlas_metadata w
    /\ (forall fn : string,
          AtlasSubsampler.subsamples w' !! fn
          ≠ AtlasSubsampler.subsamples w !! fn ->
          Create fn ∈ AtlasSubsampler.trace w'
          /\ exists e : string * option (string -> bool),
               e ∈ AtlasSubsampler.filters (AtlasSubsampler.init nm ts ov)
               /\ fn = output_path (AtlasSubsampler.init nm ts ov) e.1)
    /\ (forall fn : string,
          Create fn ∈ AtlasSubsampler.trace w' ->
          Create fn ∈ AtlasSubsampler.trace w
          \/ exists mid, fn = "../data/subsamples/" +:+ mid +:+ ".loom").
Proof.
  intros Hperm Hrun.
  destruct (process_atlas_output shuffle Hperm nm ts ov dsl w Hrun)
    as (w' & Hw' & Hout & Htr & Hframe).
  exists w'. split; [exact Hw'|].
  pose proof (processes_writable shuffle nm ts ov dsl w Hperm Hrun) as Hok.
  destruct Hrun as (Hgo & Hfile & Hne & Hable).
  pose proof (process_atlas_run shuffle Hperm nm ts ov dsl w Hgo Hfile Hne
                Hok) as Hrun.
  rewrite Hw' in Hrun. injection Hrun as Hw.
  split; [|split; [|split]].
  - rewrite Hw. exact (proj1 (write_variants_untouched _ _ _ _)).
  - rewrite Hw. by rewrite write_variants_metadata.
  - intros fn Hchanged.
    destruct (decide (Forall
      (fun e : string * option (string -> bool) =>
         fn ≠ output_path (AtlasSubsampler.init nm ts ov) e.1)
      (AtlasSubsampler.filters (AtlasSubsampler.init nm ts ov))))
      as [Hother|Hmine]; [by rewrite Hframe in Hchanged|].
    apply not_Forall_Exists in Hmine; [|apply _].
    apply Exists_exists in Hmine as (e & He & Heq).
    apply dec_stable in Heq. split; [|by exists e].
    rewrite Htr. apply elem_of_app. right. apply list_elem_of_further.
    apply list_elem_of_In, in_flat_map. exists e.
    split; [by apply list_elem_of_In|]. rewrite Heq. simpl. auto.
  - intros fn Hcreate. rewrite Htr in Hcreate.
    apply elem_of_app in Hcreate as [Hold|Hnew]; [by left|right].
    apply elem_of_cons in Hnew as [Hconn|Hnew]; [done|].
    apply list_elem_of_In, in_flat_map in Hnew as (e & He & Hev).
    simpl in Hev. destruct Hev as [Hev|[Hev|[]]]; [done|].
    injection Hev as <-.
    unfold output_path, AtlasSubsampler.get_output_filename.
    cbn [AtlasSubsampler.tissue AtlasSubsampler.init].
    destruct ts as [t|].
    + exists (AtlasSubsampler.metaname (AtlasSubsampler.init nm (Some t) ov) e.1
              +:+ "_" +:+ t).
      by rewrite !string_app_assoc.
    + by eexists.
Qed.

Lemma run_touches_only_its_exports_witness :
  exists w',
    AtlasSubsampler.process_atlas tape_shuffle
      (AtlasSubsampler.init "Darmanis_2015" None false) Example.w
    = (inr tt, w')
    /\ AtlasSubsampler.data_full w' = AtlasSubsampler.data_full Example.w
    /\ AtlasSubsampler.atlas_metadata w'
       = AtlasSubsampler.atlas_metadata Example.w.
Proof.
  destruct (run_touches_only_its_exports tape_shuffle "Darmanis_2015" None
              false Example.dsl Example.w tape_shuffle_permutes
              example_processes) as (w' & Hw' & Hfull & Hmeta & _).
  exists w'. split; [exact Hw'|]. split; [exact Hfull | exact Hmeta].
Defined.

(** X10.  Whatever its outcome, a call of [process_atlas], be it
    skipped, ended normally or ended by an error, leaves the full
    matrices and the metadata file as they were and changes no file
    other than those of the exports of its pair.  The error is never a
    [KeyError]: the lookup in [fns_out] does not fail. *)
Theorem any_outcome_touches_only_its_exports {rng : Type}
    (shuffle : rng -> list nat -> list nat * rng)
    (nm : string) (ts : option string) (ov : bool)
    (w w' : AtlasSubsampler.world rng) (r : error + unit) :
  shuffle_permutes shuffle ->
  AtlasSubsampler.process_atlas shuffle (AtlasSubsampler.init nm ts ov) w
  = (r, w') ->
  AtlasSubsampler.data_full w' = AtlasSubsampler.data_full w
  /\ AtlasSubsampler.atlas_metadata w' = AtlasSubsampler.atlas_metadata w
  /\ (forall fn : string,
        Forall (fun e : string * option (string -> bool) =>
                  fn ≠ output_path (AtlasSubsampler.init nm ts ov) e.1)
          (AtlasSubsampler.filters (AtlasSubsampler.init nm ts ov)) ->
        AtlasSubsampler.subsamples w' !! fn
        = AtlasSubsampler.subsamples w !! fn)
  /\ (forall k : string, r ≠ inl (KeyError k)).
Proof.
  intros Hperm Hrun.
  destruct (decide (ov = true
                    \/ ~ all_outputs_exist (AtlasSubsampler.init nm ts ov) w))
    as [Hgo|Hskip].
  - destruct (AtlasSubsampler.data_full w
                !! AtlasSubsampler.get_full_filename nm ts) as [dsl|] eqn:Hfile.
    + destruct (decide (ca_cellType dsl = [])) as [Hnil|Hne].
      * rewrite (process_atlas_no_cells shuffle nm ts ov dsl w Hgo Hfile Hnil)
          in Hrun.
        by injection Hrun as <- <-.
      * rewrite (process_atlas_exports shuffle nm ts ov dsl w Hperm Hgo Hfile
                   Hne) in Hrun.
        apply for_each_export_frame in Hrun; [|apply fns_out_lookup_init].
        exact Hrun.
    + rewrite (process_atlas_missing_file shuffle nm ts ov w Hgo Hfile)
        in Hrun.
      by injection Hrun as <- <-.
  - assert (Hov : ov = false) by (destruct ov; [tauto | done]).
    assert (Hall : all_outputs_exist (AtlasSubsampler.init nm ts ov) w).
    { apply dec_stable. tauto. }
    subst ov. rewrite process_atlas_skip in Hrun by done.
    by injection Hrun as <- <-.
Qed.

Lemma any_outcome_touches_only_its_exports_witness :
  let rw :=
    AtlasSubsampler.process_atlas tape_shuffle
      (AtlasSubsampler.init "Dropout_2021" None true) ExampleDropout.w in
  AtlasSubsampler.data_full rw.2
  = AtlasSubsampler.data_full ExampleDropout.w
  /\ AtlasSubsampler.atlas_metadata rw.2
     = AtlasSubsampler.atlas_metadata ExampleDropout.w
  /\ (forall fn : string,
        Forall (fun e : string * option (string -> bool) =>
                  fn ≠ output_path
                         (AtlasSubsampler.init "Dropout_2021" None true) e.1)
          (AtlasSubsampler.filters
             (AtlasSubsampler.init "Dropout_2021" None true)) ->
        AtlasSubsampler.subsamples rw.2 !! fn
        = AtlasSubsampler.subsamples ExampleDropout.w !! fn)
  /\ (forall k : string, rw.1 ≠ inl (KeyError k)).
Proof.
  apply (any_outcome_touches_only_its_exports tape_shuffle "Dropout_2021"
           None true ExampleDropout.w _ _ tape_shuffle_permutes).
  apply surjective_pairing.
Defined.

(** ** How many columns, and which *)

Lemma sum_list_bounds {A} (f : A -> nat) (lo hi : nat) (l : list A) :
  Forall (fun x => lo <= f x <= hi) l ->
  lo * length l <= sum_list (map f l) <= hi * length l.
Proof.
  induction 1 as [|x l Hx Hall IH]; simpl; lia.
Qed.

Lemma sum_list_le {A} (f g : A -> nat) (l : list A) :
  Forall (fun x => f x <= g x) l ->
  sum_list (map f l) <= sum_list (map g l).
Proof. induction 1 as [|x l Hx Hall IH]; simpl; lia. Qed.

Lemma sum_counts_distinct (cts : list string) :
  sum_list (map (fun ct => count_label ct cts) (distinct cts)) = length cts.
Proof.
  rewrite <- (sum_values_Counter cts), sum_values_alt, Counter_spec.
  by rewrite map_map.
Qed.

(** X11.  In an exportable run no cell type is lost and none is
    invented: a label occurs in the default export exactly when it
    occurs in the full matrix.  The
    number of exported columns is at least the number of cell types, at
    most twenty times that number, and at most the number of cells. *)
Theorem every_cell_type_is_exported {rng : Type}
    (shuffle : rng -> list nat -> list nat * rng)
    (nm : string) (ts : option string) (ov : bool) (dsl : loom_full)
    (w : AtlasSubsampler.world rng) :
  shuffle_permutes shuffle ->
  processes nm ts ov dsl w ->
  exists w' out,
    AtlasSubsampler.process_atlas shuffle (AtlasSubsampler.init nm ts ov) w
    = (inr tt, w')
    /\ AtlasSubsampler.subsamples w'
         !! output_path (AtlasSubsampler.init nm ts ov) "" = Some out
    /\ (forall ct : string, ct ∈ CellType out <-> ct ∈ ca_cellType dsl)
    /\ length (distinct (ca_cellType dsl)) <= length (layer out)
    /\ length (layer out) <= 20 * length (distinct (ca_cellType dsl))
    /\ length (layer out) <= length (ca_cellType dsl).
Proof.
  intros Hperm Hrun.
  destruct (process_atlas_output shuffle Hperm nm ts ov dsl w Hrun)
    as (w' & Hw' & Hout & _).
  specialize (Hout ("", None) (default_filter_init nm ts ov)).
  eexists w', _. split; [exact Hw'|]. split; [exact Hout|].
  unfold variant_file. cbn [layer CellType fst snd].
  split.
  { intros ct. rewrite !count_label_elem_of.
    rewrite (assemble_meta_count shuffle). unfold AtlasSubsampler.n. lia. }
  rewrite (assemble_matrix_length shuffle Hperm), sum_values_alt, quotas_spec,
    map_map.
  cbn [snd].
  assert (Hterm : Forall
    (fun ct => 1 <= count_label ct (ca_cellType dsl) `min` AtlasSubsampler.n
               <= 20) (distinct (ca_cellType dsl))).
  { apply Forall_forall. intros ct Hct. rewrite distinct_elem_of in Hct.
    apply count_label_pos in Hct. unfold AtlasSubsampler.n. lia. }
  apply sum_list_bounds in Hterm.
  split; [lia|]. split; [lia|].
  rewrite <- (sum_counts_distinct (ca_cellType dsl)).
  apply sum_list_le, Forall_forall. intros ct _. lia.
Qed.

Lemma every_cell_type_is_exported_witness :
  exists w' out,
    AtlasSubsampler.process_atlas tape_shuffle
      (AtlasSubsampler.init "Darmanis_2015" None false) Example.w
    = (inr tt, w')
    /\ AtlasSubsampler.subsamples w'
         !! "../data/subsamples/Darmanis_2015.loom" = Some out
    /\ (forall ct : string,
          ct ∈ CellType out <-> ct ∈ ca_cellType Example.dsl)
    /\ length (distinct (ca_cellType Example.dsl)) <= length (layer out)
    /\ length (layer out) <= 20 * length (distinct (ca_cellType Example.dsl))
    /\ length (layer out) <= length (ca_cellType Example.dsl).
Proof.
  exact (every_cell_type_is_exported tape_shuffle "Darmanis_2015" None false
           Example.dsl Example.w tape_shuffle_permutes example_processes).
Defined.

Lemma sublist_same_length {A} (l1 l2 : list A) :
  l1 `sublist_of` l2 -> length l1 = length l2 -> l1 = l2.
Proof.
  induction 1 as [|x l1 l2 Hsub IH|x l1 l2 Hsub IH]; intros Hlen; [done|..].
  - simpl in Hlen. f_equal. apply IH. lia.
  - apply sublist_length in Hsub. simpl in Hlen. lia.
Qed.

(** X12.  When no cell type has more than 20 cells, nothing is left to
    chance: whatever the shuffles return, the default export of an
    exportable run holds every cell of the full matrix, type after type
    and in the original order within a type. *)
Theorem small_types_are_exported_whole {rng : Type}
    (shuffle : rng -> list nat -> list nat * rng)
    (nm : string) (ts : option string) (ov : bool) (dsl : loom_full)
    (w : AtlasSubsampler.world rng) :
  shuffle_permutes shuffle ->
  processes nm ts ov dsl w ->
  (forall ct : string, count_label ct (ca_cellType dsl) <= 20) ->
  exists w' out,
    AtlasSubsampler.process_atlas shuffle (AtlasSubsampler.init nm ts ov) w
    = (inr tt, w')
    /\ AtlasSubsampler.subsamples w'
         !! output_path (AtlasSubsampler.init nm ts ov) "" = Some out
    /\ layer out
       = flat_map
           (fun ct =>
              map (subsampled_column dsl) (nonzero_eq ct (ca_cellType dsl)))
           (distinct (ca_cellType dsl))
    /\ CellType out
       = flat_map
           (fun ct => repeat ct (count_label ct (ca_cellType dsl)))
           (distinct (ca_cellType dsl))
    /\ length (layer out) = length (ca_cellType dsl).
Proof.
  intros Hperm Hrun Hsmall.
  destruct (process_atlas_output shuffle Hperm nm ts ov dsl w Hrun)
    as (w' & Hw' & Hout & _).
  specialize (Hout ("", None) (default_filter_init nm ts ov)).
  eexists w', _. split; [exact Hw'|]. split; [exact Hout|].
  unfold variant_file. cbn [layer CellType fst snd].
  assert (Hlayer :
    AtlasSubsampler.matrix
      (assemble shuffle dsl (AtlasSubsampler.random_state w))
    = flat_map
        (fun ct =>
           map (subsampled_column dsl) (nonzero_eq ct (ca_cellType dsl)))
        (distinct (ca_cellType dsl))).
  { unfold assemble. cbn [AtlasSubsampler.matrix].
    pose proof (assemble_selections shuffle Hperm dsl
                  (AtlasSubsampler.random_state w)) as Hsel.
    rewrite quotas_spec in Hsel |- *. apply Forall2_fmap_l in Hsel.
    induction Hsel as [|ct sel cts' sels (Hlen & _ & Hsub & _) Hsel IH];
      [done|].
    simpl. rewrite IH. f_equal. f_equal.
    apply sublist_same_length; [done|].
    rewrite Hlen, nonzero_eq_length. specialize (Hsmall ct).
    unfold AtlasSubsampler.n. lia. }
  split; [exact Hlayer|]. split.
  - unfold assemble. cbn [AtlasSubsampler.meta].
    rewrite quotas_spec, flat_map_fmap.
    apply flat_map_ext. intros ct. f_equal. specialize (Hsmall ct).
    unfold AtlasSubsampler.n. lia.
  - rewrite (assemble_matrix_length shuffle Hperm), sum_values_alt,
      quotas_spec, map_map.
    cbn [snd]. rewrite <- (sum_counts_distinct (ca_cellType dsl)).
    f_equal. apply map_ext. intros ct. specialize (Hsmall ct).
    unfold AtlasSubsampler.n. lia.
Qed.

Lemma small_types_are_exported_whole_witness :
  exists w' out,
    AtlasSubsampler.process_atlas tape_shuffle
      (AtlasSubsampler.init "Small_2020" (Some "blood") false) ExampleSmall.w
    = (inr tt, w')
    /\ AtlasSubsampler.subsamples w'
         !! "../data/subsamples/Small_2020_blood.loom" = Some out
    /\ CellType out = ["T"; "T"; "T"; "B"; "B"; "NK"]
    /\ length (layer out) = 6.
Proof.
  destruct (small_types_are_exported_whole tape_shuffle "Small_2020"
              (Some "blood") false ExampleSmall.dsl ExampleSmall.w
              tape_shuffle_permutes small_processes)
    as (w' & out & Hw' & Hout & _ & Hct & Hlen).
  - intros ct. etransitivity; [apply length_filter|]. vm_compute. lia.
  - exists w', out. split; [exact Hw'|]. split; [exact Hout|].
    split; [exact Hct | exact Hlen].
Defined.

Lemma block_provenance (dsl : loom_full) (ct : string) (sel : list nat) :
  Forall (fun k => ca_cellType dsl !! k = Some ct) sel ->
  Forall2
    (fun k (c : string * list value) =>
       ca_cellType dsl !! k = Some c.1 /\ c.2 = subsampled_column dsl k)
    sel
    (zip (repeat ct (length sel)) (map (subsampled_column dsl) sel)).
Proof.
  induction 1 as [|k sel Hk Hall IH]; simpl; constructor; done.
Qed.

Lemma blocks_provenance (dsl : loom_full) (q : list (string * nat))
    (sels : list (list nat)) :
  NoDup (map fst q) ->
  Forall2 (fun '(ct, ni) sel => selection_of (ca_cellType dsl) ct ni sel)
    q sels ->
  NoDup (concat sels)
  /\ Forall (fun k => exists ct, ct ∈ map fst q
                                 /\ ca_cellType dsl !! k = Some ct)
       (concat sels)
  /\ Forall2
       (fun k (c : string * list value) =>
          ca_cellType dsl !! k = Some c.1 /\ c.2 = subsampled_column dsl k)
       (concat sels)
       (zip (flat_map (fun '(ct, ni) => repeat ct ni) q)
          (concat (map (map (subsampled_column dsl)) sels))).
Proof.
  intros Hnd Hsel.
  induction Hsel as [|[ct ni] sel q sels (Hlen & Hasc & Hsub & _) Hsel IH];
    simpl.
  { split; [constructor|]. split; constructor. }
  simpl in Hnd. apply NoDup_cons in Hnd as [Hct Hnd].
  destruct (IH Hnd) as (IHnd & IHlab & IHcols).
  assert (Hlab : Forall (fun k => ca_cellType dsl !! k = Some ct) sel).
  { apply Forall_forall. intros k Hk. apply nonzero_eq_elem_of.
    by eapply sublist_subseteq. }
  split; [|split].
  - apply NoDup_app. split; [|split; [|done]].
    + eapply sublist_NoDup; [|exact Hsub].
      eapply sublist_NoDup; [apply NoDup_seq | apply filter_sublist].
    + intros k Hk Hk'.
      eapply Forall_forall in Hlab; [|exact Hk].
      eapply Forall_forall in IHlab; [|exact Hk'].
      destruct IHlab as (ct' & Hct' & Hlab'). congruence.
  - apply Forall_app. split.
    + eapply Forall_impl; [exact Hlab|]. intros k Hk. exists ct.
      split; [apply list_elem_of_here | done].
    + eapply Forall_impl; [exact IHlab|]. intros k (ct' & Hct' & Hk).
      exists ct'. split; [by apply list_elem_of_further | done].
  - rewrite zip_with_app
      by (rewrite repeat_length, length_map; symmetry; exact Hlen).
    apply Forall2_app; [|exact IHcols].
    rewrite <- Hlen. by apply block_provenance.
Qed.

(** X13.  Every column of the default export of an exportable run is a
    cell of the full matrix, carries that cell's type as its label and, as its values,
    the retained rows of that cell cast to float32 and normalised; no
    cell is exported twice. *)
Theorem exported_columns_are_distinct_cells {rng : Type}
    (shuffle : rng -> list nat -> list nat * rng)
    (nm : string) (ts : option string) (ov : bool) (dsl : loom_full)
    (w : AtlasSubsampler.world rng) :
  shuffle_permutes shuffle ->
  processes nm ts ov dsl w ->
  exists w' out (cells : list nat),
    AtlasSubsampler.process_atlas shuffle (AtlasSubsampler.init nm ts ov) w
    = (inr tt, w')
    /\ AtlasSubsampler.subsamples w'
         !! output_path (AtlasSubsampler.init nm ts ov) "" = Some out
    /\ NoDup cells
    /\ length (CellType out) = length (layer out)
    /\ Forall2
         (fun k (c : string * list value) =>
            ca_cellType dsl !! k = Some c.1
            /\ c.2 = normalize_column
                       (map round32
                          (mask_select
                             (AtlasSubsampler.feature_mask (ra_GeneName dsl))
                             (full_column dsl k))))
         cells (zip (CellType out) (layer out)).
Proof.
  intros Hperm Hrun.
  destruct (process_atlas_output shuffle Hperm nm ts ov dsl w Hrun)
    as (w' & Hw' & Hout & _).
  specialize (Hout ("", None) (default_filter_init nm ts ov)).
  pose proof (assemble_selections shuffle Hperm dsl
                (AtlasSubsampler.random_state w)) as Hsel.
  destruct (blocks_provenance dsl _ _
              (eq_ind_r (fun l => NoDup l) (distinct_NoDup _)
                 (quotas_keys (ca_cellType dsl))) Hsel)
    as (Hnd & _ & Hcols).
  eexists w', _, _. split; [exact Hw'|]. split; [exact Hout|].
  split; [exact Hnd|]. split; [|exact Hcols].
  unfold variant_file. cbn [layer CellType fst snd].
  by rewrite (assemble_meta_length shuffle),
    (assemble_matrix_length shuffle Hperm).
Qed.

Lemma exported_columns_are_distinct_cells_witness :
  exists w' out (cells : list nat),
    AtlasSubsampler.process_atlas tape_shuffle
      (AtlasSubsampler.init "Small_2020" (Some "blood") false) ExampleSmall.w
    = (inr tt, w')
    /\ AtlasSubsampler.subsamples w'
         !! "../data/subsamples/Small_2020_blood.loom" = Some out
    /\ NoDup cells
    /\ length (CellType out) = length (layer out)
    /\ Forall2
         (fun k (c : string * list value) =>
            ca_cellType ExampleSmall.dsl !! k = Some c.1
            /\ c.2 = subsampled_column ExampleSmall.dsl k)
         cells (zip (CellType out) (layer out)).
Proof.
  exact (exported_columns_are_distinct_cells tape_shuffle "Small_2020"
           (Some "blood") false ExampleSmall.dsl ExampleSmall.w
           tape_shuffle_permutes small_processes).
Defined.

Lemma digits_no_underscore (d : Decimal.uint) :
  has_char "_" (NilEmpty.string_of_uint d) = false.
Proof.
  induction d; cbn [NilEmpty.string_of_uint];
    rewrite ?has_char_nil, ?has_char_cons, ?IHd; reflexivity.
Qed.

Lemma str_no_underscore (k : nat) : has_char "_" (str k) = false.
Proof.
  unfold str, NilZero.string_of_uint.
  destruct (Nat.to_uint k) eqn:E; first [reflexivity | idtac];
    match goal with
    | |- has_char _ (NilEmpty.string_of_uint ?d) = _ =>
        apply (digits_no_underscore d)
    end.
Qed.

Lemma to_uint_not_Nil (k : nat) : Nat.to_uint k <> Decimal.Nil.
Proof.
  intros E. pose proof (Unsigned.of_to k) as Hk. rewrite E in Hk.
  cbn in Hk. subst k. discriminate E.
Qed.

Lemma str_inj (j k : nat) : str j = str k -> j = k.
Proof.
  unfold str. intros E. apply Unsigned.to_uint_inj.
  apply (f_equal NilZero.uint_of_string) in E.
  rewrite !NilZero.usu in E by apply to_uint_not_Nil.
  congruence.
Qed.

(** A name [ct_j] is cut at its last underscore. *)
Lemma name_inj (a1 a2 d1 d2 : string) :
  has_char "_" d1 = false ->
  has_char "_" d2 = false ->
  a1 +:+ "_" +:+ d1 = a2 +:+ "_" +:+ d2 ->
  a1 = a2 /\ d1 = d2.
Proof.
  revert a2. induction a1 as [|c a1 IH]; intros [|c2 a2] H1 H2 E.
  - change (String "_" d1 = String "_" d2) in E. by injection E.
  - change (String "_" d1 = String c2 (a2 +:+ String "_" d2)) in E.
    injection E as _ E. rewrite E, has_char_app, has_char_cons in H1.
    rewrite orb_true_r in H1. discriminate.
  - change (String c (a1 +:+ String "_" d1) = String "_" d2) in E.
    injection E as _ E. rewrite <- E, has_char_app, has_char_cons in H2.
    rewrite orb_true_r in H2. discriminate.
  - change (String c (a1 +:+ "_" +:+ d1) = String c2 (a2 +:+ "_" +:+ d2))
      in E.
    injection E as -> E. destruct (IH a2 H1 H2 E) as [-> ->]. done.
Qed.

Lemma block_names_elem_of (ct : string) (ni : nat) (x : string) :
  x ∈ block_names ct ni -> exists j, x = ct +:+ "_" +:+ str (j + 1).
Proof.
  unfold block_names. rewrite list_elem_of_In, in_map_iff.
  intros (j & <- & _). by exists j.
Qed.

Lemma block_names_NoDup (ct : string) (ni : nat) : NoDup (block_names ct ni).
Proof.
  unfold block_names.
  change (NoDup ((fun j => ct +:+ "_" +:+ str (j + 1)) <$> seq 0 ni)).
  apply NoDup_fmap_2_strong; [|apply NoDup_seq].
  intros j k _ _ E.
  apply name_inj in E as [_ E]; try apply str_no_underscore.
  apply str_inj in E. lia.
Qed.

Lemma cnames_NoDup (q : list (string * nat)) :
  NoDup (map fst q) ->
  NoDup (flat_map (fun '(ct, ni) => block_names ct ni) q).
Proof.
  induction q as [|[ct ni] q IH]; simpl; [constructor|].
  intros Hnd. apply NoDup_cons in Hnd as [Hct Hnd].
  apply NoDup_app. split; [apply block_names_NoDup|].
  split; [|by apply IH].
  intros x Hx Hx'. apply block_names_elem_of in Hx as (j & ->).
  apply list_elem_of_In, in_flat_map in Hx' as ([ct' ni'] & Hq & Hx').
  apply list_elem_of_In, block_names_elem_of in Hx' as (j' & E).
  apply name_inj in E as [-> _]; try apply str_no_underscore.
  apply Hct, list_elem_of_In, in_map_iff. by exists (ct', ni').
Qed.

(** X14.  In the file of every export of an exportable run, the cell
    names are pairwise distinct: a name [ct_j] determines the cell type and the position in
    its block. *)
Theorem cell_names_are_unique {rng : Type}
    (shuffle : rng -> list nat -> list nat * rng)
    (nm : string) (ts : option string) (ov : bool) (dsl : loom_full)
    (w : AtlasSubsampler.world rng) :
  shuffle_permutes shuffle ->
  processes nm ts ov dsl w ->
  exists w',
    AtlasSubsampler.process_atlas shuffle (AtlasSubsampler.init nm ts ov) w
    = (inr tt, w')
    /\ forall e : string * option (string -> bool),
         e ∈ AtlasSubsampler.filters (AtlasSubsampler.init nm ts ov) ->
         exists out,
           AtlasSubsampler.subsamples w'
             !! output_path (AtlasSubsampler.init nm ts ov) e.1 = Some out
           /\ NoDup (CellName out)
           /\ length (CellName out) = length (layer out).
Proof.
  intros Hperm Hrun.
  destruct (process_atlas_output shuffle Hperm nm ts ov dsl w Hrun)
    as (w' & Hw' & Hout & _).
  exists w'. split; [exact Hw'|].
  intros e He. eexists. split; [exact (Hout e He)|].
  assert (Hnd : NoDup (AtlasSubsampler.cnames
                         (assemble shuffle dsl
                            (AtlasSubsampler.random_state w)))).
  { unfold assemble. cbn [AtlasSubsampler.cnames].
    apply cnames_NoDup. rewrite quotas_keys. apply distinct_NoDup. }
  pose proof (assemble_cnames_length shuffle dsl
                (AtlasSubsampler.random_state w)) as Hc.
  pose proof (assemble_matrix_length shuffle Hperm dsl
                (AtlasSubsampler.random_state w)) as Hm.
  pose proof (assemble_meta_length shuffle dsl
                (AtlasSubsampler.random_state w)) as Hl.
  unfold variant_file. destruct e.2 as [f|]; cbn [CellName layer].
  - split.
    + eapply sublist_NoDup; [exact Hnd | apply mask_select_sublist].
    + apply mask_select_length. congruence.
  - split; [exact Hnd | congruence].
Qed.

Lemma cell_names_are_unique_witness :
  exists w',
    AtlasSubsampler.process_atlas tape_shuffle
      (AtlasSubsampler.init "Darmanis_2015" None false) Example.w
    = (inr tt, w')
    /\ forall e : string * option (string -> bool),
         e ∈ AtlasSubsampler.filters
               (AtlasSubsampler.init "Darmanis_2015" None false) ->
         exists out,
           AtlasSubsampler.subsamples w'
             !! output_path (AtlasSubsampler.init "Darmanis_2015" None false)
                  e.1 = Some out
           /\ NoDup (CellName out)
           /\ length (CellName out) = length (layer out).
Proof.
  exact (cell_names_are_unique tape_shuffle "Darmanis_2015" None false
           Example.dsl Example.w tape_shuffle_permutes example_processes).
Defined.

(** X15.  The shuffles decide which cells are exported and nothing
    else.  Two exportable runs over the same full matrix and the same
    metadata, with
    any two generators in any two states, write for every export files
    with the same gene names, the same cell types, the same cell names,
    the same file attributes and the same number of columns. *)
Theorem only_the_counts_depend_on_the_shuffle {rng1 rng2 : Type}
    (shuffle1 : rng1 -> list nat -> list nat * rng1)
    (shuffle2 : rng2 -> list nat -> list nat * rng2)
    (nm : string) (ts : option string) (ov : bool) (dsl : loom_full)
    (w1 : AtlasSubsampler.world rng1) (w2 : AtlasSubsampler.world rng2) :
  shuffle_permutes shuffle1 ->
  shuffle_permutes shuffle2 ->
  processes nm ts ov dsl w1 ->
  processes nm ts ov dsl w2 ->
  AtlasSubsampler.atlas_metadata w1 = AtlasSubsampler.atlas_metadata w2 ->
  exists w1' w2',
    AtlasSubsampler.process_atlas shuffle1 (AtlasSubsampler.init nm ts ov) w1
    = (inr tt, w1')
    /\ AtlasSubsampler.process_atlas shuffle2
         (AtlasSubsampler.init nm ts ov) w2
       = (inr tt, w2')
    /\ forall e : string * option (string -> bool),
         e ∈ AtlasSubsampler.filters (AtlasSubsampler.init nm ts ov) ->
         exists out1 out2,
           AtlasSubsampler.subsamples w1'
             !! output_path (AtlasSubsampler.init nm ts ov) e.1 = Some out1
           /\ AtlasSubsampler.subsamples w2'
                !! output_path (AtlasSubsampler.init nm ts ov) e.1
              = Some out2
           /\ GeneName out1 = GeneName out2
           /\ CellType out1 = CellType out2
           /\ CellName out1 = CellName out2
           /\ file_attrs out1 = file_attrs out2
           /\ length (layer out1) = length (layer out2).
Proof.
  intros Hperm1 Hperm2 Hrun1 Hrun2 Hmd.
  destruct (process_atlas_output shuffle1 Hperm1 nm ts ov dsl w1 Hrun1)
    as (w1' & Hw1' & Hout1 & _).
  destruct (process_atlas_output shuffle2 Hperm2 nm ts ov dsl w2 Hrun2)
    as (w2' & Hw2' & Hout2 & _).
  exists w1', w2'. split; [exact Hw1'|]. split; [exact Hw2'|].
  intros e He. eexists _, _.
  split; [exact (Hout1 e He)|]. split; [exact (Hout2 e He)|].
  pose proof (assemble_matrix_length shuffle1 Hperm1 dsl
                (AtlasSubsampler.random_state w1)) as Hm1.
  pose proof (assemble_matrix_length shuffle2 Hperm2 dsl
                (AtlasSubsampler.random_state w2)) as Hm2.
  rewrite Hmd. unfold variant_file.
  destruct e.2 as [f|]; cbn [GeneName CellType CellName file_attrs layer];
    (repeat split; try reflexivity).
  - apply mask_select_length. congruence.
  - congruence.
Qed.

Lemma only_the_counts_depend_on_the_shuffle_witness :
  exists w1' w2',
    AtlasSubsampler.process_atlas tape_shuffle
      (AtlasSubsampler.init "Small_2020" (Some "blood") false) ExampleSmall.w
    = (inr tt, w1')
    /\ AtlasSubsampler.process_atlas tape_shuffle
         (AtlasSubsampler.init "Small_2020" (Some "blood") false)
         ExampleSmall.w_reseeded
       = (inr tt, w2')
    /\ forall e : string * option (string -> bool),
         e ∈ AtlasSubsampler.filters
               (AtlasSubsampler.init "Small_2020" (Some "blood") false) ->
         exists out1 out2,
           AtlasSubsampler.subsamples w1'
             !! output_path
                  (AtlasSubsampler.init "Small_2020" (Some "blood") false)
                  e.1 = Some out1
           /\ AtlasSubsampler.subsamples w2'
                !! output_path
                     (AtlasSubsampler.init "Small_2020" (Some "blood") false)
                     e.1
              = Some out2
           /\ GeneName out1 = GeneName out2
           /\ CellType out1 = CellType out2
           /\ CellName out1 = CellName out2
           /\ file_attrs out1 = file_attrs out2
           /\ length (layer out1) = length (layer out2).
Proof.
  exact (only_the_counts_depend_on_the_shuffle tape_shuffle tape_shuffle
           "Small_2020" (Some "blood") false ExampleSmall.dsl
           ExampleSmall.w ExampleSmall.w_reseeded
           tape_shuffle_permutes tape_shuffle_permutes
           small_processes reseeded_processes eq_refl).
Defined.

(** A cell whose type stays within its quota is among the selected
    columns. *)
Lemma small_type_cells_selected (cts : list string) (q : list (string * nat))
    (sels : list (list nat)) (k : nat) (ct : string) :
  Forall2 (fun '(ct, ni) sel => selection_of cts ct ni sel) q sels ->
  (ct, count_label ct cts) ∈ q ->
  cts !! k = Some ct ->
  k ∈ concat sels.
Proof.
  intros Hsel Hq Hk.
  induction Hsel as [|[ct' ni] sel q sels (Hlen & _ & Hsub & _) Hsel IH];
    [by apply elem_of_nil in Hq|].
  simpl. apply elem_of_app. apply elem_of_cons in Hq as [Hq|Hq].
  - injection Hq as <- <-. left.
    rewrite (sublist_same_length _ _ Hsub); [by apply nonzero_eq_elem_of|].
    by rewrite nonzero_eq_length.
  - right. by apply IH.
Qed.

Lemma mul32_Inf_not_finite (x : value) (b : bool) :
  is_finite (mul32 x (Inf b)) = false.
Proof. destruct x as [a| |]; simpl; [by destruct (Qeq_bool a 0) | done..]. Qed.

(** A column whose float32 sum is zero is divided by zero: none of its
    entries is finite. *)
Lemma normalize_column_zero_sum (col : list value) (s : Q) (v : value) :
  sum32 col = Finite s -> (s == 0)%Q ->
  v ∈ normalize_column col -> is_finite v = false.
Proof.
  intros Hs Hz. unfold normalize_column. rewrite Hs. cbn [div32].
  rewrite (proj2 (Qeq_bool_iff s 0) Hz).
  change (Qeq_bool million 0) with false. cbn [negb].
  intros Hv. apply list_elem_of_In, in_map_iff in Hv as (x & <- & _).
  apply mul32_Inf_not_finite.
Qed.

(** X16.  A cell without counts in the retained rows stops the run.
    When its type has at most 20 cells it is selected; its column is
    divided by its zero sum, and [loompy.create] refuses the matrix:
    for a dataset with the default export only, [process_atlas] raises
    [ValueError] once the file has been created and removed again, so
    that the export has no file afterwards, also when it had one
    before. *)
Theorem cell_without_counts_stops_the_run {rng : Type}
    (shuffle : rng -> list nat -> list nat * rng)
    (nm : string) (ts : option string) (ov : bool) (dsl : loom_full)
    (w : AtlasSubsampler.world rng)
    (records : gmap string (option (gmap string attr_value)))
    (k : nat) (ct : string) (s : Q) :
  shuffle_permutes shuffle ->
  nm ≠ "Darmanis_2015" ->
  ov = true \/ ~ all_outputs_exist (AtlasSubsampler.init nm ts ov) w ->
  AtlasSubsampler.data_full w !! AtlasSubsampler.get_full_filename nm ts
  = Some dsl ->
  (exists fea, fea ∈ ra_GeneName dsl /\ fea_bool fea = true) ->
  AtlasSubsampler.atlas_metadata w = Records records ->
  records !! nm ≠ Some None ->
  ca_cellType dsl !! k = Some ct ->
  count_label ct (ca_cellType dsl) <= 20 ->
  sum32 (retained_column dsl k) = Finite s ->
  (s == 0)%Q ->
  exists w',
    AtlasSubsampler.process_atlas shuffle (AtlasSubsampler.init nm ts ov) w
    = (inl ValueError, w')
    /\ AtlasSubsampler.subsamples w'
         !! output_path (AtlasSubsampler.init nm ts ov) "" = None
    /\ AtlasSubsampler.trace w'
       = (AtlasSubsampler.trace w
          ++ [ Connect (AtlasSubsampler.get_full_filename nm ts);
               LoadMetadata;
               Create (output_path (AtlasSubsampler.init nm ts ov) "");
               Remove (output_path (AtlasSubsampler.init nm ts ov) "") ])%list.
Proof.
  intros Hperm Hnm Hgo Hfile (fea & Hfea & Hkeep) Hmd Hrec Hk Hsmall Hs Hz.
  assert (Hne : ca_cellType dsl ≠ []).
  { intros Hnil. by rewrite Hnil in Hk. }
  rewrite (process_atlas_exports shuffle nm ts ov dsl w Hperm Hgo Hfile Hne).
  pose proof (fns_out_lookup_init nm ts ov) as Hfns.
  cbn [AtlasSubsampler.filters AtlasSubsampler.init] in Hfns |- *.
  rewrite get_custom_filters_cases, decide_False in Hfns |- * by exact Hnm.
  apply Forall_inv in Hfns. cbn [fst] in Hfns.
  cbn [AtlasSubsampler.for_each]. unfold AtlasSubsampler.bind at 1.
  set (g := AtlasSubsampler.random_state w).
  set (a := assemble shuffle dsl g).
  set (w0 := AtlasSubsampler.with_random_state _ _).
  assert (Hbad : ~ Forall (Forall (fun v => is_finite v = true))
                     (layer (variant_file (AtlasSubsampler.init nm ts ov)
                               (AtlasSubsampler.atlas_metadata w0) a ""
                               None))).
  { unfold variant_file. cbn [layer]. intros Hall.
    pose proof (assemble_selections shuffle Hperm dsl g) as Hsel.
    assert (Hin : k ∈ concat
                        (selections shuffle (ca_cellType dsl)
                           (quotas (ca_cellType dsl)) g).1).
    { eapply small_type_cells_selected; [exact Hsel | | exact Hk].
      rewrite quotas_spec. apply list_elem_of_In, in_map_iff. exists ct.
      split.
      - f_equal. unfold AtlasSubsampler.n. lia.
      - apply list_elem_of_In, distinct_elem_of.
        by eapply list_elem_of_lookup_2. }
    assert (Hcol : subsampled_column dsl k ∈ AtlasSubsampler.matrix a).
    { unfold a, assemble. cbn [AtlasSubsampler.matrix].
      apply list_elem_of_In, in_concat in Hin as (sel & Hsel' & Hin).
      apply list_elem_of_In, in_concat.
      exists (map (subsampled_column dsl) sel). split.
      - apply in_map_iff. by exists sel.
      - apply in_map_iff. by exists k. }
    eapply Forall_forall in Hall; [|exact Hcol].
    assert (Hlen : length (subsampled_column dsl k) ≠ 0).
    { rewrite subsampled_column_length.
      assert (Hin' : fea ∈ filter (fun fea => fea_bool fea = true)
                             (ra_GeneName dsl))
        by (by apply list_elem_of_filter).
      destruct (filter _ _); [by apply elem_of_nil in Hin' | done]. }
    destruct (subsampled_column dsl k) as [|v col] eqn:Hcolk; [done|].
    apply Forall_inv in Hall.
    rewrite (normalize_column_zero_sum (retained_column dsl k) s v Hs Hz)
      in Hall; [done|].
    unfold subsampled_column in Hcolk. rewrite Hcolk.
    apply list_elem_of_here. }
  rewrite (export_variant_refused (AtlasSubsampler.init nm ts ov) a "" None
             w0 records Hfns Hmd).
  - eexists. split; [reflexivity|].
    cbn [AtlasSubsampler.subsamples AtlasSubsampler.trace AtlasSubsampler.log
         AtlasSubsampler.with_subsamples AtlasSubsampler.with_random_state
         w0].
    split; [apply lookup_delete_eq|]. by rewrite <- !app_assoc.
  - exact Hrec.
  - unfold a, assemble. cbn [AtlasSubsampler.features]. intros Hnil.
    assert (Hin' : fea ∈ filter (fun fea => fea_bool fea = true)
                           (ra_GeneName dsl))
      by (by apply list_elem_of_filter).
    rewrite Hnil in Hin'. by apply elem_of_nil in Hin'.
  - unfold variant_file. cbn [layer]. intros Hnil.
    pose proof (assemble_matrix_length shuffle Hperm dsl g) as Hm.
    fold a in Hm. rewrite Hnil in Hm. cbn [length] in Hm.
    pose proof (assemble_meta_count shuffle dsl g ct) as Hc.
    pose proof (assemble_meta_length shuffle dsl g) as Hl.
    rewrite <- Hm in Hl.
    destruct (AtlasSubsampler.meta (assemble shuffle dsl g)); [|done].
    assert (0 < count_label ct (ca_cellType dsl)).
    { apply count_label_pos. by eapply list_elem_of_lookup_2. }
    unfold AtlasSubsampler.n in Hc. cbn in Hc. lia.
  - exact Hbad.
Qed.

Lemma cell_without_counts_stops_the_run_witness :
  is_Some (AtlasSubsampler.subsamples ExampleDropout.w
             !! "../data/subsamples/Dropout_2021.loom")
  /\ exists w',
       AtlasSubsampler.process_atlas tape_shuffle
         (AtlasSubsampler.init "Dropout_2021" None true) ExampleDropout.w
       = (inl ValueError, w')
       /\ AtlasSubsampler.subsamples w'
            !! "../data/subsamples/Dropout_2021.loom" = None
       /\ AtlasSubsampler.trace w'
          = [ Connect "../data_full/Dropout_2021/dataset.loom";
              LoadMetadata;
              Create "../data/subsamples/Dropout_2021.loom";
              Remove "../data/subsamples/Dropout_2021.loom" ].
Proof.
  split; [by eexists|].
  apply (cell_without_counts_stops_the_run tape_shuffle "Dropout_2021" None
           true ExampleDropout.dsl ExampleDropout.w ∅ 0 "T" 0
           tape_shuffle_permutes).
  - discriminate.
  - by left.
  - reflexivity.
  - exists "Actb". split; [apply list_elem_of_here | reflexivity].
  - reflexivity.
  - by vm_compute.
  - reflexivity.
  - vm_compute. lia.
  - by vm_compute.
  - reflexivity.
Defined.

(** X17.  The file of an export does not tell the dataset from the
    tissue: the default export of the pair [(nm, t)] and that of the
    dataset [nm_t] without tissue go to the same path.  With [overwrite]
    off, once an exportable run has processed the first, the second is
    skipped, and its full matrix is never opened. *)
Theorem tissue_export_shadows_underscored_dataset {rng : Type}
    (shuffle : rng -> list nat -> list nat * rng)
    (nm t : string) (dsl : loom_full) (w : AtlasSubsampler.world rng) :
  shuffle_permutes shuffle ->
  processes nm (Some t) false dsl w ->
  nm +:+ "_" +:+ t ≠ "Darmanis_2015" ->
  output_path (AtlasSubsampler.init (nm +:+ "_" +:+ t) None false) ""
  = output_path (AtlasSubsampler.init nm (Some t) false) ""
  /\ exists w',
       AtlasSubsampler.process_atlas shuffle
         (AtlasSubsampler.init nm (Some t) false) w
       = (inr tt, w')
       /\ AtlasSubsampler.process_atlas shuffle
            (AtlasSubsampler.init (nm +:+ "_" +:+ t) None false) w'
          = (inr tt, w').
Proof.
  intros Hperm Hrun Hne.
  assert (Hpath :
    output_path (AtlasSubsampler.init (nm +:+ "_" +:+ t) None false) ""
    = output_path (AtlasSubsampler.init nm (Some t) false) "").
  { unfold output_path, AtlasSubsampler.get_output_filename,
      AtlasSubsampler.metaname.
    cbn [AtlasSubsampler.tissue AtlasSubsampler.name AtlasSubsampler.init].
    by rewrite !string_app_assoc. }
  split; [exact Hpath|].
  destruct (process_atlas_output shuffle Hperm nm (Some t) false dsl w Hrun)
    as (w' & Hw' & Hout & _).
  specialize (Hout ("", None) (default_filter_init nm (Some t) false)).
  exists w'. split; [exact Hw'|].
  apply process_atlas_skip. unfold all_outputs_exist.
  cbn [AtlasSubsampler.filters AtlasSubsampler.init].
  rewrite get_custom_filters_cases, decide_False by exact Hne.
  apply Forall_singleton. cbn [fst]. rewrite Hpath.
  eexists. exact Hout.
Qed.

Lemma tissue_export_shadows_underscored_dataset_witness :
  output_path (AtlasSubsampler.init "Small_2020_blood" None false) ""
  = output_path (AtlasSubsampler.init "Small_2020" (Some "blood") false) ""
  /\ exists w',
       AtlasSubsampler.process_atlas tape_shuffle
         (AtlasSubsampler.init "Small_2020" (Some "blood") false)
         ExampleSmall.w
       = (inr tt, w')
       /\ AtlasSubsampler.process_atlas tape_shuffle
            (AtlasSubsampler.init "Small_2020_blood" None false) w'
          = (inr tt, w').
Proof.
  apply (tissue_export_shadows_underscored_dataset tape_shuffle
           "Small_2020" "blood" ExampleSmall.dsl ExampleSmall.w
           tape_shuffle_permutes small_processes).
  discriminate.
Defined.
